(** * hisab-sdk: error taxonomy, transport core, pagination iterator and
      webhook verifier, embedded from the TypeScript sources.

    The development follows the layout of the repository:
    - [JS]         the handful of JavaScript built-ins the sources rely on
                   ([parseInt], [String], [split], [includes], [Headers]);
    - [Errors]     [src/errors.ts];
    - [Transport]  [src/utils/request.ts];
    - [Pagination] [src/utils/pagination.ts];
    - [Webhooks]   [src/utils/webhooks.ts].

    Numbers are modelled as [Z] (every number the sources compute with is an
    HTTP status, a count, a page index or an epoch second), with an explicit
    [NaN] where [parseInt] can produce it.  Strings are byte strings. *)

From Stdlib Require Import ZArith List String Ascii Bool Lia.
From Stdlib Require Import Decimal DecimalString DecimalPos DecimalZ.
From Stdlib Require Strings.Byte.
Import ListNotations.

Local Open Scope string_scope.
Local Open Scope Z_scope.

(* ===================================================================== *)
(** * Definitions                                                         *)
(* ===================================================================== *)

(** ** JavaScript built-ins *)

Module JS.

(** The result of [parseInt]: an integer or [NaN].  Integers are exact
    here; JavaScript rounds those beyond 2^53 to the nearest double. *)
Inductive number : Type :=
| NaN : number
| Int : Z -> number.

(** [a ?? b] *)
Definition nullish {A : Type} (a : option A) (b : A) : A :=
  match a with Some x => x | None => b end.

(** Truthiness of a string: [!s] holds exactly for the empty string. *)
Definition truthy (s : string) : bool :=
  match s with EmptyString => false | String _ _ => true end.

(** White space skipped by [parseInt] (the ASCII part of the ECMAScript
    [WhiteSpace] and [LineTerminator] productions). *)
Definition isWhiteSpace (c : ascii) : bool :=
  let n := nat_of_ascii c in
  (Nat.eqb n 9 || Nat.eqb n 10 || Nat.eqb n 11 || Nat.eqb n 12
   || Nat.eqb n 13 || Nat.eqb n 32)%bool.

Fixpoint trimStart (s : string) : string :=
  match s with
  | String c r => if isWhiteSpace c then trimStart r else s
  | EmptyString => EmptyString
  end.

(** The longest prefix of decimal digits of [s]. *)
Fixpoint digitsPrefix (s : string) : uint :=
  match s with
  | String c r =>
      match uint_of_char c (Some Nil) with
      | Some _ =>
          match uint_of_char c (Some (digitsPrefix r)) with
          | Some d => d
          | None => Nil
          end
      | None => Nil
      end
  | EmptyString => Nil
  end.

(** The digits of [parseInt]: no digit gives [NaN]; whatever follows the
    digits is ignored. *)
Definition parseDigits (sign : Z) (s : string) : number :=
  match digitsPrefix s with
  | Nil => NaN
  | d => Int (sign * Z.of_uint d)
  end.

(** [parseInt(s, 10)]: leading white space is skipped, an optional sign is
    read, then the longest run of decimal digits. *)
Definition parseInt (s : string) : number :=
  let s1 := trimStart s in
  match s1 with
  | String c r =>
      if Ascii.eqb c "-" then parseDigits (-1) r
      else if Ascii.eqb c "+" then parseDigits 1 r
      else parseDigits 1 s1
  | EmptyString => parseDigits 1 s1
  end.

(** [String(z)] and [`${z}`] for an integer [z]: its decimal digits, with a
    leading [-] when negative (JavaScript switches to exponent notation from
    10^21 on, far beyond any epoch second or tolerance). *)
Definition toString (z : Z) : string :=
  NilEmpty.string_of_int (Z.to_int z).

(** [s.includes(sub)] *)
Fixpoint includes (sub s : string) : bool :=
  (prefix sub s ||
   match s with
   | String _ r => includes sub r
   | EmptyString => false
   end)%bool.

(** [s.split(sep)] for a one-character separator: always at least one
    part. *)
Fixpoint split (sep : ascii) (s : string) : list string :=
  match s with
  | EmptyString => [EmptyString]
  | String c r =>
      if Ascii.eqb c sep then EmptyString :: split sep r
      else match split sep r with
           | p :: ps => String c p :: ps
           | [] => [String c EmptyString]
           end
  end.

(** ASCII lower-casing, as used for header names. *)
Definition toLowerAscii (c : ascii) : ascii :=
  let n := nat_of_ascii c in
  if (Nat.leb 65 n && Nat.leb n 90)%bool then ascii_of_nat (n + 32) else c.

Fixpoint toLowerCase (s : string) : string :=
  match s with
  | EmptyString => EmptyString
  | String c r => String (toLowerAscii c) (toLowerCase r)
  end.

(** The Fetch [Headers] object: an ordered list of name/value pairs. *)
Definition Headers : Type := list (string * string).

Fixpoint joinComma (vs : list string) : string :=
  match vs with
  | [] => EmptyString
  | [v] => v
  | v :: rest => v ++ ", " ++ joinComma rest
  end.

(** [headers.get(name)]: names compare case-insensitively; several values
    of one name are joined with [", "]; no entry gives [null]. *)
Definition get (h : Headers) (name : string) : option string :=
  let vs :=
    map snd
      (filter
         (fun kv => String.eqb (toLowerCase (fst kv)) (toLowerCase name))
         h) in
  match vs with
  | [] => None
  | _ => Some (joinComma vs)
  end.

(** A raw JavaScript error value, as far as the sources inspect it:
    [instanceof TypeError], [.name] and [.message]. *)
Record Error : Type := mkError {
  isTypeError : bool;
  name : string;
  message : string
}.

End JS.

(** ** [src/errors.ts] *)

Module Errors.
Import JS.

(** [ErrorDetail] of [src/types/common.ts]. *)
Record ErrorDetail : Type := mkErrorDetail {
  field : option string;
  detail_message : string
}.

(** The [error] member of an error response body. *)
Record ErrorInfo : Type := mkErrorInfo {
  info_code : option string;
  info_message : option string;
  info_details : option (list ErrorDetail)
}.

(** The parameter type of [fromResponse]:
    [{ error?: { code?, message?, details? } }]. *)
Record ErrorBody : Type := mkErrorBody {
  error : option ErrorInfo
}.

(** The classes of the hierarchy rooted at [HisabError]; [instanceof] is
    [instanceOf] below. *)
Inductive ErrorClass : Type :=
| HisabErrorBase
| ValidationError
| AuthenticationError
| ForbiddenError
| NotFoundError
| RateLimitError
| NetworkError
| TimeoutError.

(** An instance of [HisabError] or of one of its subclasses.  [retryAfter]
    exists on [RateLimitError] only. *)
Record HisabError : Type := mkHisabError {
  class : ErrorClass;
  name : string;
  message : string;
  code : string;
  status : Z;
  details : option (list ErrorDetail);
  response : option ErrorBody;
  cause : option JS.Error;
  retryAfter : option number
}.

(** Constructors.  A parameter with a default value is an [option]: the
    default applies when the argument is [undefined] ([None]). *)

Definition new_HisabError (message code : string) (status : Z)
    (details : option (list ErrorDetail)) (response : option ErrorBody)
    : HisabError :=
  {| class := HisabErrorBase; name := "HisabError"; message := message;
     code := code; status := status; details := details;
     response := response; cause := None; retryAfter := None |}.

Definition new_ValidationError (message : string) (code : option string)
    (details : option (list ErrorDetail)) (response : option ErrorBody)
    : HisabError :=
  {| class := ValidationError; name := "ValidationError";
     message := message; code := nullish code "VALIDATION_ERROR";
     status := 400; details := details; response := response;
     cause := None; retryAfter := None |}.

Definition new_AuthenticationError (message code : option string)
    (response : option ErrorBody) : HisabError :=
  {| class := AuthenticationError; name := "AuthenticationError";
     message := nullish message "Invalid or missing API key";
     code := nullish code "UNAUTHORIZED";
     status := 401; details := None; response := response;
     cause := None; retryAfter := None |}.

Definition new_ForbiddenError (message code : option string)
    (response : option ErrorBody) : HisabError :=
  {| class := ForbiddenError; name := "ForbiddenError";
     message := nullish message "Insufficient permissions";
     code := nullish code "FORBIDDEN";
     status := 403; details := None; response := response;
     cause := None; retryAfter := None |}.

Definition new_NotFoundError (message code : option string)
    (response : option ErrorBody) : HisabError :=
  {| class := NotFoundError; name := "NotFoundError";
     message := nullish message "Resource not found";
     code := nullish code "NOT_FOUND";
     status := 404; details := None; response := response;
     cause := None; retryAfter := None |}.

Definition new_RateLimitError (message code : option string)
    (response : option ErrorBody) (retryAfter : option number)
    : HisabError :=
  {| class := RateLimitError; name := "RateLimitError";
     message := nullish message "Rate limit exceeded";
     code := nullish code "RATE_LIMIT_EXCEEDED";
     status := 429; details := None; response := response;
     cause := None; retryAfter := Some (nullish retryAfter (Int 60)) |}.

Definition new_NetworkError (message : option string)
    (originalCause : option JS.Error) : HisabError :=
  {| class := NetworkError; name := "NetworkError";
     message := nullish message "Network request failed";
     code := "NETWORK_ERROR"; status := 0; details := None;
     response := None; cause := originalCause; retryAfter := None |}.

(** [timeout ? `Request timed out after ${timeout}ms` : message]: the
    budget is carried in the message, and only when it is a non-zero
    number. *)
Definition new_TimeoutError (message : option string) (timeout : option Z)
    : HisabError :=
  {| class := TimeoutError; name := "TimeoutError";
     message :=
       match timeout with
       | Some t =>
           if Z.eqb t 0 then nullish message "Request timed out"
           else "Request timed out after " ++ toString t ++ "ms"
       | None => nullish message "Request timed out"
       end;
     code := "TIMEOUT"; status := 0; details := None;
     response := None; cause := None; retryAfter := None |}.

(** [e instanceof C]: every class derives from [HisabError] directly. *)
Definition instanceOf (e : HisabError) (c : ErrorClass) : bool :=
  match c, class e with
  | HisabErrorBase, _ => true
  | ValidationError, ValidationError => true
  | AuthenticationError, AuthenticationError => true
  | ForbiddenError, ForbiddenError => true
  | NotFoundError, NotFoundError => true
  | RateLimitError, RateLimitError => true
  | NetworkError, NetworkError => true
  | TimeoutError, TimeoutError => true
  | _, _ => false
  end.

(** [body.error?.m] *)
Definition optChain {A : Type} (body : ErrorBody)
    (m : ErrorInfo -> option A) : option A :=
  match error body with Some i => m i | None => None end.

(** [HisabError.fromResponse(status, body, headers?)] *)
Definition fromResponse (status : Z) (body : ErrorBody)
    (headers : option Headers) : HisabError :=
  let code := nullish (optChain body info_code) "UNKNOWN_ERROR" in
  let message :=
    nullish (optChain body info_message) "An unknown error occurred" in
  let details := optChain body info_details in
  if Z.eqb status 400 then
    new_ValidationError message (Some code) details (Some body)
  else if Z.eqb status 401 then
    new_AuthenticationError (Some message) (Some code) (Some body)
  else if Z.eqb status 403 then
    new_ForbiddenError (Some message) (Some code) (Some body)
  else if Z.eqb status 404 then
    new_NotFoundError (Some message) (Some code) (Some body)
  else if Z.eqb status 429 then
    let retryAfter :=
      match headers with
      | Some h => parseInt (nullish (get h "Retry-After") "60")
      | None => Int 60
      end in
    new_RateLimitError (Some message) (Some code) (Some body)
      (Some retryAfter)
  else
    new_HisabError message code status details (Some body).

(** [toJSON()] *)
Record ErrorJSON : Type := mkErrorJSON {
  json_name : string;
  json_message : string;
  json_code : string;
  json_status : Z;
  json_details : option (list ErrorDetail)
}.

Definition toJSON (e : HisabError) : ErrorJSON :=
  {| json_name := name e; json_message := message e; json_code := code e;
     json_status := status e; json_details := details e |}.

(** [ValidationError.getFieldErrors(field)] *)
Definition getFieldErrors (e : HisabError) (f : string) : list string :=
  map detail_message
    (filter
       (fun d => match field d with
                 | Some g => String.eqb g f
                 | None => false
                 end)
       (nullish (details e) [])).

(** [ValidationError.hasFieldError(field)] *)
Definition hasFieldError (e : HisabError) (f : string) : bool :=
  Nat.ltb 0 (List.length (getFieldErrors e f)).

End Errors.

(** ** [src/utils/request.ts] *)

Module Transport.
Import JS Errors.

(** [RateLimitInfo] of [src/types/common.ts]; the fields hold whatever
    [parseInt] returned. *)
Record RateLimitInfo : Type := mkRateLimitInfo {
  limit : number;
  remaining : number;
  reset : number
}.

Inductive ResponseType : Type := json | blob | text.

(** [HisabClientOptions], without the members that only shape the URL and
    the request headers. *)
Record HisabClientOptions : Type := mkOptions {
  opt_apiKey : string;
  opt_timeout : option Z;
  opt_retries : option Z
}.

(** The [HttpClient] instance: its read-only configuration and the mutable
    [lastRateLimit] field. *)
Record HttpClient : Type := mkHttpClient {
  apiKey : string;
  timeout : Z;
  maxRetries : Z;
  lastRateLimit : option RateLimitInfo
}.

Definition DEFAULT_TIMEOUT : Z := 30000.
Definition DEFAULT_RETRIES : Z := 3.

(** The constructor; [inl] is the thrown [Error]'s message. *)
Definition new_HttpClient (options : HisabClientOptions)
    : string + HttpClient :=
  if negb (truthy (opt_apiKey options)) then inl "API key is required"
  else inr {| apiKey := opt_apiKey options;
              timeout := nullish (opt_timeout options) DEFAULT_TIMEOUT;
              maxRetries := nullish (opt_retries options) DEFAULT_RETRIES;
              lastRateLimit := None |}.

(** [RequestConfig], without method, path, body, query and headers: they
    determine what is sent, not how the attempts are driven. *)
Record RequestConfig : Type := mkRequestConfig {
  cfg_timeout : option Z;
  cfg_retries : option Z;
  responseType : option ResponseType
}.

(** A value thrown out of [request]: an instance of the [HisabError]
    hierarchy or some other error object. *)
Inductive Thrown : Type :=
| ThrowHisab : HisabError -> Thrown
| ThrowRaw : JS.Error -> Thrown.

(** What [request] does to the outside world, in order. [SleepBackoff a] is
    [sleep(getBackoffDelay(a))], [SleepRetryAfter r] is [sleep(r * 1000)]. *)
Inductive Event : Type :=
| Fetch : Z -> Event
| SleepRetryAfter : number -> Event
| SleepBackoff : Z -> Event.

Definition isFetch (ev : Event) : bool :=
  match ev with Fetch _ => true | _ => false end.

(** The deterministic part of [getBackoffDelay(attempt)]; the jitter
    [Math.random() * 1000] is added to it. *)
Definition baseDelay (attempt : Z) : Z :=
  Z.min (1000 * 2 ^ (attempt - 1)) 30000.

(** What [response.json()] resolves to on the error path.  [safeParseJson]
    declares a [Record<string, unknown>] and [fromResponse] a
    [{ error?: ... }], but the value is not checked against either: it is
    the JSON value [null], or some other value, whose members are read as
    those of a [{ error?: ... }]. *)
Inductive JsonBody : Type :=
| JsonNull : JsonBody
| JsonValue : ErrorBody -> JsonBody.

(** The [TypeError] of [body.error] for [body = null], the first thing
    [fromResponse] evaluates.  The message is V8's; like that of the other
    engines it does not contain "fetch". *)
Definition nullBodyError : JS.Error :=
  {| isTypeError := true; JS.name := "TypeError";
     JS.message := "Cannot read properties of null (reading 'error')" |}.

(** [HisabError.fromResponse(response.status, errorBody, response.headers)]
    as [request] calls it, on the unchecked [errorBody]: [inl] is what the
    call throws. *)
Definition fromResponseUnchecked (status : Z) (body : JsonBody)
    (headers : Headers) : JS.Error + HisabError :=
  match body with
  | JsonNull => inl nullBodyError
  | JsonValue b => inr (fromResponse status b (Some headers))
  end.

Section Request.
(** The decoded body of a successful response. *)
Context {T : Type}.

(** A Fetch [Response], as far as [request] reads it.  [errorJson] is
    what [response.json()] gives on the error path ([None] when it
    rejects); [read rt] is the body read on the success path in mode
    [rt] ([inl] when the read rejects). *)
Record Response : Type := mkResponse {
  resp_status : Z;
  statusText : string;
  headers : Headers;
  errorJson : option JsonBody;
  read : ResponseType -> JS.Error + T
}.

(** [response.ok] *)
Definition ok (r : Response) : bool :=
  ((200 <=? resp_status r) && (resp_status r <=? 299))%bool.

(** [parseRateLimitHeaders(headers)], as a function of the previous
    snapshot. *)
Definition parseRateLimitHeaders (h : Headers)
    (prev : option RateLimitInfo) : option RateLimitInfo :=
  let limit := get h "X-RateLimit-Limit" in
  let remaining := get h "X-RateLimit-Remaining" in
  let reset := get h "X-RateLimit-Reset" in
  match limit, remaining, reset with
  | Some l, Some r, Some s =>
      if (truthy l && truthy r && truthy s)%bool then
        Some {| limit := parseInt l; remaining := parseInt r;
                reset := parseInt s |}
      else prev
  | _, _, _ => prev
  end.

(** [safeParseJson(response)]: whatever [response.json()] resolves to, and
    the fallback object when it rejects. *)
Definition safeParseJson (r : Response) : JsonBody :=
  match errorJson r with
  | Some b => b
  | None =>
      JsonValue
        {| error := Some
             {| info_code := None;
                info_message :=
                  Some (if truthy (statusText r) then statusText r
                        else "Unknown error");
                info_details := None |} |}
  end.

(** The outcome of one [fetchWithTimeout] call: a response, or a
    rejection (network failure, or the abort fired by the timer). *)
Definition Outcome : Type := (JS.Error + Response)%type.

(** The result of [request]: what it returned or threw, the client
    afterwards, and what it did. *)
Record Run : Type := mkRun {
  result : Thrown + T;
  client_after : HttpClient;
  events : list Event
}.

Definition setRateLimit (c : HttpClient) (rl : option RateLimitInfo)
    : HttpClient :=
  {| apiKey := apiKey c; timeout := timeout c;
     maxRetries := maxRetries c; lastRateLimit := rl |}.

(** The end of the [catch] block, reached on the last attempt:
    "transform to appropriate error type", else rethrow. *)
Definition transformError (requestTimeout : Z) (e : JS.Error) : Thrown :=
  if (isTypeError e && includes "fetch" (JS.message e))%bool then
    ThrowHisab (new_NetworkError (Some "Network request failed") (Some e))
  else if String.eqb (JS.name e) "AbortError" then
    ThrowHisab
      (new_TimeoutError (Some "Request timed out") (Some requestTimeout))
  else ThrowRaw e.

Section Loop.
(** [transport k] is the outcome of the [k]-th call of
    [fetchWithTimeout]; each attempt makes exactly one. *)
Variable transport : Z -> Outcome.
Variable maxAttempts : Z.
Variable requestTimeout : Z.
Variable rt : ResponseType.

(** The [for] loop of [request].  [fuel] bounds the iterations and is
    [maxAttempts] at the start; the loop condition is tested as in the
    source. *)
Fixpoint attempts (fuel : nat) (attempt : Z) (lastError : option Thrown)
    (c : HttpClient) (log : list Event) : Run :=
  let afterLoop :=
    {| result :=
         inl (nullish lastError
                (ThrowHisab
                   (new_NetworkError
                      (Some "Request failed after all retries") None)));
       client_after := c; events := log |} in
  match fuel with
  | O => afterLoop
  | S fuel' =>
      if negb (attempt <=? maxAttempts) then afterLoop else
      let log := (log ++ [Fetch attempt])%list in
      (* the [catch] block, for an error that is not a [HisabError] *)
      let catch (e : JS.Error) (c : HttpClient) : Run :=
        if attempt <? maxAttempts then
          attempts fuel' (attempt + 1) (Some (ThrowRaw e)) c
            (log ++ [SleepBackoff attempt])%list
        else
          {| result := inl (transformError requestTimeout e);
             client_after := c; events := log |} in
      match transport attempt with
      | inl e => catch e c
      | inr response =>
          let c :=
            setRateLimit c
              (parseRateLimitHeaders (headers response)
                 (lastRateLimit c)) in
          if negb (ok response) then
            let errorBody := safeParseJson response in
            match
              fromResponseUnchecked (resp_status response) errorBody
                (headers response)
            with
            | inl e =>
                (* thrown inside [try], and not a [HisabError] *)
                catch e c
            | inr error =>
                let st := resp_status response in
                if ((400 <=? st) && (st <? 500) && negb (st =? 429))%bool
                then
                  (* thrown, caught as a [HisabError], thrown again *)
                  {| result := inl (ThrowHisab error); client_after := c;
                     events := log |}
                else if (instanceOf error RateLimitError
                         && (attempt <? maxAttempts))%bool then
                  attempts fuel' (attempt + 1) lastError c
                    (log ++ [SleepRetryAfter
                               (nullish (retryAfter error) NaN)])%list
                else if ((500 <=? st) && (attempt <? maxAttempts))%bool
                then
                  attempts fuel' (attempt + 1) (Some (ThrowHisab error)) c
                    (log ++ [SleepBackoff attempt])%list
                else
                  {| result := inl (ThrowHisab error); client_after := c;
                     events := log |}
            end
          else
            match read response rt with
            | inr v =>
                {| result := inr v; client_after := c; events := log |}
            | inl e => catch e c
            end
      end
  end.
End Loop.

(** [request(config)], from the first attempt on.  The URL and the request
    headers are built before the loop and passed unchanged to every
    attempt, and the debug flag only prints; none of them is modelled. *)
Definition request (c : HttpClient) (config : RequestConfig)
    (transport : Z -> Outcome) : Run :=
  let rt := nullish (responseType config) json in
  let maxAttempts := nullish (cfg_retries config) (maxRetries c) + 1 in
  let requestTimeout := nullish (cfg_timeout config) (timeout c) in
  attempts transport maxAttempts requestTimeout rt
    (Z.to_nat maxAttempts) 1 None c [].

(** The number of transport attempts of a run. *)
Definition fetches (r : Run) : nat :=
  List.length (filter isFetch (events r)).

(** The snapshot after a sequence of outcomes, starting from [rl]. *)
Definition snapshotAfter (os : list Outcome)
    (rl : option RateLimitInfo) : option RateLimitInfo :=
  fold_left
    (fun rl o =>
       match o with
       | inr response => parseRateLimitHeaders (headers response) rl
       | inl _ => rl
       end)
    os rl.

(** An outcome after which the loop goes on to the next attempt when one is
    left: a rejection, a 429 response, a response with a status from 500
    on, or a successful response whose body cannot be read.  (A non-2xx
    response whose body is [null] goes on as well, whatever its status; the
    statements that use [retried] do not need it.) *)
Definition retried (rt : ResponseType) (o : Outcome) : Prop :=
  match o with
  | inl _ => True
  | inr response =>
      resp_status response = 429 \/
      500 <= resp_status response \/
      (ok response = true /\ exists e, read response rt = inl e)
  end.

(** The attempt numbers of the transport calls of a run, in order. *)
Definition fetched (evs : list Event) : list Z :=
  flat_map (fun ev => match ev with Fetch k => [k] | _ => [] end) evs.



End Request.
Arguments Response : clear implicits.
Arguments Outcome : clear implicits.
Arguments Run : clear implicits.

End Transport.

(** ** [src/utils/pagination.ts] *)

Module Pagination.
Import JS Errors Transport.

(** [Pagination] and [PaginatedResponse] of [src/types/common.ts]. *)
Record Pagination : Type := mkPagination {
  total : Z;
  page : Z;
  per_page : Z;
  total_pages : Z
}.

Record PaginatedResponse (T : Type) : Type := mkPaginatedResponse {
  data : list T;
  pagination : Pagination
}.
Arguments data {T} _.
Arguments pagination {T} _.
Arguments mkPaginatedResponse {T} _ _.

(** What [client.get<PaginatedResponse<T>>] resolves to: the decoded body
    of a 2xx response, which [request] returns as [response.json() as T]
    without looking at it.  It is an envelope of the declared type, or a
    value on which the traversal throws a [TypeError] of its own:
    [Unreadable] has no [meta.pagination] to read a member from (the value
    is [null], or [meta] or [pagination] is missing or [null]), and
    [NotIterable] has its [meta.pagination] but a [data] that [for ... of]
    cannot iterate.  The messages are the engine's; that of [Unreadable]
    may name the member that was to be read. *)
Inductive Answer (T : Type) : Type :=
| Unreadable : (string -> string) -> Answer T
| NotIterable : Pagination -> string -> Answer T
| Envelope : PaginatedResponse T -> Answer T.
Arguments Unreadable {T} _.
Arguments NotIterable {T} _ _.
Arguments Envelope {T} _.

(** A [TypeError] raised by the engine. *)
Definition typeError (message : string) : JS.Error :=
  {| isTypeError := true; JS.name := "TypeError"; JS.message := message |}.

(** [AutoPaginateOptions]: [ListOptions] extended with [maxItems]. *)
Record AutoPaginateOptions : Type := mkAutoPaginateOptions {
  opt_page : option Z;
  opt_per_page : option Z;
  maxItems : option Z
}.

(** The fields of a [PaginatedIterator] object: [options] and [perPage] are
    read-only, the three cursor fields are assigned by every traversal. *)
Record PaginatedIterator : Type := mkPaginatedIterator {
  options : AutoPaginateOptions;
  perPage : Z;
  currentPage : Z;
  totalPages : option Z;
  itemsYielded : Z
}.

(** The constructor. *)
Definition new_PaginatedIterator (o : AutoPaginateOptions)
    : PaginatedIterator :=
  {| options := o;
     perPage := nullish (opt_per_page o) 100;
     currentPage := nullish (opt_page o) 1;
     totalPages := None;
     itemsYielded := 0 |}.

(** The iterator object together with the log of the page requests sent
    through [client.get], as [(page, per_page)] in the order sent. *)
Record World : Type := mkWorld {
  iter : PaginatedIterator;
  requests : list (Z * Z)
}.

Definition setCursor (w : World) (cp : Z) (tp : option Z) (iy : Z) : World :=
  {| iter := {| options := options (iter w); perPage := perPage (iter w);
                currentPage := cp; totalPages := tp; itemsYielded := iy |};
     requests := requests w |}.

Definition logRequest (w : World) (p pp : Z) : World :=
  {| iter := iter w; requests := (requests w ++ [(p, pp)])%list |}.

(** The same iterator and log, had the iterator been constructed with the
    cap [m]. *)
Definition withMaxItems (m : option Z) (w : World) : World :=
  {| iter := {| options := {| opt_page := opt_page (options (iter w));
                              opt_per_page := opt_per_page (options (iter w));
                              maxItems := m |};
                perPage := perPage (iter w);
                currentPage := currentPage (iter w);
                totalPages := totalPages (iter w);
                itemsYielded := itemsYielded (iter w) |};
     requests := requests w |}.

Section Iterator.
Context {T : Type}.

(** [client.get(path, { ...options, page, per_page })] for the iterator's
    fixed path and options, as a function of the page asked for and the
    page size: the decoded response, or what [request] threw.  The query
    carries the iterator's options as well, [maxItems] included; they are
    the same in every request of an iterator, and [get] is the client for
    them.  A statement that runs two iterators which differ in their
    options on one [get] is about a service that answers both alike. *)
Variable get : Z -> Z -> Thrown + Answer T.

(** A generator object made by [[Symbol.asyncIterator]()]: not started
    yet, suspended at [yield item] inside the [for] loop with the items
    of the page still to come, or finished. *)
Inductive Generator : Type :=
| Fresh : Generator
| Suspended : list T -> Generator
| Finished : Generator.

(** What one [next()] settles with. *)
Inductive Step : Type :=
| Yield : T -> Step
| Done : Step
| Throws : Thrown -> Step.

(** [maxItems && this.itemsYielded >= maxItems]: a missing cap and a cap
    of [0] are both falsy. *)
Definition capReached (w : World) : bool :=
  match maxItems (options (iter w)) with
  | Some m => (negb (m =? 0) && (itemsYielded (iter w) >=? m))%bool
  | None => false
  end.

(** After the [for] loop over a page: stop on the last page, else move to
    the next page and go round the [while] loop ([k]).  [totalPages] is
    [null] only before the first response; [>=] reads it as [0] then. *)
Definition afterPage (k : World -> option (Step * Generator * World))
    (w : World) : option (Step * Generator * World) :=
  if currentPage (iter w) >=? nullish (totalPages (iter w)) 0
  then Some (Done, Finished, w)
  else k (setCursor w (currentPage (iter w) + 1) (totalPages (iter w))
            (itemsYielded (iter w))).

(** The [for (const item of response.data)] loop, entered with the items
    not yet visited. *)
Definition forLoop (k : World -> option (Step * Generator * World))
    (items : list T) (w : World) : option (Step * Generator * World) :=
  match items with
  | item :: rest =>
      if capReached w then afterPage k w
      else Some (Yield item, Suspended rest, w)
  | [] => afterPage k w
  end.

(** The [while (true)] loop, entered at its head.  [fuel] bounds the
    pages fetched before the next [yield]; [None] is out of fuel. *)
Fixpoint whileLoop (fuel : nat) (w : World)
    : option (Step * Generator * World) :=
  match fuel with
  | O => None
  | S fuel' =>
      if capReached w then Some (Done, Finished, w)
      else
        let w := logRequest w (currentPage (iter w)) (perPage (iter w)) in
        match get (currentPage (iter w)) (perPage (iter w)) with
        | inl e => Some (Throws e, Finished, w)
        | inr (Unreadable message) =>
            (* [response.meta.pagination.total_pages] throws *)
            Some (Throws (ThrowRaw (typeError (message "total_pages"))),
                  Finished, w)
        | inr (NotIterable pg message) =>
            let w :=
              setCursor w (currentPage (iter w)) (Some (total_pages pg))
                (itemsYielded (iter w)) in
            (* [for (const item of response.data)] throws *)
            Some (Throws (ThrowRaw (typeError message)), Finished, w)
        | inr (Envelope response) =>
            let w :=
              setCursor w (currentPage (iter w))
                (Some (total_pages (pagination response)))
                (itemsYielded (iter w)) in
            forLoop (whileLoop fuel') (data response) w
        end
  end.

(** [generator.next()] *)
Definition next (fuel : nat) (g : Generator) (w : World)
    : option (Step * Generator * World) :=
  match g with
  | Fresh =>
      (* the reset at the top of the generator body *)
      let w :=
        setCursor w (nullish (opt_page (options (iter w))) 1) None 0 in
      whileLoop fuel w
  | Suspended rest =>
      (* resumed after [yield item]: [this.itemsYielded++] *)
      let w :=
        setCursor w (currentPage (iter w)) (totalPages (iter w))
          (itemsYielded (iter w) + 1) in
      forLoop (whileLoop fuel) rest w
  | Finished => Some (Done, Finished, w)
  end.

(** The loop of [toArray()]: [for await (const item of this)
    items.push(item)].  [n] bounds the number of [next()] calls. *)
Fixpoint toArrayLoop (n fuel : nat) (g : Generator) (w : World)
    (items : list T) : option ((Thrown + list T) * World) :=
  match n with
  | O => None
  | S n' =>
      match next fuel g w with
      | None => None
      | Some (Yield item, g', w') =>
          toArrayLoop n' fuel g' w' (items ++ [item])%list
      | Some (Done, _, w') => Some (inr items, w')
      | Some (Throws e, _, w') => Some (inl e, w')
      end
  end.

(** [toArray()] *)
Definition toArray (n fuel : nat) (w : World)
    : option ((Thrown + list T) * World) :=
  toArrayLoop n fuel Fresh w [].

(** The loop of [take(n)]: the next item is requested first, and only
    then is [count >= n] tested; [break] ends the generator with
    [return()], which runs no more of its body. *)
Fixpoint takeLoop (limit : Z) (steps fuel : nat) (g : Generator)
    (w : World) (items : list T) (count : Z)
    : option ((Thrown + list T) * World) :=
  match steps with
  | O => None
  | S steps' =>
      match next fuel g w with
      | None => None
      | Some (Yield item, g', w') =>
          if count >=? limit then Some (inr items, w')
          else takeLoop limit steps' fuel g' w' (items ++ [item])%list
                 (count + 1)
      | Some (Done, _, w') => Some (inr items, w')
      | Some (Throws e, _, w') => Some (inl e, w')
      end
  end.

(** [take(n)] *)
Definition take (limit : Z) (steps fuel : nat) (w : World)
    : option ((Thrown + list T) * World) :=
  takeLoop limit steps fuel Fresh w [] 0.

End Iterator.

(** The list endpoint the iterator talks to, for a fixed data set [items]:
    page [p] of size [pp] holds the items from index [(p - 1) * pp] on, at
    most [pp] of them, and the page count is the number of items divided
    by the page size, rounded up.  The service is outside the repository;
    this is the [{data, meta: {pagination}}] envelope of
    [PaginatedResponse] filled the way the README's manual pagination loop
    reads it. *)
Definition servePage {T : Type} (items : list T) (p pp : Z)
    : Thrown + Answer T :=
  inr (Envelope
         {| data :=
              firstn (Z.to_nat pp) (skipn (Z.to_nat ((p - 1) * pp)) items);
            pagination :=
              {| total := Z.of_nat (List.length items);
                 page := p;
                 per_page := pp;
                 total_pages :=
                   (Z.of_nat (List.length items) + pp - 1) / pp |} |}).

Definition fetchCount (w : World) : nat := List.length (requests w).

(** The requests for [count] consecutive pages of size [pp], from page
    [first] on. *)
Definition pagesFrom (first : Z) (count : nat) (pp : Z) : list (Z * Z) :=
  map (fun i => (first + Z.of_nat i, pp)) (seq 0 count).

End Pagination.

(** ** [src/utils/webhooks.ts] *)

Module Webhooks.
Import JS.

(** [VerifyWebhookSignatureOptions] and [WebhookVerificationResult] of
    [src/types/common.ts]. *)
Record VerifyWebhookSignatureOptions : Type := mkVerifyOptions {
  payload : string;
  signature : string;
  timestamp : string;
  secret : string;
  tolerance : option Z
}.

Record WebhookVerificationResult : Type := mkVerificationResult {
  valid : bool;
  error : option string
}.

(** The uses a verifier makes of the platform's cryptography, in order:
    an HMAC-SHA256 computation (key, message), Node's
    [crypto.timingSafeEqual] on two buffers, or the plain [===] the Web
    Crypto variant compares with. *)
Inductive CryptoCall : Type :=
| HmacSha256 : string -> string -> CryptoCall
| TimingSafeEqual : string -> string -> CryptoCall
| StrictEquals : string -> string -> CryptoCall.

(** Lower-case hexadecimal, two digits per byte: [digest('hex')], and
    [b.toString(16).padStart(2, '0')] joined. *)
Definition hexDigit (n : N) : ascii :=
  match n with
  | 0%N => "0" | 1%N => "1" | 2%N => "2" | 3%N => "3" | 4%N => "4"
  | 5%N => "5" | 6%N => "6" | 7%N => "7" | 8%N => "8" | 9%N => "9"
  | 10%N => "a" | 11%N => "b" | 12%N => "c" | 13%N => "d" | 14%N => "e"
  | _ => "f"
  end%char.

Fixpoint hex (bytes : list Byte.byte) : string :=
  match bytes with
  | [] => EmptyString
  | b :: rest =>
      let n := Byte.to_N b in
      String (hexDigit (n / 16)) (String (hexDigit (n mod 16)) (hex rest))
  end.

Section Crypto.
(** The platform's HMAC-SHA256 primitive: key, message, raw digest. *)
Variable hmac : string -> string -> list Byte.byte.

(** [Math.floor(Date.now() / 1000)] at the time of the call. *)
Variable now : Z.

(** [verifyWithNodeCrypto]: [timingSafeEqual] throws a [RangeError] on
    buffers of different byte length, which the [catch] turns into a
    reason. *)
Definition verifyWithNodeCrypto (signedPayload receivedSignature
    secret : string) : WebhookVerificationResult * list CryptoCall :=
  let expectedSignature := hex (hmac secret signedPayload) in
  let calls :=
    [HmacSha256 secret signedPayload;
     TimingSafeEqual receivedSignature expectedSignature] in
  if negb (Nat.eqb (String.length receivedSignature)
             (String.length expectedSignature))
  then
    ({| valid := false;
        error :=
          Some ("Signature verification failed: "
                ++ "Input buffers must have the same byte length") |},
     calls)
  else
    ({| valid := String.eqb receivedSignature expectedSignature;
        error := None |},
     calls).

(** [verifyWebhookSignatureWithReason(options)] *)
Definition verifyWebhookSignatureWithReason
    (options : VerifyWebhookSignatureOptions)
    : WebhookVerificationResult * list CryptoCall :=
  let tolerance := nullish (tolerance options) 300 in
  if (negb (truthy (payload options)) || negb (truthy (signature options))
      || negb (truthy (timestamp options))
      || negb (truthy (secret options)))%bool
  then
    ({| valid := false;
        error :=
          Some "Missing required parameters for signature verification" |},
     [])
  else
    match parseInt (timestamp options) with
    | NaN =>
        ({| valid := false; error := Some "Invalid timestamp format" |}, [])
    | Int webhookTimestamp =>
        if Z.abs (now - webhookTimestamp) >? tolerance then
          ({| valid := false;
              error :=
                Some ("Webhook timestamp is outside tolerance ("
                      ++ toString tolerance ++ "s)") |}, [])
        else
          match split "="%char (signature options) with
          | [version; receivedSignature] =>
              if negb (String.eqb version "v1") then
                ({| valid := false;
                    error :=
                      Some ("Unknown signature version: " ++ version) |},
                 [])
              else
                let signedPayload :=
                  timestamp options ++ "." ++ payload options in
                verifyWithNodeCrypto signedPayload receivedSignature
                  (secret options)
          | _ =>
              ({| valid := false;
                  error := Some "Invalid signature format" |}, [])
          end
    end.

(** [verifyWebhookSignature(options)] *)
Definition verifyWebhookSignature
    (options : VerifyWebhookSignatureOptions) : bool :=
  valid (fst (verifyWebhookSignatureWithReason options)).

(** [verifyWebhookSignatureAsync(options)]: the Web Crypto variant. *)
Definition verifyWebhookSignatureAsync
    (options : VerifyWebhookSignatureOptions)
    : WebhookVerificationResult * list CryptoCall :=
  let tolerance := nullish (tolerance options) 300 in
  if (negb (truthy (payload options)) || negb (truthy (signature options))
      || negb (truthy (timestamp options))
      || negb (truthy (secret options)))%bool
  then
    ({| valid := false;
        error :=
          Some "Missing required parameters for signature verification" |},
     [])
  else
    match parseInt (timestamp options) with
    | NaN =>
        ({| valid := false; error := Some "Invalid timestamp format" |}, [])
    | Int webhookTimestamp =>
        if Z.abs (now - webhookTimestamp) >? tolerance then
          ({| valid := false;
              error :=
                Some ("Webhook timestamp is outside tolerance ("
                      ++ toString tolerance ++ "s)") |}, [])
        else
          match split "="%char (signature options) with
          | [version; receivedSignature] =>
              if negb (String.eqb version "v1") then
                ({| valid := false;
                    error := Some "Invalid signature format" |}, [])
              else
                let signedPayload :=
                  timestamp options ++ "." ++ payload options in
                let expectedSignature :=
                  hex (hmac (secret options) signedPayload) in
                ({| valid :=
                      String.eqb expectedSignature receivedSignature;
                    error := None |},
                 [HmacSha256 (secret options) signedPayload;
                  StrictEquals expectedSignature receivedSignature])
          | _ =>
              ({| valid := false;
                  error := Some "Invalid signature format" |}, [])
          end
    end.

(** [generateTestSignature(payload, secret, timestamp?)]: the pair
    [{signature, timestamp}]. *)
Definition generateTestSignature (payload secret : string)
    (timestamp : option Z) : string * string :=
  let ts := nullish timestamp now in
  let signedPayload := toString ts ++ "." ++ payload in
  let signature := hex (hmac secret signedPayload) in
  ("v1=" ++ signature, toString ts).

End Crypto.

End Webhooks.

(** ** [src/utils/request.ts]: what is sent *)

Module RequestBuild.
Import JS Errors Transport.

(** [s.replace(/\/$/, '')]: one slash at the very end is removed. *)
Fixpoint stripTrailingSlash (s : string) : string :=
  match s with
  | EmptyString => EmptyString
  | String c r =>
      match r with
      | EmptyString => if Ascii.eqb c "/" then EmptyString else s
      | String _ _ => String c (stripTrailingSlash r)
      end
  end.

(** [path.startsWith('/') ? path : `/${path}`] *)
Definition normalizedPath (path : string) : string :=
  if prefix "/" path then path else "/" ++ path.

(** The [fullUrl] of [buildUrl], the string handed to [new URL]. *)
Definition fullUrl (baseUrl path : string) : string :=
  stripTrailingSlash baseUrl ++ normalizedPath path.

(** A [Record<string, string>]: keys in insertion order, compared exactly. *)
Definition JsObject : Type := list (string * string).

(** [o[k]] *)
Definition getProp (k : string) (o : JsObject) : option string :=
  match find (fun kv => String.eqb (fst kv) k) o with
  | Some kv => Some (snd kv)
  | None => None
  end.

(** [o[k] = v]: an existing key keeps its place and takes the new value, a
    new key goes last. *)
Fixpoint setProp (k v : string) (o : JsObject) : JsObject :=
  match o with
  | [] => [(k, v)]
  | (k', v') :: rest =>
      if String.eqb k' k then (k', v) :: rest
      else (k', v') :: setProp k v rest
  end.

(** [{ ...o, ...ext }] *)
Definition spread (o ext : JsObject) : JsObject :=
  fold_left (fun acc kv => setProp (fst kv) (snd kv) acc) ext o.

(** The [requestHeaders] of [request]; a missing per-call [headers] spreads
    nothing. *)
Definition requestHeaders (apiKey : string) (rt : ResponseType)
    (customHeaders : JsObject) (headers : option JsObject) : JsObject :=
  spread
    (spread
       [("Authorization", "Bearer " ++ apiKey);
        ("Content-Type", "application/json");
        ("Accept",
         match rt with json => "application/json" | _ => "*/*" end)]
       customHeaders)
    (nullish headers []).

(** The status each class of the hierarchy passes to [super], and the
    [name] it assigns; [HisabError] itself takes the status it is given. *)
Definition classStatus (c : ErrorClass) : option Z :=
  match c with
  | HisabErrorBase => None
  | ValidationError => Some 400
  | AuthenticationError => Some 401
  | ForbiddenError => Some 403
  | NotFoundError => Some 404
  | RateLimitError => Some 429
  | NetworkError => Some 0
  | TimeoutError => Some 0
  end.

Definition className (c : ErrorClass) : string :=
  match c with
  | HisabErrorBase => "HisabError"
  | ValidationError => "ValidationError"
  | AuthenticationError => "AuthenticationError"
  | ForbiddenError => "ForbiddenError"
  | NotFoundError => "NotFoundError"
  | RateLimitError => "RateLimitError"
  | NetworkError => "NetworkError"
  | TimeoutError => "TimeoutError"
  end.

(** An error object as the constructors of the hierarchy make them: the
    name and the status are those of the class, a generic [HisabError] has
    none of the five statuses with a class of their own, and [retryAfter] is
    present on a [RateLimitError] and nowhere else. *)
Definition wellFormed (e : HisabError) : Prop :=
  name e = className (class e) /\
  (forall s, classStatus (class e) = Some s -> status e = s) /\
  (class e = HisabErrorBase ->
   status e <> 400 /\ status e <> 401 /\ status e <> 403 /\
   status e <> 404 /\ status e <> 429) /\
  (retryAfter e <> None <-> class e = RateLimitError).

End RequestBuild.

(** ** [src/utils/pagination.ts]: the derived operations *)

Module Derived.
Import JS Errors Transport Pagination.

Section Operations.
Context {T : Type}.
Variable get : Z -> Z -> Thrown + Answer T.

(** [first()]: [for await (const item of this) return item; return null]. *)
Definition first (fuel : nat) (w : World)
    : option ((Thrown + option T) * World) :=
  match next get fuel Fresh w with
  | None => None
  | Some (Yield item, _, w') => Some (inr (Some item), w')
  | Some (Done, _, w') => Some (inr None, w')
  | Some (Throws e, _, w') => Some (inl e, w')
  end.

(** [count()]: one request for page 1 of size 1, of whose answer
    [response.meta.pagination.total] is read; the cursor fields are not
    touched. *)
Definition count (w : World) : (Thrown + Z) * World :=
  let w' := logRequest w 1 1 in
  match get 1 1 with
  | inl e => (inl e, w')
  | inr (Unreadable message) =>
      (inl (ThrowRaw (typeError (message "total"))), w')
  | inr (NotIterable pg _) => (inr (total pg), w')
  | inr (Envelope response) => (inr (total (pagination response)), w')
  end.

(** [exists()] *)
Definition exists_ (w : World) : (Thrown + bool) * World :=
  match count w with
  | (inl e, w') => (inl e, w')
  | (inr n, w') => (inr (n >? 0), w')
  end.

(** One [next()] of the generator made by [filter(predicate)]: the inner
    traversal is advanced until an item passes.  The state of the generator
    is that of the inner one; [pulls] bounds the items skipped. *)
Fixpoint filterNext (predicate : T -> bool) (pulls fuel : nat)
    (g : Generator) (w : World) : option (Step * Generator * World) :=
  match pulls with
  | O => None
  | S pulls' =>
      match next get fuel g w with
      | None => None
      | Some (Yield item, g', w') =>
          if predicate item then Some (Yield item, g', w')
          else filterNext predicate pulls' fuel g' w'
      | Some (Done, _, w') => Some (Done, Finished, w')
      | Some (Throws e, _, w') => Some (Throws e, Finished, w')
      end
  end.

(** [forEach(callback)]: the callback works on a state of the caller's and
    may throw; each call is awaited before the next item is asked for. *)
Fixpoint forEachLoop {St : Type} (callback : St -> T -> Thrown + St)
    (n fuel : nat) (g : Generator) (w : World) (s : St)
    : option ((Thrown + St) * World) :=
  match n with
  | O => None
  | S n' =>
      match next get fuel g w with
      | None => None
      | Some (Yield item, g', w') =>
          match callback s item with
          | inl e => Some (inl e, w')
          | inr s' => forEachLoop callback n' fuel g' w' s'
          end
      | Some (Done, _, w') => Some (inr s, w')
      | Some (Throws e, _, w') => Some (inl e, w')
      end
  end.

Definition forEach {St : Type} (callback : St -> T -> Thrown + St)
    (n fuel : nat) (w : World) (s : St) : option ((Thrown + St) * World) :=
  forEachLoop callback n fuel Fresh w s.

End Operations.

Section Mapping.
Context {T U : Type}.
Variable get : Z -> Z -> Thrown + Answer T.

(** One [next()] of the generator made by [map(mapper)]. *)
Definition mapNext (mapper : T -> U) (fuel : nat) (g : Generator (T := T))
    (w : World) : option (Step (T := U) * Generator (T := T) * World) :=
  match next get fuel g w with
  | None => None
  | Some (Yield item, g', w') => Some (Yield (mapper item), g', w')
  | Some (Done, _, w') => Some (Done, Finished, w')
  | Some (Throws e, _, w') => Some (Throws e, Finished, w')
  end.

(** A consumer's [for await (const x of gen) acc.push(x)] over a generator
    whose [next()] is [nextOf]. *)
Fixpoint collect
    (nextOf : Generator (T := T) -> World ->
              option (Step (T := U) * Generator (T := T) * World))
    (n : nat) (g : Generator (T := T)) (w : World) (acc : list U)
    : option ((Thrown + list U) * World) :=
  match n with
  | O => None
  | S n' =>
      match nextOf g w with
      | None => None
      | Some (Yield item, g', w') =>
          collect nextOf n' g' w' (acc ++ [item])%list
      | Some (Done, _, w') => Some (inr acc, w')
      | Some (Throws e, _, w') => Some (inl e, w')
      end
  end.

(** What a callback folded over the items gives, up to its first failure. *)
Fixpoint foldCallback {St : Type} (callback : St -> T -> Thrown + St) (s : St)
    (items : list T) : Thrown + St :=
  match items with
  | [] => inr s
  | item :: rest =>
      match callback s item with
      | inl e => inl e
      | inr s' => foldCallback callback s' rest
      end
  end.

End Mapping.

End Derived.

(** ** [src/utils/webhooks.ts]: event predicates *)

Module Events.

(** [WebhookEvent] of [src/types], without its payload. *)
Record WebhookEvent : Type := mkWebhookEvent {
  event : string;
  organization_id : string;
  created_at : string
}.

(** [event.event.startsWith('invoice.')] *)
Definition isInvoiceEvent (e : WebhookEvent) : bool :=
  prefix "invoice." (event e).

(** [event.event.startsWith('customer.')] *)
Definition isCustomerEvent (e : WebhookEvent) : bool :=
  prefix "customer." (event e).

End Events.

(* ===================================================================== *)
(** * Theorems                                                            *)
(* ===================================================================== *)

(** ** Facts about the built-ins *)

Section JSFacts.
Import JS.

Lemma digitsPrefix_string_of_uint (d : uint) :
  digitsPrefix (NilEmpty.string_of_uint d) = d.
Proof.
  induction d; simpl; try rewrite IHd; reflexivity.
Qed.

Lemma parseDigits_string_of_uint (sign : Z) (d : uint) :
  d <> Nil ->
  parseDigits sign (NilEmpty.string_of_uint d) = Int (sign * Z.of_uint d).
Proof.
  intros Hd. unfold parseDigits. rewrite digitsPrefix_string_of_uint.
  destruct d; congruence.
Qed.

Lemma parseInt_string_of_uint (d : uint) :
  d <> Nil ->
  parseInt (NilEmpty.string_of_uint d) = Int (Z.of_uint d).
Proof.
  intros Hd.
  pose proof (parseDigits_string_of_uint 1 d Hd) as Hp.
  rewrite Z.mul_1_l in Hp.
  destruct d; [congruence | ..]; exact Hp.
Qed.

(** [parseInt(String(z), 10) === z] for every integer [z]. *)
Lemma parseInt_toString (z : Z) : parseInt (toString z) = Int z.
Proof.
  destruct z as [|p|p].
  - reflexivity.
  - unfold toString; simpl.
    rewrite parseInt_string_of_uint by apply Unsigned.to_uint_nonnil.
    unfold Z.of_uint. rewrite Unsigned.of_to. reflexivity.
  - unfold toString; simpl.
    change (parseInt (String "-" (NilEmpty.string_of_uint (Pos.to_uint p))))
      with (parseDigits (-1) (NilEmpty.string_of_uint (Pos.to_uint p))).
    rewrite parseDigits_string_of_uint by apply Unsigned.to_uint_nonnil.
    unfold Z.of_uint. rewrite Unsigned.of_to. reflexivity.
Qed.

(** [String(z)] is never the empty string. *)
Lemma truthy_toString (z : Z) : truthy (toString z) = true.
Proof.
  destruct z as [|p|p]; try reflexivity.
  unfold toString; simpl.
  pose proof (Unsigned.to_uint_nonnil p) as Hn.
  destruct (Pos.to_uint p); try congruence; reflexivity.
Qed.

(** A string without the separator is a single part. *)
Lemma split_without_sep (sep : ascii) (s : string) :
  includes (String sep EmptyString) s = false -> split sep s = [s].
Proof.
  induction s as [|c r IH]; intros H.
  - reflexivity.
  - simpl in H. simpl.
    destruct (Ascii.eqb_spec c sep) as [->|Hne].
    + exfalso. destruct (ascii_dec sep sep) as [_|Hc]; [| contradiction].
      destruct r; discriminate.
    + apply orb_false_iff in H as [_ H2]. rewrite (IH H2). reflexivity.
Qed.

End JSFacts.

(** ** Error taxonomy *)

Section ErrorsFacts.
Import JS Errors.

(** Every constructor of the hierarchy fixes the status of its class. *)
Lemma fromResponse_status (st : Z) (body : ErrorBody)
    (h : option Headers) :
  status (fromResponse st body h) = st.
Proof.
  unfold fromResponse.
  repeat match goal with
         | |- context [Z.eqb st ?k] =>
             destruct (Z.eqb_spec st k); [subst; reflexivity |]
         end.
  reflexivity.
Qed.

(** C1. For each status in 400, 401, 403, 404 and 429 the factory returns
    the variant of that status (ValidationError, AuthenticationError,
    ForbiddenError, NotFoundError, RateLimitError), for every body and
    with or without headers, and the [status] field is the input status.
    The [retryAfter] of a RateLimitError is [parseInt] of the
    [Retry-After] header, and 60 when the header is missing or no headers
    are passed.  Any other status gives the generic HisabError, again with
    the input status. *)
Theorem fromResponse_variant (st : Z) (body : ErrorBody)
    (h : option Headers) :
  let e := fromResponse st body h in
  status e = st /\
  (st = 400 -> class e = ValidationError) /\
  (st = 401 -> class e = AuthenticationError) /\
  (st = 403 -> class e = ForbiddenError) /\
  (st = 404 -> class e = NotFoundError) /\
  (st = 429 ->
     class e = RateLimitError /\
     retryAfter e =
     Some match h with
          | Some hs =>
              match get hs "Retry-After" with
              | Some v => parseInt v
              | None => Int 60
              end
          | None => Int 60
          end) /\
  (st <> 400 -> st <> 401 -> st <> 403 -> st <> 404 -> st <> 429 ->
     class e = HisabErrorBase).
Proof.
  cbv zeta. split; [apply fromResponse_status |].
  repeat split; intros; subst; try reflexivity.
  - unfold fromResponse; simpl.
    destruct h as [hs|]; [| reflexivity].
    destruct (get hs "Retry-After"); reflexivity.
  - unfold fromResponse.
    repeat match goal with
           | |- context [Z.eqb st ?k] =>
               destruct (Z.eqb_spec st k); [contradiction |]
           end.
    reflexivity.
Qed.

(** The statement above at a 429 response carrying [Retry-After: 30], and
    at a 429 response without the header. *)
Lemma fromResponse_variant_witness :
  (class (fromResponse 429 {| error := None |}
            (Some [("Retry-After", "30")])) = RateLimitError /\
   retryAfter (fromResponse 429 {| error := None |}
                 (Some [("Retry-After", "30")])) = Some (Int 30)) /\
  retryAfter (fromResponse 429 {| error := None |} (Some [])) =
    Some (Int 60).
Proof.
  split.
  - exact (proj1 (proj2 (proj2 (proj2 (proj2 (proj2
             (fromResponse_variant 429 {| error := None |}
                (Some [("Retry-After", "30")])))))))
             eq_refl).
  - exact (proj2 (proj1 (proj2 (proj2 (proj2 (proj2 (proj2
             (fromResponse_variant 429 {| error := None |}
                (Some []))))))) eq_refl)).
Defined.

(** C8, as stated, fails: a 401 body whose error object has no message
    gives an AuthenticationError whose message is not the default of the
    AuthenticationError constructor. *)
Lemma fromResponse_401_default_message_counterexample :
  let body :=
    {| error := Some {| info_code := Some "UNAUTHORIZED";
                        info_message := None;
                        info_details := None |} |} in
  class (fromResponse 401 body None) = AuthenticationError /\
  message (fromResponse 401 body None) <> "Invalid or missing API key" /\
  message (fromResponse 401 body None) = "An unknown error occurred".
Proof.
  cbv zeta. repeat split. discriminate.
Qed.

(** C8, amended. When the body carries no error message, the factory
    gives the message "An unknown error occurred" for every status, 401,
    403 and 404 included, because it always passes a message to the
    variant's constructor.  The defaults "Invalid or missing API key",
    "Insufficient permissions" and "Resource not found" are those of the
    constructors, used when a variant is built without a message. *)
Theorem fromResponse_missing_message (st : Z) (body : ErrorBody)
    (h : option Headers) :
  optChain body info_message = None ->
  message (fromResponse st body h) = "An unknown error occurred" /\
  (forall c r, message (new_AuthenticationError None c r) =
               "Invalid or missing API key") /\
  (forall c r, message (new_ForbiddenError None c r) =
               "Insufficient permissions") /\
  (forall c r, message (new_NotFoundError None c r) =
               "Resource not found").
Proof.
  intros Hm. split; [| repeat split].
  unfold fromResponse. rewrite Hm. simpl.
  repeat match goal with
         | |- context [Z.eqb st ?k] =>
             destruct (Z.eqb st k); [reflexivity |]
         end.
  reflexivity.
Qed.

Lemma fromResponse_missing_message_witness :
  message (fromResponse 403 {| error := None |} None) =
    "An unknown error occurred".
Proof.
  exact (proj1 (fromResponse_missing_message 403 {| error := None |} None
                  eq_refl)).
Defined.

End ErrorsFacts.

(** ** Transport core *)

Section TransportFacts.
Import JS Errors Transport.

Lemma fetches_app (r1 r2 : list Event) :
  List.length (filter isFetch (r1 ++ r2)) =
  (List.length (filter isFetch r1) + List.length (filter isFetch r2))%nat.
Proof.
  rewrite filter_app, length_app. reflexivity.
Qed.

(** A response with a 4xx status other than 429 whose body is not the
    JSON value [null] ends [request] at once: one transport attempt, no
    sleep, and the error thrown is the one the factory builds from the
    response, whatever the retry budget (a non-negative count) is. *)
Lemma request_client_error_non_null_body {T : Type}
    (c : HttpClient) (config : RequestConfig)
    (transport : Z -> Outcome T) (response : Response T)
    (body : ErrorBody) :
  0 <= nullish (cfg_retries config) (maxRetries c) ->
  transport 1 = inr response ->
  400 <= resp_status response < 500 ->
  resp_status response <> 429 ->
  safeParseJson response = JsonValue body ->
  let r := request c config transport in
  result r =
    inl (ThrowHisab
           (fromResponse (resp_status response) body
              (Some (headers response)))) /\
  events r = [Fetch 1] /\
  fetches r = 1%nat.
Proof.
  intros Hbudget Htr Hst Hne Hbody. cbv zeta. unfold request, fetches.
  set (maxAttempts := nullish (cfg_retries config) (maxRetries c) + 1).
  destruct (Z.to_nat maxAttempts) as [|fuel] eqn:Hfuel; [lia |].
  cbn [attempts].
  replace (1 <=? maxAttempts) with true by (symmetry; apply Z.leb_le; lia).
  cbn [negb]. rewrite Htr.
  replace (ok response) with false
    by (unfold ok; symmetry; apply andb_false_iff; right;
        apply Z.leb_gt; lia).
  cbn [negb]. rewrite Hbody. cbn [fromResponseUnchecked].
  replace (400 <=? resp_status response) with true
    by (symmetry; apply Z.leb_le; lia).
  replace (resp_status response <? 500) with true
    by (symmetry; apply Z.ltb_lt; lia).
  replace (resp_status response =? 429) with false
    by (symmetry; apply Z.eqb_neq; lia).
  cbn. repeat split.
Qed.

(** C2. A 404 response is not always final.  When its body is the JSON
    text [null], [safeParseJson] returns [null], [fromResponse] throws a
    [TypeError] on [body.error] inside the [try] block, and the [catch]
    block takes it for a failed transport call: under the default budget of
    three retries the request is sent four times, with a backoff sleep
    after each of the first three, and the caller gets the raw [TypeError].
    With no retry it is sent once, and the caller still gets the
    [TypeError], not a NotFoundError.  The same response with the body
    [{}] ends the call at the first attempt with the NotFoundError of the
    factory. *)
Theorem request_client_error_null_body_retried :
  let response (body : JsonBody) : Response unit :=
    {| resp_status := 404; statusText := "Not Found"; headers := [];
       errorJson := Some body; read := fun _ => inr tt |} in
  let c (retries : Z) :=
    {| apiKey := "k"; timeout := 30000; maxRetries := retries;
       lastRateLimit := None |} in
  let config := {| cfg_timeout := None; cfg_retries := None;
                   responseType := None |} in
  let null := request (c 3) config (fun _ => inr (response JsonNull)) in
  let null0 := request (c 0) config (fun _ => inr (response JsonNull)) in
  let empty :=
    request (c 3) config
      (fun _ => inr (response (JsonValue {| error := None |}))) in
  (result null = inl (ThrowRaw nullBodyError) /\
   events null =
     [Fetch 1; SleepBackoff 1; Fetch 2; SleepBackoff 2; Fetch 3;
      SleepBackoff 3; Fetch 4] /\
   fetches null = 4%nat) /\
  (result null0 = inl (ThrowRaw nullBodyError) /\
   events null0 = [Fetch 1]) /\
  (result empty =
     inl (ThrowHisab
            (fromResponse 404 {| error := None |} (Some []))) /\
   class (fromResponse 404 {| error := None |} (Some [])) = NotFoundError /\
   events empty = [Fetch 1]).
Proof.
  cbv zeta. repeat split.
Qed.

End TransportFacts.

Section TransportFailureFacts.
Import JS Errors Transport.

Lemma instanceOf_fromResponse_RateLimitError (st : Z) (body : ErrorBody)
    (h : option Headers) :
  instanceOf (fromResponse st body h) RateLimitError = (st =? 429).
Proof.
  unfold fromResponse.
  repeat match goal with
         | |- context [Z.eqb st ?k] =>
             destruct (Z.eqb_spec st k); [subst; reflexivity |]
         end.
  reflexivity.
Qed.

(** Without a budget for a single attempt the loop body never runs: nothing
    is sent, and the fallback NetworkError after the loop is thrown. *)
Lemma request_without_attempts {T : Type} (c : HttpClient)
    (config : RequestConfig) (transport : Z -> Outcome T) :
  nullish (cfg_retries config) (maxRetries c) < 0 ->
  let r := request c config transport in
  events r = [] /\
  result r =
    inl (ThrowHisab
           (new_NetworkError (Some "Request failed after all retries") None)).
Proof.
  intros Hneg. cbv zeta. unfold request.
  replace (Z.to_nat (nullish (cfg_retries config) (maxRetries c) + 1))
    with 0%nat by lia.
  split; reflexivity.
Qed.





End TransportFailureFacts.

Section RateLimitFacts.
Import JS Errors Transport.

Lemma fetched_app (r1 r2 : list Event) :
  fetched (r1 ++ r2) = (fetched r1 ++ fetched r2)%list.
Proof.
  unfold fetched. apply flat_map_app.
Qed.

(** A header that is missing, or present with an empty value, leaves the
    snapshot as it was. *)
Lemma parseRateLimitHeaders_missing (h : Headers)
    (prev : option RateLimitInfo) :
  get h "X-RateLimit-Limit" = None \/
  get h "X-RateLimit-Remaining" = None \/
  get h "X-RateLimit-Reset" = None \/
  get h "X-RateLimit-Limit" = Some "" \/
  get h "X-RateLimit-Remaining" = Some "" \/
  get h "X-RateLimit-Reset" = Some "" ->
  parseRateLimitHeaders h prev = prev.
Proof.
  unfold parseRateLimitHeaders.
  intros [H | [H | [H | [H | [H | H]]]]]; rewrite H;
    repeat match goal with
           | |- context [match ?x with Some _ => _ | None => _ end] =>
               destruct x
           end;
    cbn [truthy andb]; rewrite ?andb_false_r; reflexivity.
Qed.

(** Three headers with non-empty values replace the snapshot by what
    [parseInt] makes of them. *)
Lemma parseRateLimitHeaders_present (h : Headers)
    (prev : option RateLimitInfo) (l r s : string) :
  get h "X-RateLimit-Limit" = Some l ->
  get h "X-RateLimit-Remaining" = Some r ->
  get h "X-RateLimit-Reset" = Some s ->
  l <> "" -> r <> "" -> s <> "" ->
  parseRateLimitHeaders h prev =
  Some {| limit := parseInt l; remaining := parseInt r;
          reset := parseInt s |}.
Proof.
  intros Hl Hr Hs Nl Nr Ns. unfold parseRateLimitHeaders.
  rewrite Hl, Hr, Hs.
  destruct l; [contradiction |].
  destruct r; [contradiction |].
  destruct s; [contradiction |].
  reflexivity.
Qed.

(** Every response an attempt receives goes through
    [parseRateLimitHeaders], whatever its status and whatever the attempt
    does next; a rejected attempt leaves the snapshot alone. *)
Lemma attempts_snapshot {T : Type} (transport : Z -> Outcome T)
    (maxAttempts requestTimeout : Z) (rt : ResponseType) :
  forall (fuel : nat) (attempt : Z) (lastError : option Thrown)
         (c : HttpClient) (log : list Event),
    let r :=
      attempts transport maxAttempts requestTimeout rt fuel attempt
        lastError c log in
    exists suffix : list Event,
      events r = (log ++ suffix)%list /\
      lastRateLimit (client_after r) =
      snapshotAfter (map transport (fetched suffix)) (lastRateLimit c).
Proof.
  induction fuel as [|fuel IH]; intros attempt lastError c log; cbv zeta.
  - exists []. simpl. rewrite app_nil_r. auto.
  - cbn [attempts].
    destruct (attempt <=? maxAttempts); cbn [negb];
      [| exists []; simpl; rewrite app_nil_r; auto].
    assert (Hrec :
      forall lastError' c' sleep,
        lastRateLimit c' =
          snapshotAfter [transport attempt] (lastRateLimit c) ->
        fetched [sleep] = [] ->
        exists suffix : list Event,
          events (attempts transport maxAttempts requestTimeout rt fuel
                    (attempt + 1) lastError' c'
                    ((log ++ [Fetch attempt]) ++ [sleep])%list) =
            (log ++ suffix)%list /\
          lastRateLimit
            (client_after
               (attempts transport maxAttempts requestTimeout rt fuel
                  (attempt + 1) lastError' c'
                  ((log ++ [Fetch attempt]) ++ [sleep])%list)) =
          snapshotAfter (map transport (fetched suffix)) (lastRateLimit c)).
    { intros lastError' c' sleep Hc Hs.
      destruct (IH (attempt + 1) lastError' c'
                  ((log ++ [Fetch attempt]) ++ [sleep])%list)
        as (suffix & He & Hl).
      exists ([Fetch attempt] ++ [sleep] ++ suffix)%list. split.
      - rewrite He, <- !app_assoc. reflexivity.
      - rewrite Hl, Hc, !fetched_app, Hs. reflexivity. }
    assert (Hstop :
      forall (res : Thrown + T) c',
        lastRateLimit c' =
          snapshotAfter [transport attempt] (lastRateLimit c) ->
        exists suffix : list Event,
          events {| result := res; client_after := c';
                    events := (log ++ [Fetch attempt])%list |} =
            (log ++ suffix)%list /\
          lastRateLimit
            (client_after {| result := res; client_after := c';
                             events := (log ++ [Fetch attempt])%list |}) =
          snapshotAfter (map transport (fetched suffix)) (lastRateLimit c)).
    { intros res c' Hc. exists [Fetch attempt]. split; [reflexivity |].
      exact Hc. }
    destruct (transport attempt) as [e | response] eqn:Htr.
    + destruct (attempt <? maxAttempts);
        [apply Hrec | apply Hstop]; reflexivity.
    + repeat match goal with
             | |- context [safeParseJson ?x] =>
                 destruct (safeParseJson x); cbn [fromResponseUnchecked]
             | |- context [if ?b then _ else _] => destruct b
             | |- context [match read ?x ?y with _ => _ end] =>
                 destruct (read x y)
             end;
        solve [apply Hrec; reflexivity | apply Hstop; reflexivity].
Qed.

(** C9, as stated, fails: a header that is present with an empty value
    counts as absent.  A response that carries the three headers, the first
    of them empty, leaves the snapshot of a new client at [null], and leaves
    a snapshot that was there as it was. *)
Lemma rateLimit_empty_header_counterexample :
  let h := [("X-RateLimit-Limit", ""); ("X-RateLimit-Remaining", "45");
            ("X-RateLimit-Reset", "1700000000")] in
  let response : Response unit :=
    {| resp_status := 200; statusText := "OK"; headers := h;
       errorJson := None; read := fun _ => inr tt |} in
  let c := {| apiKey := "k"; timeout := 30000; maxRetries := 3;
              lastRateLimit := None |} in
  let config := {| cfg_timeout := None; cfg_retries := None;
                   responseType := None |} in
  let prev := Some {| limit := Int 100; remaining := Int 99;
                      reset := Int 1600000000 |} in
  (get h "X-RateLimit-Limit" = Some "" /\
   get h "X-RateLimit-Remaining" = Some "45" /\
   get h "X-RateLimit-Reset" = Some "1700000000") /\
  new_HttpClient {| opt_apiKey := "k"; opt_timeout := None;
                    opt_retries := None |} = inr c /\
  lastRateLimit (client_after (request c config (fun _ => inr response))) =
    None /\
  parseRateLimitHeaders h prev = prev /\
  ~ (forall (h : Headers) (prev : option RateLimitInfo) (l r s : string),
       get h "X-RateLimit-Limit" = Some l ->
       get h "X-RateLimit-Remaining" = Some r ->
       get h "X-RateLimit-Reset" = Some s ->
       parseRateLimitHeaders h prev =
       Some {| limit := parseInt l; remaining := parseInt r;
               reset := parseInt s |}).
Proof.
  cbv zeta. repeat split.
  intros H.
  specialize (H [("X-RateLimit-Limit", ""); ("X-RateLimit-Remaining", "45");
                 ("X-RateLimit-Reset", "1700000000")]
                None "" "45" "1700000000" eq_refl eq_refl eq_refl).
  discriminate H.
Qed.

(** C9, amended.  The snapshot of a new client is [null], and a client is
    made for every non-empty API key.  A response whose three rate-limit
    headers are present with non-empty values replaces the snapshot,
    whatever it was, by exactly what [parseInt] makes of the three values:
    the three integers, when the values are integers.  A response that
    lacks one of the three headers, or carries one with an empty value,
    leaves the snapshot as it was.  [request] applies this to every
    response it receives, before it looks at the status: the snapshot after
    a call is the one before it, updated by the responses of the attempts
    in order. *)
Theorem rateLimit_snapshot :
  (forall o,
     opt_apiKey o <> "" ->
     exists c, new_HttpClient o = inr c /\ lastRateLimit c = None) /\
  (forall o c, new_HttpClient o = inr c -> lastRateLimit c = None) /\
  (forall h prev l r s,
     get h "X-RateLimit-Limit" = Some l ->
     get h "X-RateLimit-Remaining" = Some r ->
     get h "X-RateLimit-Reset" = Some s ->
     l <> "" -> r <> "" -> s <> "" ->
     parseRateLimitHeaders h prev =
     Some {| limit := parseInt l; remaining := parseInt r;
             reset := parseInt s |}) /\
  (forall h prev zl zr zs,
     get h "X-RateLimit-Limit" = Some (toString zl) ->
     get h "X-RateLimit-Remaining" = Some (toString zr) ->
     get h "X-RateLimit-Reset" = Some (toString zs) ->
     parseRateLimitHeaders h prev =
     Some {| limit := Int zl; remaining := Int zr; reset := Int zs |}) /\
  (forall h prev,
     get h "X-RateLimit-Limit" = None \/
     get h "X-RateLimit-Remaining" = None \/
     get h "X-RateLimit-Reset" = None \/
     get h "X-RateLimit-Limit" = Some "" \/
     get h "X-RateLimit-Remaining" = Some "" \/
     get h "X-RateLimit-Reset" = Some "" ->
     parseRateLimitHeaders h prev = prev) /\
  (forall (T : Type) (c : HttpClient) (config : RequestConfig)
          (transport : Z -> Outcome T),
     let r := request c config transport in
     lastRateLimit (client_after r) =
     snapshotAfter (map transport (fetched (events r))) (lastRateLimit c)).
Proof.
  assert (Hnonempty : forall z, toString z <> "").
  { intros z E. pose proof (truthy_toString z) as Ht.
    rewrite E in Ht. discriminate Ht. }
  split; [| split; [| split; [| split; [| split]]]].
  - intros o Hkey. unfold new_HttpClient.
    destruct (opt_apiKey o) as [|ch rest]; [contradiction |].
    cbn [truthy negb]. eexists. split; reflexivity.
  - intros o c. unfold new_HttpClient.
    destruct (negb (truthy (opt_apiKey o))); [discriminate |].
    intros [= <-]. reflexivity.
  - exact parseRateLimitHeaders_present.
  - intros h prev zl zr zs Hl Hr Hs.
    rewrite (parseRateLimitHeaders_present h prev _ _ _ Hl Hr Hs)
      by apply Hnonempty.
    rewrite !parseInt_toString. reflexivity.
  - exact parseRateLimitHeaders_missing.
  - intros T c config transport. cbv zeta. unfold request.
    destruct (attempts_snapshot transport
                (nullish (cfg_retries config) (maxRetries c) + 1)
                (nullish (cfg_timeout config) (timeout c))
                (nullish (responseType config) json)
                (Z.to_nat (nullish (cfg_retries config) (maxRetries c) + 1))
                1 None c [])
      as (suffix & He & Hl).
    simpl in He. rewrite He. exact Hl.
Qed.

(** The statement above for the client the constructor makes for the key
    ["k"], on a 500 response carrying limit 100, remaining 45 and reset
    1700000000, followed by a 200 response without the headers: the
    snapshot starts as [null] and reads back exactly the three values. *)
Lemma rateLimit_snapshot_witness :
  let h := [("X-RateLimit-Limit", "100"); ("X-RateLimit-Remaining", "45");
            ("X-RateLimit-Reset", "1700000000")] in
  let r500 : Response unit :=
    {| resp_status := 500; statusText := ""; headers := h;
       errorJson := None; read := fun _ => inr tt |} in
  let r200 : Response unit :=
    {| resp_status := 200; statusText := "OK"; headers := [];
       errorJson := None; read := fun _ => inr tt |} in
  let o := {| opt_apiKey := "k"; opt_timeout := None;
              opt_retries := None |} in
  let config := {| cfg_timeout := None; cfg_retries := None;
                   responseType := None |} in
  exists c : HttpClient,
    new_HttpClient o = inr c /\
    lastRateLimit c = None /\
    parseRateLimitHeaders h None =
      Some {| limit := Int 100; remaining := Int 45;
              reset := Int 1700000000 |} /\
    lastRateLimit
      (client_after
         (request c config
            (fun k => if k =? 1 then inr r500 else inr r200))) =
    Some {| limit := Int 100; remaining := Int 45;
            reset := Int 1700000000 |}.
Proof.
  intros h r500 r200 o config.
  exists {| apiKey := "k"; timeout := 30000; maxRetries := 3;
            lastRateLimit := None |}.
  split; [reflexivity |].
  split;
    [exact (proj1 (proj2 rateLimit_snapshot) o _ eq_refl) |].
  split.
  - exact (proj1 (proj2 (proj2 rateLimit_snapshot)) h None
             "100" "45" "1700000000" eq_refl eq_refl eq_refl
             ltac:(discriminate) ltac:(discriminate) ltac:(discriminate)).
  - rewrite (proj2 (proj2 (proj2 (proj2 (proj2 rateLimit_snapshot))))
               unit _ config).
    reflexivity.
Defined.

End RateLimitFacts.

(** ** Webhook verifier *)

Section WebhooksFacts.
Import JS Webhooks.

Lemma hexDigit_not_sep (n : N) : hexDigit n <> "="%char.
Proof.
  unfold hexDigit. destruct n as [|p]; [discriminate |].
  repeat (destruct p as [p|p|]; try discriminate).
Qed.

Lemma includes_sep_hex (bytes : list Byte.byte) :
  includes "=" (hex bytes) = false.
Proof.
  induction bytes as [|b rest IH]; [reflexivity |].
  cbn [hex includes prefix].
  destruct (ascii_dec "=" (hexDigit (Byte.to_N b / 16))) as [E|_];
    [symmetry in E; apply hexDigit_not_sep in E; contradiction |].
  destruct (ascii_dec "=" (hexDigit (Byte.to_N b mod 16))) as [E|_];
    [symmetry in E; apply hexDigit_not_sep in E; contradiction |].
  exact IH.
Qed.

(** The signature the signer makes splits into the version and the digest. *)
Lemma split_signature (bytes : list Byte.byte) :
  split "=" ("v1=" ++ hex bytes) = ["v1"; hex bytes].
Proof.
  simpl. rewrite split_without_sep by apply includes_sep_hex. reflexivity.
Qed.

Lemma truthy_nonempty (s : string) : s <> "" -> truthy s = true.
Proof.
  destruct s; [congruence | reflexivity].
Qed.

(** The five checks of the synchronous verifier come in the order missing
    parameters, timestamp parse, freshness, signature format, version; the
    first one that fails gives the reason, and no check that fails lets the
    verifier reach the HMAC computation or the comparison (the list of
    cryptographic calls is empty). *)
Lemma verifyWebhookSignatureWithReason_check_order
    (hmac : string -> string -> list Byte.byte) (now : Z)
    (o : VerifyWebhookSignatureOptions) :
  let tol := nullish (tolerance o) 300 in
  let missing :=
    payload o = "" \/ signature o = "" \/ timestamp o = "" \/ secret o = "" in
  let r := verifyWebhookSignatureWithReason hmac now o in
  let fails reason := r = ({| valid := false; error := Some reason |}, []) in
  (missing ->
   fails "Missing required parameters for signature verification") /\
  (~ missing -> parseInt (timestamp o) = NaN ->
   fails "Invalid timestamp format") /\
  (forall t, ~ missing -> parseInt (timestamp o) = Int t ->
   Z.abs (now - t) > tol ->
   fails ("Webhook timestamp is outside tolerance (" ++ toString tol ++ "s)"))
  /\
  (forall t, ~ missing -> parseInt (timestamp o) = Int t ->
   Z.abs (now - t) <= tol ->
   List.length (split "=" (signature o)) <> 2%nat ->
   fails "Invalid signature format") /\
  (forall t version digest, ~ missing -> parseInt (timestamp o) = Int t ->
   Z.abs (now - t) <= tol ->
   split "=" (signature o) = [version; digest] ->
   version <> "v1" ->
   fails ("Unknown signature version: " ++ version)).
Proof.
  cbv zeta. unfold verifyWebhookSignatureWithReason.
  assert (Hpresent :
    ~ (payload o = "" \/ signature o = "" \/ timestamp o = ""
       \/ secret o = "") ->
    (negb (truthy (payload o)) || negb (truthy (signature o))
     || negb (truthy (timestamp o)) || negb (truthy (secret o)))%bool
    = false).
  { intros Hn.
    rewrite !truthy_nonempty; [reflexivity | tauto ..]. }
  repeat split.
  - intros Hm.
    assert ((negb (truthy (payload o)) || negb (truthy (signature o))
             || negb (truthy (timestamp o)) || negb (truthy (secret o)))%bool
            = true) as ->; [| reflexivity].
    destruct Hm as [H | [H | [H | H]]]; rewrite H; simpl;
      rewrite ?orb_true_r; reflexivity.
  - intros Hn Hp. rewrite (Hpresent Hn), Hp. reflexivity.
  - intros t Hn Hp Hout. rewrite (Hpresent Hn), Hp.
    replace (Z.abs (now - t) >? nullish (tolerance o) 300) with true
      by (symmetry; apply Z.gtb_lt; lia).
    reflexivity.
  - intros t Hn Hp Hin Hlen. rewrite (Hpresent Hn), Hp.
    replace (Z.abs (now - t) >? nullish (tolerance o) 300) with false
      by (symmetry; rewrite Z.gtb_ltb; apply Z.ltb_ge; lia).
    destruct (split "=" (signature o)) as [|a [|b [|c l]]]; simpl in Hlen;
      congruence.
  - intros t version digest Hn Hp Hin Hsplit Hv. rewrite (Hpresent Hn), Hp.
    replace (Z.abs (now - t) >? nullish (tolerance o) 300) with false
      by (symmetry; rewrite Z.gtb_ltb; apply Z.ltb_ge; lia).
    rewrite Hsplit.
    replace (String.eqb version "v1") with false
      by (symmetry; apply String.eqb_neq; exact Hv).
    reflexivity.
Qed.

(** The Web Crypto variant makes the same checks in the same order and stops
    before the HMAC as well, but it has one reason for the last two: a wrong
    version is reported as a format error. *)
Lemma verifyWebhookSignatureAsync_check_order
    (hmac : string -> string -> list Byte.byte) (now : Z)
    (o : VerifyWebhookSignatureOptions) :
  let tol := nullish (tolerance o) 300 in
  let missing :=
    payload o = "" \/ signature o = "" \/ timestamp o = "" \/ secret o = "" in
  let r := verifyWebhookSignatureAsync hmac now o in
  let fails reason := r = ({| valid := false; error := Some reason |}, []) in
  (missing ->
   fails "Missing required parameters for signature verification") /\
  (~ missing -> parseInt (timestamp o) = NaN ->
   fails "Invalid timestamp format") /\
  (forall t, ~ missing -> parseInt (timestamp o) = Int t ->
   Z.abs (now - t) > tol ->
   fails ("Webhook timestamp is outside tolerance (" ++ toString tol ++ "s)"))
  /\
  (forall t, ~ missing -> parseInt (timestamp o) = Int t ->
   Z.abs (now - t) <= tol ->
   List.length (split "=" (signature o)) <> 2%nat ->
   fails "Invalid signature format") /\
  (forall t version digest, ~ missing -> parseInt (timestamp o) = Int t ->
   Z.abs (now - t) <= tol ->
   split "=" (signature o) = [version; digest] ->
   version <> "v1" ->
   fails "Invalid signature format").
Proof.
  cbv zeta. unfold verifyWebhookSignatureAsync.
  assert (Hpresent :
    ~ (payload o = "" \/ signature o = "" \/ timestamp o = ""
       \/ secret o = "") ->
    (negb (truthy (payload o)) || negb (truthy (signature o))
     || negb (truthy (timestamp o)) || negb (truthy (secret o)))%bool
    = false).
  { intros Hn.
    rewrite !truthy_nonempty; [reflexivity | tauto ..]. }
  repeat split.
  - intros Hm.
    assert ((negb (truthy (payload o)) || negb (truthy (signature o))
             || negb (truthy (timestamp o)) || negb (truthy (secret o)))%bool
            = true) as ->; [| reflexivity].
    destruct Hm as [H | [H | [H | H]]]; rewrite H; simpl;
      rewrite ?orb_true_r; reflexivity.
  - intros Hn Hp. rewrite (Hpresent Hn), Hp. reflexivity.
  - intros t Hn Hp Hout. rewrite (Hpresent Hn), Hp.
    replace (Z.abs (now - t) >? nullish (tolerance o) 300) with true
      by (symmetry; apply Z.gtb_lt; lia).
    reflexivity.
  - intros t Hn Hp Hin Hlen. rewrite (Hpresent Hn), Hp.
    replace (Z.abs (now - t) >? nullish (tolerance o) 300) with false
      by (symmetry; rewrite Z.gtb_ltb; apply Z.ltb_ge; lia).
    destruct (split "=" (signature o)) as [|a [|b [|c l]]]; simpl in Hlen;
      congruence.
  - intros t version digest Hn Hp Hin Hsplit Hv. rewrite (Hpresent Hn), Hp.
    replace (Z.abs (now - t) >? nullish (tolerance o) 300) with false
      by (symmetry; rewrite Z.gtb_ltb; apply Z.ltb_ge; lia).
    rewrite Hsplit.
    replace (String.eqb version "v1") with false
      by (symmetry; apply String.eqb_neq; exact Hv).
    reflexivity.
Qed.

(** C3. The Web Crypto variant of the verifier reports a wrong version as a
    format error. On the signature [v2=abc], with the other parameters
    present and the timestamp fresh, [verifyWebhookSignatureAsync] gives
    "Invalid signature format", where the claim and the synchronous verifier
    give "Unknown signature version: v2". Neither reaches the HMAC. *)
Theorem verifyWebhookSignatureAsync_version_reason
    (hmac : string -> string -> list Byte.byte) (now : Z) :
  let o := {| payload := "{}"; signature := "v2=abc";
              timestamp := toString now; secret := "whsec";
              tolerance := None |} in
  verifyWebhookSignatureAsync hmac now o =
    ({| valid := false; error := Some "Invalid signature format" |}, []) /\
  verifyWebhookSignatureWithReason hmac now o =
    ({| valid := false; error := Some "Unknown signature version: v2" |}, []).
Proof.
  cbv zeta.
  unfold verifyWebhookSignatureAsync, verifyWebhookSignatureWithReason.
  cbn [payload signature timestamp secret tolerance].
  rewrite truthy_toString, parseInt_toString. cbn [truthy negb orb nullish].
  replace (Z.abs (now - now) >? 300) with false
    by (symmetry; rewrite Z.gtb_ltb; apply Z.ltb_ge; lia).
  split; reflexivity.
Qed.

(** C4, as stated, fails for the empty payload, whatever the HMAC primitive
    is: the signer signs it, and the verifier rejects it as a missing
    parameter. *)
Lemma sign_then_verify_empty_payload_counterexample :
  ~ (exists hmac : string -> string -> list Byte.byte,
       forall (now : Z) (P S : string) (T tol : Z),
         Z.abs (now - T) <= tol ->
         valid
           (fst (verifyWebhookSignatureWithReason hmac now
                   {| payload := P;
                      signature :=
                        fst (generateTestSignature hmac now P S (Some T));
                      timestamp :=
                        snd (generateTestSignature hmac now P S (Some T));
                      secret := S;
                      tolerance := Some tol |})) = true).
Proof.
  intros [hmac H].
  specialize (H 1700000000 "" "whsec" 1700000000 300 ltac:(simpl; lia)).
  discriminate H.
Qed.

(** C4, amended. For every non-empty payload [P], non-empty secret [S] and
    integer timestamp [T] within the tolerance of the time of verification,
    the pair made by [generateTestSignature(P, S, T)] verifies against [P]
    and [S]: the result is valid and carries no reason. *)
Theorem sign_then_verify
    (hmac : string -> string -> list Byte.byte) (now signedAt : Z)
    (P S : string) (T : Z) (tol : option Z) :
  P <> "" -> S <> "" ->
  Z.abs (now - T) <= nullish tol 300 ->
  fst (verifyWebhookSignatureWithReason hmac now
         {| payload := P;
            signature :=
              fst (generateTestSignature hmac signedAt P S (Some T));
            timestamp :=
              snd (generateTestSignature hmac signedAt P S (Some T));
            secret := S;
            tolerance := tol |})
  = {| valid := true; error := None |}.
Proof.
  intros HP HS Hfresh.
  unfold verifyWebhookSignatureWithReason, generateTestSignature.
  cbn [payload signature timestamp secret tolerance fst snd nullish].
  rewrite (truthy_nonempty P HP), (truthy_nonempty S HS), truthy_toString.
  cbn [truthy append negb orb].
  rewrite parseInt_toString.
  replace (Z.abs (now - T) >? nullish tol 300) with false
    by (symmetry; rewrite Z.gtb_ltb; apply Z.ltb_ge; lia).
  change (String "v" (String "1" (String "=" ?x))) with ("v1=" ++ x).
  rewrite split_signature. cbn [String.eqb Ascii.eqb Bool.eqb negb].
  unfold verifyWithNodeCrypto.
  rewrite Nat.eqb_refl, String.eqb_refl. reflexivity.
Qed.

(** The statement above for a fixed digest, ten seconds after signing. *)
Lemma sign_then_verify_witness :
  let hmac := fun _ _ : string => [Byte.x3a; Byte.xf0; Byte.x07] in
  fst (verifyWebhookSignatureWithReason hmac 1700000010
         {| payload := "{}";
            signature :=
              fst (generateTestSignature hmac 1700000010 "{}" "whsec"
                     (Some 1700000000));
            timestamp :=
              snd (generateTestSignature hmac 1700000010 "{}" "whsec"
                     (Some 1700000000));
            secret := "whsec";
            tolerance := None |})
  = {| valid := true; error := None |}.
Proof.
  intros hmac.
  apply (sign_then_verify hmac 1700000010 1700000010 "{}" "whsec"
           1700000000 None).
  - discriminate.
  - discriminate.
  - simpl; lia.
Defined.

End WebhooksFacts.

(** ** Pagination iterator *)

Section PaginationFacts.
Import JS Errors Transport Pagination.

Local Abbreviation W o pp cp tp iy rq :=
  {| iter := {| options := o; perPage := pp; currentPage := cp;
                totalPages := tp; itemsYielded := iy |};
     requests := rq |}.

Lemma capReached_uncapped (o : AutoPaginateOptions) (pp cp : Z)
    (tp : option Z) (iy : Z) (rq : list (Z * Z)) :
  maxItems o = None \/ maxItems o = Some 0 ->
  capReached (W o pp cp tp iy rq) = false.
Proof.
  unfold capReached; cbn [iter options].
  intros [-> | ->]; reflexivity.
Qed.

Lemma pagesFrom_cons (first : Z) (count : nat) (pp : Z) :
  pagesFrom first (S count) pp = (first, pp) :: pagesFrom (first + 1) count pp.
Proof.
  unfold pagesFrom. cbn [seq map]. rewrite Z.add_0_r. f_equal.
  rewrite <- seq_shift, map_map.
  apply map_ext. intros i. f_equal. lia.
Qed.

Lemma setCursor_world (o : AutoPaginateOptions) (pp cp : Z) (tp : option Z)
    (iy : Z) (rq : list (Z * Z)) (cp' : Z) (tp' : option Z) (iy' : Z) :
  setCursor (W o pp cp tp iy rq) cp' tp' iy' = W o pp cp' tp' iy' rq.
Proof. reflexivity. Qed.

Lemma logRequest_world (o : AutoPaginateOptions) (pp cp : Z) (tp : option Z)
    (iy : Z) (rq : list (Z * Z)) (p q : Z) :
  logRequest (W o pp cp tp iy rq) p q = W o pp cp tp iy (rq ++ [(p, q)])%list.
Proof. reflexivity. Qed.

Section Served.
Context {T : Type}.
Variable items : list T.
Variable pp : Z.
Hypothesis pp_pos : 0 < pp.
Variable o : AutoPaginateOptions.
Hypothesis o_uncapped : maxItems o = None \/ maxItems o = Some 0.

Let L : Z := Z.of_nat (List.length items).
Let P : Z := (L + pp - 1) / pp.

Lemma pages_cover : L <= P * pp.
Proof.
  unfold P.
  pose proof (Z.div_mod (L + pp - 1) pp ltac:(lia)).
  pose proof (Z.mod_pos_bound (L + pp - 1) pp pp_pos). nia.
Qed.

Lemma pages_needed : (P - 1) * pp < L.
Proof.
  unfold P.
  pose proof (Z.div_mod (L + pp - 1) pp ltac:(lia)).
  pose proof (Z.mod_pos_bound (L + pp - 1) pp pp_pos). nia.
Qed.

(** Draining the rest of a page: one [next()] per item, no request. *)
Lemma toArrayLoop_page (rest : list T) :
  forall (n fuel : nat) (cp : Z) (tp : option Z) (iy : Z)
         (rq : list (Z * Z)) (acc : list T),
    toArrayLoop (servePage items) (List.length rest + n) fuel
      (Suspended rest) (W o pp cp tp iy rq) acc =
    toArrayLoop (servePage items) n fuel (Suspended [])
      (W o pp cp tp (iy + Z.of_nat (List.length rest)) rq)
      (acc ++ rest)%list.
Proof.
  induction rest as [|x rest IH]; intros n fuel cp tp iy rq acc.
  - cbn [List.length Nat.add]. rewrite Z.add_0_r, app_nil_r. reflexivity.
  - cbn [List.length Nat.add toArrayLoop next forLoop iter
           options perPage currentPage totalPages itemsYielded].
    rewrite setCursor_world.
    rewrite capReached_uncapped by exact o_uncapped.
    rewrite IH. rewrite <- app_assoc. cbn [List.app].
    replace (iy + 1 + Z.of_nat (List.length rest))
      with (iy + Z.of_nat (S (List.length rest))) by lia.
    reflexivity.
Qed.

(** The page the service returns for a page number [p >= 1]. *)
Lemma servePage_data (p : Z) :
  1 <= p ->
  servePage items p pp =
  inr (Envelope
         {| data :=
              firstn (Z.to_nat pp) (skipn (Z.to_nat ((p - 1) * pp)) items);
            pagination := {| total := L; page := p; per_page := pp;
                             total_pages := P |} |}).
Proof. reflexivity. Qed.

Lemma skipn_next_page (p : Z) :
  0 <= p ->
  skipn (Z.to_nat pp) (skipn (Z.to_nat (p * pp)) items) =
  skipn (Z.to_nat ((p + 1) * pp)) items.
Proof.
  intros Hp. rewrite skipn_skipn. f_equal. nia.
Qed.

(** Draining from the end of page [p] on: the remaining [m] pages are
    requested one by one, in order, and their items collected. *)
Lemma toArrayLoop_pages (m : nat) :
  forall (p iy : Z) (rq : list (Z * Z)) (acc : list T) (n fuel : nat),
    1 <= p ->
    P - p = Z.of_nat m ->
    (List.length (skipn (Z.to_nat (p * pp)) items) < n)%nat ->
    (0 < fuel)%nat ->
    toArrayLoop (servePage items) n fuel (Suspended [])
      (W o pp p (Some P) iy rq) acc =
    Some (inr (acc ++ skipn (Z.to_nat (p * pp)) items)%list,
          W o pp P (Some P)
            (iy + 1 + Z.of_nat (List.length (skipn (Z.to_nat (p * pp)) items)))
            (rq ++ pagesFrom (p + 1) m pp)%list).
Proof.
  induction m as [|m IH]; intros p iy rq acc n fuel Hp Hm Hn Hfuel.
  - assert (p = P) by lia. subst p.
    assert (Hnil : skipn (Z.to_nat (P * pp)) items = []).
    { apply skipn_all2. pose proof pages_cover. unfold L in *. lia. }
    rewrite Hnil in *. destruct n as [|n]; [simpl in Hn; lia |].
    cbn [toArrayLoop next forLoop iter currentPage totalPages itemsYielded].
    rewrite setCursor_world. unfold afterPage.
    cbn [iter currentPage totalPages itemsYielded nullish].
    replace (P >=? P) with true
      by (symmetry; rewrite Z.geb_leb; apply Z.leb_refl).
    cbn [List.length pagesFrom seq map]. rewrite !app_nil_r, Z.add_0_r.
    reflexivity.
  - destruct n as [|n]; [lia |]. destruct fuel as [|fuel]; [lia |].
    cbn [toArrayLoop next forLoop iter currentPage totalPages itemsYielded].
    rewrite setCursor_world. unfold afterPage.
    cbn [iter currentPage totalPages itemsYielded nullish].
    replace (p >=? P) with false
      by (symmetry; rewrite Z.geb_leb; apply Z.leb_gt; lia).
    rewrite setCursor_world.
    cbn [whileLoop]. rewrite capReached_uncapped by exact o_uncapped.
    rewrite logRequest_world. cbn [iter currentPage perPage].
    rewrite servePage_data by lia. cbn [data pagination total_pages].
    rewrite setCursor_world.
    replace (p + 1 - 1) with p by lia.
    assert (Hrem : (0 < List.length (skipn (Z.to_nat (p * pp)) items))%nat).
    { rewrite length_skipn. pose proof pages_needed.
      unfold L in *. nia. }
    pose proof (skipn_next_page p ltac:(lia)) as Hnext.
    remember (skipn (Z.to_nat (p * pp)) items) as rem eqn:Erem.
    pose proof (firstn_skipn (Z.to_nat pp) rem) as Hsplit.
    destruct (firstn (Z.to_nat pp) rem) as [|x rest] eqn:Hdata.
    { exfalso. apply (f_equal (@List.length T)) in Hdata.
      rewrite length_firstn in Hdata. simpl in Hdata. lia. }
    cbn [forLoop]. rewrite capReached_uncapped by exact o_uncapped.
    assert (Hlen : List.length rem =
                   (S (List.length rest) +
                    List.length (skipn (Z.to_nat ((p + 1) * pp)) items))%nat).
    { rewrite <- Hsplit at 1. rewrite length_app, Hnext. reflexivity. }
    replace n with (List.length rest + (n - List.length rest))%nat by lia.
    rewrite toArrayLoop_page.
    rewrite (IH (p + 1)); [| lia ..].
    cbn [itemsYielded].
    assert (EA : (((acc ++ [x]) ++ rest) ++
                  skipn (Z.to_nat ((p + 1) * pp)) items)%list
                 = (acc ++ rem)%list).
    { rewrite <- Hsplit, Hnext, <- !app_assoc. reflexivity. }
    assert (EB : iy + 1 + Z.of_nat (List.length rest) + 1 +
                 Z.of_nat
                   (List.length (skipn (Z.to_nat ((p + 1) * pp)) items))
                 = iy + 1 + Z.of_nat (List.length rem)).
    { rewrite Hlen. lia. }
    assert (EC : ((rq ++ [(p + 1, pp)]) ++ pagesFrom (p + 1 + 1) m pp)%list
                 = (rq ++ pagesFrom (p + 1) (S m) pp)%list).
    { rewrite pagesFrom_cons, <- app_assoc. reflexivity. }
    rewrite EA, EB, EC. reflexivity.
Qed.

(** A full traversal of an iterator without an effective cap, whatever its
    cursor fields hold at the start: every item, in the order of the data
    set, one request per page (and one for an empty data set). *)
Lemma toArray_served (cp : Z) (tp : option Z) (iy : Z) (rq : list (Z * Z))
    (n fuel : nat) :
  opt_page o = None ->
  (List.length items < n)%nat ->
  (0 < fuel)%nat ->
  toArray (servePage items) n fuel (W o pp cp tp iy rq) =
  Some (inr items,
        W o pp (Z.max 1 P) (Some P) L
          (rq ++ pagesFrom 1 (Z.to_nat (Z.max 1 P)) pp)%list).
Proof.
  intros Hstart Hn Hfuel.
  destruct n as [|n]; [lia |]. destruct fuel as [|fuel]; [lia |].
  unfold toArray. cbn [toArrayLoop next iter options].
  rewrite Hstart. cbn [nullish]. rewrite setCursor_world.
  cbn [whileLoop]. rewrite capReached_uncapped by exact o_uncapped.
  rewrite logRequest_world. cbn [iter currentPage perPage].
  rewrite servePage_data by lia. cbn [data pagination total_pages].
  rewrite setCursor_world. cbn [itemsYielded].
  replace (Z.to_nat ((1 - 1) * pp)) with 0%nat by lia. cbn [skipn].
  pose proof pages_cover as Hcover. pose proof pages_needed as Hneeded.
  pose proof (firstn_skipn (Z.to_nat pp) items) as Hsplit.
  destruct (firstn (Z.to_nat pp) items) as [|x rest] eqn:Hdata.
  - assert (HL : L = 0).
    { apply (f_equal (@List.length T)) in Hdata.
      rewrite length_firstn in Hdata. simpl in Hdata. unfold L. lia. }
    assert (HP : P = 0) by nia.
    assert (Hitems : items = []).
    { destruct items; [reflexivity | unfold L in HL; simpl in HL; lia]. }
    cbn [forLoop]. unfold afterPage.
    cbn [iter currentPage totalPages nullish].
    rewrite HL, HP. cbn. rewrite Hitems at 1. reflexivity.
  - assert (HL : 1 <= L).
    { unfold L. destruct items; [rewrite firstn_nil in Hdata; discriminate |].
      simpl; lia. }
    assert (HP : 1 <= P) by nia.
    cbn [forLoop]. rewrite capReached_uncapped by exact o_uncapped.
    assert (Hlen : List.length items =
                   (S (List.length rest) +
                    List.length (skipn (Z.to_nat (1 * pp)) items))%nat).
    { rewrite <- Hsplit at 1. rewrite length_app, Z.mul_1_l. reflexivity. }
    replace n with (List.length rest + (n - List.length rest))%nat by lia.
    rewrite toArrayLoop_page.
    rewrite (toArrayLoop_pages (Z.to_nat (P - 1)) 1); [| lia ..].
    assert (EA : ((([] ++ [x]) ++ rest) ++
                  skipn (Z.to_nat (1 * pp)) items)%list = items).
    { rewrite Z.mul_1_l. exact Hsplit. }
    assert (EB : 0 + Z.of_nat (List.length rest) + 1 +
                 Z.of_nat (List.length (skipn (Z.to_nat (1 * pp)) items))
                 = L).
    { unfold L. rewrite Hlen. lia. }
    assert (EC : ((rq ++ [(1, pp)]) ++ pagesFrom (1 + 1) (Z.to_nat (P - 1)) pp
                  = rq ++ pagesFrom 1 (Z.to_nat (Z.max 1 P)) pp)%list).
    { replace (Z.to_nat (Z.max 1 P)) with (S (Z.to_nat (P - 1))) by lia.
      rewrite pagesFrom_cons, <- app_assoc. reflexivity. }
    rewrite EA, EB, EC. replace (Z.max 1 P) with P by lia. reflexivity.
Qed.

(** The loop of [take] inside a page: the items [a] are pushed, one
    [next()] each, as long as the count stays within the limit. *)
Lemma takeLoop_page (limit : Z) (a : list T) :
  forall (b : list T) (n fuel : nat) (cp : Z) (tp : option Z) (iy : Z)
         (rq : list (Z * Z)) (acc : list T) (c : Z),
    c + Z.of_nat (List.length a) <= limit ->
    takeLoop (servePage items) limit (List.length a + n) fuel
      (Suspended (a ++ b)) (W o pp cp tp iy rq) acc c =
    takeLoop (servePage items) limit n fuel (Suspended b)
      (W o pp cp tp (iy + Z.of_nat (List.length a)) rq)
      (acc ++ a)%list (c + Z.of_nat (List.length a)).
Proof.
  induction a as [|x a IH]; intros b n fuel cp tp iy rq acc c Hc.
  - cbn [List.length Nat.add List.app]. rewrite !Z.add_0_r, app_nil_r.
    reflexivity.
  - cbn [List.length Nat.add List.app takeLoop next forLoop iter
           options perPage currentPage totalPages itemsYielded].
    rewrite setCursor_world.
    rewrite capReached_uncapped by exact o_uncapped.
    replace (c >=? limit) with false
      by (symmetry; rewrite Z.geb_leb; apply Z.leb_gt;
          cbn [List.length] in Hc; lia).
    rewrite IH by (cbn [List.length] in Hc; lia).
    rewrite <- app_assoc. cbn [List.app].
    replace (iy + 1 + Z.of_nat (List.length a))
      with (iy + Z.of_nat (S (List.length a))) by lia.
    replace (c + 1 + Z.of_nat (List.length a))
      with (c + Z.of_nat (S (List.length a))) by lia.
    reflexivity.
Qed.

(** The limit is reached inside the page: [take] pushes what the limit
    leaves room for, asks for one more item, and stops there. *)
Lemma takeLoop_stops_in_page (limit : Z) (rest : list T) (n fuel : nat)
    (cp : Z) (tp : option Z) (iy : Z) (rq : list (Z * Z)) (acc : list T)
    (c : Z) :
  c <= limit ->
  (Z.to_nat (limit - c) < List.length rest)%nat ->
  (Z.to_nat (limit - c) < n)%nat ->
  takeLoop (servePage items) limit n fuel (Suspended rest)
    (W o pp cp tp iy rq) acc c =
  Some (inr (acc ++ firstn (Z.to_nat (limit - c)) rest)%list,
        W o pp cp tp (iy + (limit - c) + 1) rq).
Proof.
  intros Hc Hshort Hn.
  remember (Z.to_nat (limit - c)) as d eqn:Ed.
  pose proof (firstn_skipn d rest) as Hsplit.
  assert (Hlen : List.length (firstn d rest) = d)
    by (rewrite length_firstn; lia).
  destruct (skipn d rest) as [|y b] eqn:Hb.
  { exfalso. apply (f_equal (@List.length T)) in Hb.
    rewrite length_skipn in Hb. simpl in Hb. lia. }
  rewrite <- Hsplit at 1.
  replace n with (List.length (firstn d rest) + S (n - d - 1))%nat by lia.
  rewrite takeLoop_page by lia.
  cbn [takeLoop next forLoop iter options perPage currentPage totalPages
         itemsYielded].
  rewrite setCursor_world.
  rewrite capReached_uncapped by exact o_uncapped.
  replace (c + Z.of_nat (List.length (firstn d rest)) >=? limit) with true
    by (symmetry; rewrite Z.geb_leb; apply Z.leb_le; lia).
  replace (iy + Z.of_nat (List.length (firstn d rest)) + 1)
    with (iy + (limit - c) + 1) by lia.
  reflexivity.
Qed.

(** [take] from inside page [p], with [rest] still to come on the page and
    [m] pages after it: the items returned are those pushed so far and as
    many of the following ones as the limit leaves room for. *)
Lemma takeLoop_served (limit : Z) (m : nat) :
  forall (rest : list T) (p iy : Z) (rq : list (Z * Z)) (acc : list T)
         (c : Z) (n fuel : nat),
    1 <= p ->
    P - p = Z.of_nat m ->
    c <= limit ->
    (List.length rest + List.length (skipn (Z.to_nat (p * pp)) items)
     < n)%nat ->
    (0 < fuel)%nat ->
    exists w : World,
      takeLoop (servePage items) limit n fuel (Suspended rest)
        (W o pp p (Some P) iy rq) acc c =
      Some (inr (acc ++ firstn (Z.to_nat (limit - c))
                          (rest ++ skipn (Z.to_nat (p * pp)) items))%list,
            w).
Proof.
  induction m as [|m IH];
    intros rest p iy rq acc c n fuel Hp Hm Hc Hn Hfuel;
    (destruct (Nat.lt_ge_cases (Z.to_nat (limit - c)) (List.length rest))
      as [Hshort | Hall];
     [ eexists; rewrite takeLoop_stops_in_page by lia;
       rewrite firstn_app;
       replace (Z.to_nat (limit - c) - List.length rest)%nat with 0%nat
         by lia;
       cbn [firstn]; rewrite app_nil_r; reflexivity
     | ]).
  - (* the last page, all of it wanted *)
    assert (p = P) by lia. subst p.
    assert (Hnil : skipn (Z.to_nat (P * pp)) items = []).
    { apply skipn_all2. pose proof pages_cover as Hcov. unfold L in *. lia. }
    rewrite Hnil in *. rewrite app_nil_r.
    replace (Suspended rest) with (Suspended (rest ++ []))
      by (rewrite app_nil_r; reflexivity).
    replace n with (List.length rest + S (n - List.length rest - 1))%nat
      by (simpl in Hn; lia).
    rewrite takeLoop_page by lia.
    cbn [takeLoop next forLoop iter currentPage totalPages itemsYielded].
    rewrite setCursor_world. unfold afterPage.
    cbn [iter currentPage totalPages itemsYielded nullish].
    replace (P >=? P) with true
      by (symmetry; rewrite Z.geb_leb; apply Z.leb_refl).
    eexists. rewrite firstn_all2 by lia. reflexivity.
  - (* a page follows; the rest of this one is wanted *)
    replace (Suspended rest) with (Suspended (rest ++ []))
      by (rewrite app_nil_r; reflexivity).
    assert (Hrem : (0 < List.length (skipn (Z.to_nat (p * pp)) items))%nat).
    { rewrite length_skipn. pose proof pages_needed as Hnd. unfold L in *. nia. }
    pose proof (skipn_next_page p ltac:(lia)) as Hnext.
    remember (skipn (Z.to_nat (p * pp)) items) as rem eqn:Erem.
    pose proof (firstn_skipn (Z.to_nat pp) rem) as Hsplit.
    destruct (firstn (Z.to_nat pp) rem) as [|x rest'] eqn:Hdata.
    { exfalso. apply (f_equal (@List.length T)) in Hdata.
      rewrite length_firstn in Hdata. simpl in Hdata. lia. }
    assert (Hlen : List.length rem =
                   (S (List.length rest') +
                    List.length (skipn (Z.to_nat ((p + 1) * pp)) items))%nat).
    { rewrite <- Hsplit at 1. rewrite length_app, Hnext. reflexivity. }
    replace n with (List.length rest + S (n - List.length rest - 1))%nat
      by lia.
    rewrite takeLoop_page by lia.
    destruct fuel as [|fuel]; [lia |].
    cbn [takeLoop next forLoop iter currentPage totalPages itemsYielded].
    rewrite setCursor_world. unfold afterPage.
    cbn [iter currentPage totalPages itemsYielded nullish].
    replace (p >=? P) with false
      by (symmetry; rewrite Z.geb_leb; apply Z.leb_gt; lia).
    rewrite setCursor_world.
    cbn [whileLoop]. rewrite capReached_uncapped by exact o_uncapped.
    rewrite logRequest_world. cbn [iter currentPage perPage].
    rewrite servePage_data by lia.
    cbn [data pagination total_pages].
    rewrite setCursor_world.
    replace (p + 1 - 1) with p by lia.
    rewrite <- Erem, Hdata.
    cbn [forLoop]. rewrite capReached_uncapped by exact o_uncapped.
    destruct (Z.geb_spec (c + Z.of_nat (List.length rest)) limit)
      as [Hfull | Hroom].
    + eexists. rewrite firstn_app.
      replace (Z.to_nat (limit - c) - List.length rest)%nat with 0%nat
        by lia.
      rewrite firstn_all2 by lia. cbn [firstn]. rewrite app_nil_r.
      reflexivity.
    + destruct (IH rest' (p + 1)
                  (itemsYielded
                     {| options := o; perPage := pp; currentPage := p;
                        totalPages := Some P;
                        itemsYielded :=
                          iy + Z.of_nat (List.length rest) + 1 |})
                  (rq ++ [(p + 1, pp)])%list
                  ((acc ++ rest) ++ [x])%list
                  (c + Z.of_nat (List.length rest) + 1)
                  (n - List.length rest - 1)%nat (S fuel))
        as [w Hw]; try lia.
      exists w. cbn [itemsYielded] in Hw |- *. rewrite Hw.
      f_equal. f_equal. f_equal.
      rewrite <- Hsplit, Hnext, <- !app_assoc. cbn [List.app].
      rewrite (firstn_app (Z.to_nat (limit - c)) rest).
      rewrite (@firstn_all2 T (Z.to_nat (limit - c)) rest) by lia.
      replace (Z.to_nat (limit - c) - List.length rest)%nat
        with (S (Z.to_nat (limit - (c + Z.of_nat (List.length rest) + 1))))
        by lia.
      reflexivity.
Qed.

(** [take(limit)] on an iterator without an effective cap returns the first
    [limit] items of the data set, or all of them when there are fewer. *)
Lemma take_served (limit cp : Z) (tp : option Z) (iy : Z)
    (rq : list (Z * Z)) (n fuel : nat) :
  opt_page o = None ->
  0 <= limit ->
  (List.length items < n)%nat ->
  (0 < fuel)%nat ->
  exists w : World,
    take (servePage items) limit n fuel (W o pp cp tp iy rq) =
    Some (inr (firstn (Z.to_nat limit) items), w).
Proof.
  intros Hstart Hlimit Hn Hfuel.
  destruct n as [|n]; [lia |]. destruct fuel as [|fuel]; [lia |].
  unfold take. cbn [takeLoop next iter options].
  rewrite Hstart. cbn [nullish]. rewrite setCursor_world.
  cbn [whileLoop]. rewrite capReached_uncapped by exact o_uncapped.
  rewrite logRequest_world. cbn [iter currentPage perPage].
  rewrite servePage_data by lia. cbn [data pagination total_pages].
  rewrite setCursor_world. cbn [itemsYielded].
  replace (Z.to_nat ((1 - 1) * pp)) with 0%nat by lia. cbn [skipn].
  pose proof pages_cover as Hcover. pose proof pages_needed as Hneeded.
  pose proof (firstn_skipn (Z.to_nat pp) items) as Hsplit.
  destruct (firstn (Z.to_nat pp) items) as [|x rest] eqn:Hdata.
  - assert (HL : L = 0).
    { apply (f_equal (@List.length T)) in Hdata.
      rewrite length_firstn in Hdata. simpl in Hdata. unfold L. lia. }
    assert (HP : P = 0) by nia.
    assert (Hitems : items = []).
    { destruct items; [reflexivity | unfold L in HL; simpl in HL; lia]. }
    cbn [forLoop]. unfold afterPage.
    cbn [iter currentPage totalPages nullish].
    rewrite HP. cbn. eexists. rewrite Hitems, firstn_nil. reflexivity.
  - assert (HL : 1 <= L).
    { unfold L. destruct items; [rewrite firstn_nil in Hdata; discriminate |].
      simpl; lia. }
    assert (HP : 1 <= P) by nia.
    cbn [forLoop]. rewrite capReached_uncapped by exact o_uncapped.
    assert (Hlen : List.length items =
                   (S (List.length rest) +
                    List.length (skipn (Z.to_nat (1 * pp)) items))%nat).
    { rewrite <- Hsplit at 1. rewrite length_app, Z.mul_1_l. reflexivity. }
    destruct (Z.geb_spec 0 limit) as [Hzero | Hmore].
    + eexists. replace (Z.to_nat limit) with 0%nat by lia. reflexivity.
    + destruct (takeLoop_served limit (Z.to_nat (P - 1)) rest 1 0
                  (rq ++ [(1, pp)])%list ([] ++ [x])%list (0 + 1) n (S fuel))
        as [w Hw]; try lia.
      exists w. rewrite Hw. f_equal. f_equal. f_equal.
      rewrite <- Hsplit at 2. rewrite Z.mul_1_l.
      replace (Z.to_nat limit) with (S (Z.to_nat (limit - (0 + 1)))) by lia.
      reflexivity.
Qed.

End Served.

(** With a cap of [0] the generator takes the steps it takes without a cap,
    for every client. *)
Lemma whileLoop_cap_zero {T : Type} (get : Z -> Z -> Thrown + Answer T)
    (fuel : nat) :
  forall w : World,
    whileLoop get fuel (withMaxItems (Some 0) w) =
    option_map (fun sgw : Step * Generator * World =>
                  (fst sgw, withMaxItems (Some 0) (snd sgw)))
      (whileLoop get fuel (withMaxItems None w)).
Proof.
  induction fuel as [|fuel IH]; intros w; [reflexivity |].
  cbn [whileLoop]. unfold capReached.
  cbn [withMaxItems iter options maxItems Z.eqb negb andb logRequest
         currentPage perPage requests].
  destruct (get (currentPage (iter w)) (perPage (iter w)))
    as [e | [message | pg message | response]]; [reflexivity .. |].
  destruct (data response) as [|item rest]; unfold forLoop, afterPage;
    unfold capReached;
    cbn [setCursor iter options maxItems Z.eqb negb andb currentPage
           totalPages nullish];
    try reflexivity.
  destruct (currentPage (iter w) >=? total_pages (pagination response));
    [reflexivity |].
  apply (IH {| iter := {| options := options (iter w);
                          perPage := perPage (iter w);
                          currentPage := currentPage (iter w) + 1;
                          totalPages :=
                            Some (total_pages (pagination response));
                          itemsYielded := itemsYielded (iter w) |};
               requests :=
                 (requests w ++
                  [(currentPage (iter w), perPage (iter w))])%list |}).
Qed.

(** A traversal never assigns [options]. *)
Lemma whileLoop_options {T : Type}
    (get : Z -> Z -> Thrown + Answer T) (fuel : nat) :
  forall (w w' : World) (s : Step) (g : Generator),
    whileLoop get fuel w = Some (s, g, w') ->
    options (iter w') = options (iter w).
Proof.
  induction fuel as [|fuel IH]; intros w w' s g; [discriminate |].
  cbn [whileLoop].
  destruct (capReached w); [intros [= _ _ <-]; reflexivity |].
  destruct (get _ _) as [e | [message | pg message | response]];
    [intros [= _ _ <-]; reflexivity .. |].
  unfold forLoop, afterPage.
  destruct (data response) as [|item rest];
    [| destruct (capReached _); [| intros [= _ _ <-]; reflexivity]];
    (destruct (_ >=? _); [intros [= _ _ <-]; reflexivity |];
     intros H; apply IH in H; exact H).
Qed.

Lemma next_options {T : Type}
    (get : Z -> Z -> Thrown + Answer T) (fuel : nat)
    (gen : Generator) (w w' : World) (s : Step) (g : Generator) :
  next get fuel gen w = Some (s, g, w') ->
  options (iter w') = options (iter w).
Proof.
  destruct gen as [|rest|]; cbn [next].
  - intros H. apply whileLoop_options in H. exact H.
  - unfold forLoop, afterPage.
    destruct rest as [|item rest];
      [| destruct (capReached _); [| intros [= _ _ <-]; reflexivity]];
      (destruct (_ >=? _); [intros [= _ _ <-]; reflexivity |];
       intros H; apply whileLoop_options in H; exact H).
  - intros [= _ _ <-]. reflexivity.
Qed.

Lemma withMaxItems_id (w : World) :
  withMaxItems (maxItems (options (iter w))) w = w.
Proof.
  destruct w as [[[op opp mi] pp cp tp iy] rq]. reflexivity.
Qed.

Lemma next_cap_zero {T : Type}
    (get : Z -> Z -> Thrown + Answer T) (fuel : nat)
    (gen : Generator) (w : World) :
  next get fuel gen (withMaxItems (Some 0) w) =
  option_map (fun sgw : Step * Generator * World =>
                (fst sgw, withMaxItems (Some 0) (snd sgw)))
    (next get fuel gen (withMaxItems None w)).
Proof.
  destruct gen as [|rest|]; cbn [next].
  - apply (whileLoop_cap_zero get fuel
             (setCursor w (nullish (opt_page (options (iter w))) 1) None 0)).
  - unfold forLoop, afterPage, capReached.
    cbn [setCursor withMaxItems iter options maxItems Z.eqb negb andb
           currentPage totalPages nullish].
    destruct rest as [|item rest]; [| reflexivity].
    destruct (_ >=? _); [reflexivity |].
    apply (whileLoop_cap_zero get fuel
             (setCursor w (currentPage (iter w) + 1) (totalPages (iter w))
                (itemsYielded (iter w) + 1))).
  - reflexivity.
Qed.

Lemma toArrayLoop_cap_zero {T : Type}
    (get : Z -> Z -> Thrown + Answer T) (n fuel : nat) :
  forall (gen : Generator) (w : World) (acc : list T),
    maxItems (options (iter w)) = None ->
    toArrayLoop get n fuel gen (withMaxItems (Some 0) w) acc =
    option_map (fun rw : (Thrown + list T) * World =>
                  (fst rw, withMaxItems (Some 0) (snd rw)))
      (toArrayLoop get n fuel gen w acc).
Proof.
  induction n as [|n IH]; intros gen w acc Hw; [reflexivity |].
  cbn [toArrayLoop]. rewrite next_cap_zero.
  rewrite <- Hw, withMaxItems_id.
  destruct (next get fuel gen w) as [[[s g] w'] |] eqn:Hnext;
    [| reflexivity].
  apply next_options in Hnext.
  destruct s as [item | | e]; cbn [option_map fst snd]; try reflexivity.
  apply IH. rewrite Hnext. exact Hw.
Qed.

(** C5. Over 250 items and a page size of 100, [toArray()] on a new iterator
    returns the 250 items in order after requesting pages 1, 2 and 3, and
    leaves the cursor on page 3 with 250 items counted; a second [toArray()]
    on the same object, starting from that cursor, again requests pages 1, 2
    and 3 and returns the same 250 items. *)
Theorem toArray_250_items_restarts {T : Type} (items : list T)
    (n fuel : nat) :
  List.length items = 250%nat ->
  (250 < n)%nat -> (0 < fuel)%nat ->
  let o := {| opt_page := None; opt_per_page := Some 100;
              maxItems := None |} in
  let w0 := {| iter := new_PaginatedIterator o; requests := [] |} in
  let w1 := W o 100 3 (Some 3) 250 [(1, 100); (2, 100); (3, 100)] in
  toArray (servePage items) n fuel w0 = Some (inr items, w1) /\
  toArray (servePage items) n fuel {| iter := iter w1; requests := [] |} =
    Some (inr items, {| iter := iter w1;
                        requests := [(1, 100); (2, 100); (3, 100)] |}).
Proof.
  intros Hlen Hn Hfuel o w0 w1.
  split.
  - unfold w0, new_PaginatedIterator. cbn [opt_per_page opt_page nullish].
    rewrite (toArray_served items 100 ltac:(lia) o (or_introl eq_refl));
      [| reflexivity | lia | lia].
    rewrite Hlen. reflexivity.
  - unfold w1. cbn [iter].
    rewrite (toArray_served items 100 ltac:(lia) o (or_introl eq_refl));
      [| reflexivity | lia | lia].
    rewrite Hlen. reflexivity.
Qed.

(** The statement above for the items 0, 1, ..., 249. *)
Lemma toArray_250_items_restarts_witness :
  let o := {| opt_page := None; opt_per_page := Some 100;
              maxItems := None |} in
  let w0 := {| iter := new_PaginatedIterator o; requests := [] |} in
  let w1 := W o 100 3 (Some 3) 250 [(1, 100); (2, 100); (3, 100)] in
  toArray (servePage (seq 0 250)) 251 1 w0 = Some (inr (seq 0 250), w1) /\
  toArray (servePage (seq 0 250)) 251 1 {| iter := iter w1; requests := [] |}
  = Some (inr (seq 0 250),
          {| iter := iter w1;
             requests := [(1, 100); (2, 100); (3, 100)] |}).
Proof.
  apply (toArray_250_items_restarts (seq 0 250) 251 1).
  - reflexivity.
  - lia.
  - lia.
Defined.

(** C10. With [maxItems: 0] the cap is never reached, whatever the count of
    items yielded is. For every client, a traversal of an iterator made with
    [maxItems: 0] does what the traversal of the iterator made without a cap
    does: the same requests, the same items or the same error, the same
    cursor. Over a paged data set it therefore returns every item of every
    page, not zero items. *)
Theorem maxItems_zero_is_unlimited :
  (forall w : World,
     maxItems (options (iter w)) = Some 0 -> capReached w = false) /\
  (forall (T : Type) (get : Z -> Z -> Thrown + Answer T)
          (n fuel : nat) (w : World),
     maxItems (options (iter w)) = None ->
     toArray get n fuel (withMaxItems (Some 0) w) =
     option_map (fun rw : (Thrown + list T) * World =>
                   (fst rw, withMaxItems (Some 0) (snd rw)))
       (toArray get n fuel w)) /\
  (forall (T : Type) (items : list T) (pp : Z) (n fuel : nat),
     0 < pp -> (List.length items < n)%nat -> (0 < fuel)%nat ->
     exists w : World,
       toArray (servePage items) n fuel
         {| iter := new_PaginatedIterator
                      {| opt_page := None; opt_per_page := Some pp;
                         maxItems := Some 0 |};
            requests := [] |} = Some (inr items, w) /\
       itemsYielded (iter w) = Z.of_nat (List.length items) /\
       requests w =
         pagesFrom 1
           (Z.to_nat
              (Z.max 1 ((Z.of_nat (List.length items) + pp - 1) / pp)))
           pp).
Proof.
  split; [| split].
  - intros w Hw. unfold capReached. rewrite Hw. reflexivity.
  - intros T get n fuel w Hw. apply toArrayLoop_cap_zero. exact Hw.
  - intros T items pp n fuel Hpp Hn Hfuel.
    eexists. unfold new_PaginatedIterator.
    cbn [opt_per_page opt_page nullish].
    rewrite (toArray_served items pp Hpp
               {| opt_page := None; opt_per_page := Some pp;
                  maxItems := Some 0 |} (or_intror eq_refl));
      [| reflexivity | lia | lia].
    repeat split.
Qed.

(** The statement above for seven items and a page size of three. *)
Lemma maxItems_zero_is_unlimited_witness :
  exists w : World,
    toArray (servePage (seq 0 7)) 8 1
      {| iter := new_PaginatedIterator
                   {| opt_page := None; opt_per_page := Some 3;
                      maxItems := Some 0 |};
         requests := [] |} = Some (inr (seq 0 7), w) /\
    itemsYielded (iter w) = 7 /\
    requests w = [(1, 3); (2, 3); (3, 3)].
Proof.
  exact (proj2 (proj2 maxItems_zero_is_unlimited) nat (seq 0 7) 3 8%nat 1%nat
           ltac:(lia) ltac:(simpl; lia) ltac:(lia)).
Defined.

(** C6. [take(100)] over 250 items with a page size of 100 returns the first
    100 items but requests page 2 as well: the loop asks the traversal for
    item 101 before it tests [count >= n]. [take(0)] requests page 1 for the
    same reason. [take(5)] requests page 1 only and returns 5 items. *)
Theorem take_pulls_one_more_item :
  let o := {| opt_page := None; opt_per_page := Some 100;
              maxItems := None |} in
  let w0 := {| iter := new_PaginatedIterator o; requests := [] |} in
  let outcome r :=
    option_map (fun rw : (Thrown + list nat) * World =>
                  (fst rw, requests (snd rw))) r in
  outcome (take (servePage (seq 0 250)) 100 251 1 w0) =
    Some (inr (seq 0 100), [(1, 100); (2, 100)]) /\
  outcome (take (servePage (seq 0 250)) 0 251 1 w0) =
    Some (inr [], [(1, 100)]) /\
  outcome (take (servePage (seq 0 250)) 5 251 1 w0) =
    Some (inr (seq 0 5), [(1, 100)]).
Proof.
  cbv zeta. repeat split; vm_compute; reflexivity.
Qed.

End PaginationFacts.

(* ===================================================================== *)
(** * Further properties                                                   *)
(* ===================================================================== *)

(** ** Webhook verifier and signer *)

Section WebhooksMore.
Import JS Webhooks Events.

Lemma split_nonempty (sep : ascii) (s : string) : split sep s <> [].
Proof.
  destruct s as [|c r]; [discriminate |]. simpl.
  destruct (Ascii.eqb c sep); [discriminate |].
  destruct (split sep r); discriminate.
Qed.

Lemma split_one (sep : ascii) (s b : string) :
  split sep s = [b] -> s = b.
Proof.
  revert b. induction s as [|c r IH]; intros b H.
  - injection H as <-. reflexivity.
  - simpl in H. destruct (Ascii.eqb c sep).
    + injection H as Hb Hs. apply split_nonempty in Hs. contradiction.
    + destruct (split sep r) as [|p ps] eqn:E;
        [apply split_nonempty in E; contradiction |].
      injection H as <- ->. rewrite (IH p eq_refl). reflexivity.
Qed.

(** Two parts come from exactly one separator. *)
Lemma split_two (sep : ascii) (s a b : string) :
  split sep s = [a; b] -> s = a ++ String sep b.
Proof.
  revert a. induction s as [|c r IH]; intros a H.
  - discriminate.
  - simpl in H. destruct (Ascii.eqb_spec c sep) as [-> | Hne].
    + injection H as Ha Hs. apply split_one in Hs. subst. reflexivity.
    + destruct (split sep r) as [|p ps] eqn:E;
        [apply split_nonempty in E; contradiction |].
      injection H as <- ->. rewrite (IH p eq_refl). reflexivity.
Qed.

(** X1. The boolean verifier accepts exactly when the payload and the
    secret are not empty, the timestamp starts with an integer within the
    tolerance of the current time, and the signature is [v1=] followed by
    the lower-case hex HMAC of [timestamp.payload] under the secret. *)
Theorem verifyWebhookSignature_accepts_iff
    (hmac : string -> string -> list Byte.byte) (now : Z)
    (o : VerifyWebhookSignatureOptions) :
  verifyWebhookSignature hmac now o = true <->
  payload o <> "" /\ secret o <> "" /\
  (exists t, parseInt (timestamp o) = Int t /\
             Z.abs (now - t) <= nullish (tolerance o) 300) /\
  signature o =
    "v1=" ++ hex (hmac (secret o) (timestamp o ++ "." ++ payload o)).
Proof.
  unfold verifyWebhookSignature, verifyWebhookSignatureWithReason.
  split.
  - destruct (payload o) as [|pc pr] eqn:EP; [discriminate |].
    destruct (signature o) as [|sc sr] eqn:ES; [discriminate |].
    destruct (timestamp o) as [|tc tr] eqn:ET; [discriminate |].
    destruct (secret o) as [|kc kr] eqn:EK; [discriminate |].
    cbn [truthy negb orb].
    destruct (parseInt (String tc tr)) as [|t] eqn:Et; [discriminate |].
    destruct (Z.gtb_spec (Z.abs (now - t)) (nullish (tolerance o) 300))
      as [Hout | Hin]; [discriminate |].
    destruct (split "=" (String sc sr)) as [|v [|d [|x l]]] eqn:Esplit;
      try discriminate.
    destruct (String.eqb_spec v "v1") as [-> | Hv]; [| discriminate].
    cbn [negb]. unfold verifyWithNodeCrypto.
    destruct (Nat.eqb _ _); [| discriminate]. cbn [negb fst valid].
    intros Heq. apply String.eqb_eq in Heq.
    apply split_two in Esplit.
    repeat split; try discriminate.
    + exists t. split; [reflexivity | exact Hin].
    + rewrite Esplit, Heq. reflexivity.
  - intros (HP & HS & (t & Ht & Hfresh) & Hsig).
    assert (HT : timestamp o <> "").
    { intros E. rewrite E in Ht. discriminate. }
    rewrite (truthy_nonempty _ HP), (truthy_nonempty _ HS),
      (truthy_nonempty _ HT).
    rewrite Hsig at 1. cbn [truthy append negb orb].
    rewrite Ht.
    replace (Z.abs (now - t) >? nullish (tolerance o) 300) with false
      by (symmetry; rewrite Z.gtb_ltb; apply Z.ltb_ge; lia).
    rewrite Hsig, split_signature. cbn [String.eqb Ascii.eqb Bool.eqb negb].
    unfold verifyWithNodeCrypto.
    rewrite Nat.eqb_refl, String.eqb_refl. reflexivity.
Qed.

(** X2. The two verifiers accept the same inputs: on every input the
    synchronous one and the Web Crypto one give the same [valid]. *)
Theorem verifiers_agree_on_valid
    (hmac : string -> string -> list Byte.byte) (now : Z)
    (o : VerifyWebhookSignatureOptions) :
  valid (fst (verifyWebhookSignatureAsync hmac now o)) =
  valid (fst (verifyWebhookSignatureWithReason hmac now o)).
Proof.
  unfold verifyWebhookSignatureAsync, verifyWebhookSignatureWithReason.
  destruct (_ || _)%bool; [reflexivity |].
  destruct (parseInt (timestamp o)); [reflexivity |].
  destruct (_ >? _); [reflexivity |].
  destruct (split "=" (signature o)) as [|v [|d [|x l]]]; try reflexivity.
  destruct (negb (String.eqb v "v1")); [reflexivity |].
  unfold verifyWithNodeCrypto. cbn [fst valid].
  set (expected := hex (hmac (secret o) (timestamp o ++ "." ++ payload o))).
  destruct (String.eqb_spec expected d) as [<- | Hne].
  - rewrite Nat.eqb_refl, String.eqb_refl. reflexivity.
  - destruct (Nat.eqb _ _); cbn [negb fst valid]; [| reflexivity].
    symmetry. apply String.eqb_neq. congruence.
Qed.

(** X3. A stale delivery is rejected even when it is correctly signed: the
    pair made by the signer for [T] fails once the time of verification is
    more than the tolerance away from [T], with the tolerance reason, and
    the HMAC is not computed. *)
Theorem stale_signature_rejected
    (hmac : string -> string -> list Byte.byte) (now signedAt : Z)
    (P S : string) (T : Z) (tol : option Z) :
  P <> "" -> S <> "" ->
  Z.abs (now - T) > nullish tol 300 ->
  verifyWebhookSignatureWithReason hmac now
    {| payload := P;
       signature := fst (generateTestSignature hmac signedAt P S (Some T));
       timestamp := snd (generateTestSignature hmac signedAt P S (Some T));
       secret := S;
       tolerance := tol |}
  = ({| valid := false;
        error := Some ("Webhook timestamp is outside tolerance ("
                       ++ toString (nullish tol 300) ++ "s)") |}, []).
Proof.
  intros HP HS Hstale.
  unfold verifyWebhookSignatureWithReason, generateTestSignature.
  cbn [payload signature timestamp secret tolerance fst snd nullish].
  rewrite (truthy_nonempty P HP), (truthy_nonempty S HS), truthy_toString.
  cbn [truthy append negb orb].
  rewrite parseInt_toString.
  replace (Z.abs (now - T) >? nullish tol 300) with true
    by (symmetry; apply Z.gtb_lt; lia).
  reflexivity.
Qed.

Lemma stale_signature_rejected_witness :
  let hmac := fun _ _ : string => [Byte.x3a; Byte.xf0; Byte.x07] in
  verifyWebhookSignatureWithReason hmac 1700000600
    {| payload := "{}";
       signature :=
         fst (generateTestSignature hmac 0 "{}" "whsec" (Some 1700000000));
       timestamp :=
         snd (generateTestSignature hmac 0 "{}" "whsec" (Some 1700000000));
       secret := "whsec";
       tolerance := None |}
  = ({| valid := false;
        error := Some "Webhook timestamp is outside tolerance (300s)" |}, []).
Proof.
  intros hmac.
  apply (stale_signature_rejected hmac 1700000600 0 "{}" "whsec"
           1700000000 None).
  - discriminate.
  - discriminate.
  - simpl; lia.
Defined.

Lemma hexDigit_inj (a b : N) :
  (a < 16)%N -> (b < 16)%N -> hexDigit a = hexDigit b -> a = b.
Proof.
  intros Ha Hb.
  destruct a as [|a]; destruct b as [|b];
    repeat (try destruct a as [a|a|]; try destruct b as [b|b|];
            try lia; try reflexivity;
            try (intros H; discriminate H)).
Qed.

Lemma hex_cons_inj (x y : Byte.byte) :
  hexDigit (Byte.to_N x / 16) = hexDigit (Byte.to_N y / 16) ->
  hexDigit (Byte.to_N x mod 16) = hexDigit (Byte.to_N y mod 16) ->
  x = y.
Proof.
  intros Hhi Hlo.
  pose proof (Stdlib.Strings.Byte.to_N_bounded x) as Bx.
  pose proof (Stdlib.Strings.Byte.to_N_bounded y) as By.
  apply hexDigit_inj in Hhi;
    [| apply N.Div0.div_lt_upper_bound; lia
     | apply N.Div0.div_lt_upper_bound; lia].
  apply hexDigit_inj in Hlo;
    [| apply N.mod_upper_bound; lia | apply N.mod_upper_bound; lia].
  assert (E : Byte.to_N x = Byte.to_N y).
  { rewrite (N.div_mod (Byte.to_N x) 16) by lia.
    rewrite (N.div_mod (Byte.to_N y) 16) by lia.
    rewrite Hhi, Hlo. reflexivity. }
  pose proof (Stdlib.Strings.Byte.of_to_N x) as Ox.
  pose proof (Stdlib.Strings.Byte.of_to_N y) as Oy.
  rewrite E in Ox. congruence.
Qed.

(** X4. The hex encoding of a digest has two characters per byte and loses
    nothing: two digests with the same encoding are equal. *)
Theorem hex_length_and_injective :
  (forall bytes, String.length (hex bytes) = (2 * List.length bytes)%nat) /\
  (forall a b, hex a = hex b -> a = b).
Proof.
  split.
  - induction bytes as [|x rest IH]; [reflexivity |].
    cbn [hex String.length List.length]. rewrite IH. lia.
  - induction a as [|x a IH]; intros [|y b] H; try discriminate;
      [reflexivity |].
    cbn [hex] in H. injection H as Hhi Hlo Hrest.
    rewrite (hex_cons_inj x y Hhi Hlo), (IH b Hrest). reflexivity.
Qed.

(** X5. No event is both an invoice event and a customer event. *)
Theorem invoice_and_customer_events_disjoint (e : WebhookEvent) :
  (isInvoiceEvent e && isCustomerEvent e)%bool = false.
Proof.
  unfold isInvoiceEvent, isCustomerEvent.
  destruct (event e) as [|c r]; [reflexivity |].
  cbn [prefix].
  destruct (ascii_dec "i" c) as [<- | _]; [| reflexivity].
  destruct (ascii_dec "c" "i"); [discriminate |].
  apply andb_false_r.
Qed.

End WebhooksMore.

(** ** Transport core: retries *)

Section TransportMore.
Import JS Errors Transport RequestBuild.

(** While the outcomes are retried ones and the budget lasts, the loop moves
    on: from attempt [attempt] it arrives at attempt [k] after one transport
    call for each attempt in between. *)
Lemma attempts_reach {T : Type} (transport : Z -> Outcome T)
    (maxAttempts requestTimeout : Z) (rt : ResponseType) (k : Z) :
  k <= maxAttempts ->
  (forall j, 1 <= j < k -> retried rt (transport j)) ->
  forall (n fuel : nat) (attempt : Z) (lastError : option Thrown)
         (c : HttpClient) (log : list Event),
    1 <= attempt ->
    Z.of_nat n = k - attempt ->
    exists (lastError' : option Thrown) (c' : HttpClient)
           (log' : list Event),
      attempts transport maxAttempts requestTimeout rt (n + fuel) attempt
        lastError c log =
      attempts transport maxAttempts requestTimeout rt fuel k lastError' c'
        log' /\
      List.length (filter isFetch log') =
        (List.length (filter isFetch log) + n)%nat.
Proof.
  intros Hk Hretried n.
  induction n as [|n IH]; intros fuel attempt lastError c log Ha Hn.
  - assert (attempt = k) by lia. subst attempt.
    exists lastError, c, log. split; [reflexivity | lia].
  - assert (Hnext :
      forall lastError' c' sleep,
        isFetch sleep = false ->
        exists (lastError'' : option Thrown) (c'' : HttpClient)
               (log'' : list Event),
          attempts transport maxAttempts requestTimeout rt (n + fuel)
            (attempt + 1) lastError' c'
            ((log ++ [Fetch attempt]) ++ [sleep])%list =
          attempts transport maxAttempts requestTimeout rt fuel k
            lastError'' c'' log'' /\
          List.length (filter isFetch log'') =
            (List.length (filter isFetch log) + S n)%nat).
    { intros lastError' c' sleep Hsleep.
      destruct (IH fuel (attempt + 1) lastError' c'
                  ((log ++ [Fetch attempt]) ++ [sleep])%list)
        as (le & c2 & log2 & Heq & Hlen); try lia.
      exists le, c2, log2. split; [exact Heq |].
      rewrite Hlen, !fetches_app. cbn [filter isFetch]. rewrite Hsleep.
      simpl. lia. }
    cbn [Nat.add attempts].
    replace (attempt <=? maxAttempts) with true
      by (symmetry; apply Z.leb_le; lia).
    replace (attempt <? maxAttempts) with true
      by (symmetry; apply Z.ltb_lt; lia).
    cbn [negb].
    pose proof (Hretried attempt ltac:(lia)) as Hj.
    destruct (transport attempt) as [e' | response]; cbn [retried] in Hj.
    + apply Hnext. reflexivity.
    + destruct Hj as [H429 | [H5xx | [Hok [e' Hread]]]].
      * replace (ok response) with false
          by (unfold ok; rewrite H429; reflexivity).
        cbn [negb].
        destruct (safeParseJson response) as [|body];
          cbn [fromResponseUnchecked]; [apply Hnext; reflexivity |].
        rewrite instanceOf_fromResponse_RateLimitError, H429.
        cbn. apply Hnext. reflexivity.
      * replace (ok response) with false
          by (unfold ok; symmetry; apply andb_false_iff; right;
              apply Z.leb_gt; lia).
        cbn [negb].
        destruct (safeParseJson response) as [|body];
          cbn [fromResponseUnchecked]; [apply Hnext; reflexivity |].
        rewrite instanceOf_fromResponse_RateLimitError.
        replace (resp_status response <? 500) with false
          by (symmetry; apply Z.ltb_ge; lia).
        replace (resp_status response =? 429) with false
          by (symmetry; apply Z.eqb_neq; lia).
        replace (500 <=? resp_status response) with true
          by (symmetry; apply Z.leb_le; lia).
        rewrite andb_false_r. cbn [andb].
        apply Hnext. reflexivity.
      * rewrite Hok. cbn [negb]. rewrite Hread.
        apply Hnext. reflexivity.
Qed.

(** X6. Retry until success: when the attempts before the [k]-th are retried
    ones (no response, 429, a status from 500 on, an unreadable body), [k]
    is within the budget and the [k]-th brings a 2xx response whose body
    reads as [v], [request] returns [v] after exactly [k] transport
    calls. *)
Theorem request_succeeds_at {T : Type}
    (c : HttpClient) (config : RequestConfig)
    (transport : Z -> Outcome T) (k : Z) (response : Response T) (v : T) :
  let retries := nullish (cfg_retries config) (maxRetries c) in
  let rt := nullish (responseType config) json in
  1 <= k <= retries + 1 ->
  (forall j, 1 <= j < k -> retried rt (transport j)) ->
  transport k = inr response ->
  ok response = true ->
  read response rt = inr v ->
  let r := request c config transport in
  result r = inr v /\ fetches r = Z.to_nat k.
Proof.
  intros retries rt Hk Hretried Hlast Hok Hread r.
  unfold r, request. fold retries. fold rt.
  destruct (attempts_reach transport (retries + 1)
              (nullish (cfg_timeout config) (timeout c)) rt k
              ltac:(lia) Hretried (Z.to_nat (k - 1))
              (S (Z.to_nat (retries + 1 - k))) 1 None c [])
    as (le & c' & log' & Heq & Hlen); try lia.
  replace (Z.to_nat (retries + 1))
    with (Z.to_nat (k - 1) + S (Z.to_nat (retries + 1 - k)))%nat by lia.
  rewrite Heq. cbn [attempts].
  replace (k <=? retries + 1) with true by (symmetry; apply Z.leb_le; lia).
  cbn [negb]. rewrite Hlast, Hok. cbn [negb]. rewrite Hread.
  unfold fetches. cbn [result events].
  split; [reflexivity |].
  rewrite fetches_app, Hlen. simpl. lia.
Qed.

(** The statement above for the responses 500, 500, 200 under a budget of
    two retries: three transport calls, and the value of the third. *)
Lemma request_succeeds_at_witness :
  let resp (st : Z) : Response nat :=
    {| resp_status := st; statusText := ""; headers := [];
       errorJson := None; read := fun _ => inr 7%nat |} in
  let c := {| apiKey := "k"; timeout := 30000; maxRetries := 2;
              lastRateLimit := None |} in
  let config := {| cfg_timeout := None; cfg_retries := None;
                   responseType := None |} in
  let r :=
    request c config
      (fun j => if j <=? 2 then inr (resp 500) else inr (resp 200)) in
  result r = inr 7%nat /\ fetches r = 3%nat.
Proof.
  intros resp c config.
  apply (request_succeeds_at c config
           (fun j => if j <=? 2 then inr (resp 500) else inr (resp 200))
           3 (resp 200) 7%nat).
  - simpl; lia.
  - intros j Hj. cbn [nullish responseType].
    replace (j <=? 2) with true by (symmetry; apply Z.leb_le; lia).
    right; left. simpl; lia.
  - reflexivity.
  - reflexivity.
  - reflexivity.
Defined.

(** X7. The error thrown for a response is built from that very response,
    unless its body is the JSON value [null]: when the attempts before the
    [k]-th are retried ones and the [k]-th brings a non-2xx response,
    [request] ends after exactly [k] transport calls in two cases.  With a
    body that is not [null], when the response ends the loop (the last
    attempt of the budget, or a status that is neither 429 nor 500 or
    more): it throws what the factory makes of that response.  With the
    body [null], on the last attempt of the budget: it throws the raw
    [TypeError] of [fromResponse]. *)
Theorem request_throws_last_response {T : Type}
    (c : HttpClient) (config : RequestConfig)
    (transport : Z -> Outcome T) (k : Z) (response : Response T) :
  let retries := nullish (cfg_retries config) (maxRetries c) in
  let rt := nullish (responseType config) json in
  1 <= k <= retries + 1 ->
  (forall j, 1 <= j < k -> retried rt (transport j)) ->
  transport k = inr response ->
  ok response = false ->
  let r := request c config transport in
  (forall body : ErrorBody,
     safeParseJson response = JsonValue body ->
     k = retries + 1 \/
     (resp_status response <> 429 /\ resp_status response < 500) ->
     result r =
       inl (ThrowHisab
              (fromResponse (resp_status response) body
                 (Some (headers response)))) /\
     fetches r = Z.to_nat k) /\
  (safeParseJson response = JsonNull ->
   k = retries + 1 ->
   result r = inl (ThrowRaw nullBodyError) /\
   fetches r = Z.to_nat k).
Proof.
  intros retries rt Hk Hretried Hlast Hok r.
  unfold r, request. fold retries. fold rt.
  destruct (attempts_reach transport (retries + 1)
              (nullish (cfg_timeout config) (timeout c)) rt k
              ltac:(lia) Hretried (Z.to_nat (k - 1))
              (S (Z.to_nat (retries + 1 - k))) 1 None c [])
    as (le & c' & log' & Heq & Hlen); try lia.
  replace (Z.to_nat (retries + 1))
    with (Z.to_nat (k - 1) + S (Z.to_nat (retries + 1 - k)))%nat by lia.
  rewrite Heq. cbn [attempts].
  replace (k <=? retries + 1) with true by (symmetry; apply Z.leb_le; lia).
  cbn [negb]. rewrite Hlast, Hok. cbn [negb].
  assert (Hcount :
    List.length (filter isFetch (log' ++ [Fetch k])) = Z.to_nat k).
  { rewrite fetches_app, Hlen. simpl. lia. }
  split.
  - intros body Hbody Hend. rewrite Hbody. cbn [fromResponseUnchecked].
    rewrite instanceOf_fromResponse_RateLimitError.
    destruct ((400 <=? resp_status response)
              && (resp_status response <? 500)
              && negb (resp_status response =? 429))%bool;
      [unfold fetches; cbn [result events];
       split; [reflexivity | exact Hcount] |].
    destruct Hend as [-> | [Hn429 Hlt]].
    + rewrite Z.ltb_irrefl, !andb_false_r.
      unfold fetches; cbn [result events].
      split; [reflexivity | exact Hcount].
    + replace (resp_status response =? 429) with false
        by (symmetry; apply Z.eqb_neq; lia).
      replace (500 <=? resp_status response) with false
        by (symmetry; apply Z.leb_gt; lia).
      cbn [andb].
      unfold fetches; cbn [result events].
      split; [reflexivity | exact Hcount].
  - intros Hnull ->. rewrite Hnull. cbn [fromResponseUnchecked].
    rewrite Z.ltb_irrefl.
    unfold fetches; cbn [result events].
    split; [reflexivity | exact Hcount].
Qed.

(** The statement above for a budget of one retry used up by two 429
    responses: a RateLimitError with the [Retry-After] of the second. *)
Lemma request_throws_last_response_witness :
  let resp (after : string) : Response unit :=
    {| resp_status := 429; statusText := "";
       headers := [("Retry-After", after)];
       errorJson := Some (JsonValue {| error := None |});
       read := fun _ => inr tt |} in
  let c := {| apiKey := "k"; timeout := 30000; maxRetries := 1;
              lastRateLimit := None |} in
  let config := {| cfg_timeout := None; cfg_retries := None;
                   responseType := None |} in
  let r :=
    request c config
      (fun j => if j =? 1 then inr (resp "1") else inr (resp "2")) in
  result r =
    inl (ThrowHisab
           (fromResponse 429 {| error := None |}
              (Some [("Retry-After", "2")]))) /\
  fetches r = 2%nat.
Proof.
  intros resp c config.
  refine (proj1 (request_throws_last_response c config
                   (fun j => if j =? 1 then inr (resp "1")
                             else inr (resp "2"))
                   2 (resp "2") _ _ _ _) {| error := None |} _ _).
  - simpl; lia.
  - intros j Hj. assert (j = 1) as -> by lia. left. reflexivity.
  - reflexivity.
  - reflexivity.
  - reflexivity.
  - left. reflexivity.
Defined.

(** X8. A 2xx response whose body cannot be read is handled like a failed
    transport call: on the last attempt of the budget the error of the read
    goes through the end of the [catch] block, so a parse error reaches the
    caller as it is. *)
Theorem request_unreadable_body_on_last_attempt {T : Type}
    (c : HttpClient) (config : RequestConfig)
    (transport : Z -> Outcome T) (response : Response T) (e : JS.Error) :
  let retries := nullish (cfg_retries config) (maxRetries c) in
  let rt := nullish (responseType config) json in
  0 <= retries ->
  (forall j, 1 <= j < retries + 1 -> retried rt (transport j)) ->
  transport (retries + 1) = inr response ->
  ok response = true ->
  read response rt = inl e ->
  let r := request c config transport in
  result r =
    inl (transformError (nullish (cfg_timeout config) (timeout c)) e) /\
  (isTypeError e = false -> JS.name e <> "AbortError" ->
   result r = inl (ThrowRaw e)) /\
  fetches r = Z.to_nat (retries + 1).
Proof.
  intros retries rt Hbudget Hretried Hlast Hok Hread r.
  assert (Hrun :
    result r =
      inl (transformError (nullish (cfg_timeout config) (timeout c)) e) /\
    fetches r = Z.to_nat (retries + 1)).
  { unfold r, request. fold retries. fold rt.
    destruct (attempts_reach transport (retries + 1)
                (nullish (cfg_timeout config) (timeout c)) rt (retries + 1)
                ltac:(lia) Hretried (Z.to_nat retries) 1%nat 1 None c [])
      as (le & c' & log' & Heq & Hlen); try lia.
    replace (Z.to_nat (retries + 1)) with (Z.to_nat retries + 1)%nat by lia.
    rewrite Heq. cbn [attempts].
    rewrite Z.leb_refl, Z.ltb_irrefl. cbn [negb].
    rewrite Hlast, Hok. cbn [negb]. rewrite Hread.
    unfold fetches. cbn [result events]. split; [reflexivity |].
    rewrite fetches_app, Hlen. simpl. lia. }
  destruct Hrun as [Hres Hn].
  split; [exact Hres |]. split; [| exact Hn].
  intros Hte Hname. rewrite Hres. unfold transformError.
  rewrite Hte. cbn [andb].
  replace (String.eqb (JS.name e) "AbortError") with false
    by (symmetry; apply String.eqb_neq; exact Hname).
  reflexivity.
Qed.

Lemma request_unreadable_body_on_last_attempt_witness :
  let syntaxError :=
    {| isTypeError := false; JS.name := "SyntaxError";
       JS.message := "Unexpected token < in JSON at position 0" |} in
  let response : Response unit :=
    {| resp_status := 200; statusText := "OK"; headers := [];
       errorJson := None; read := fun _ => inl syntaxError |} in
  let c := {| apiKey := "k"; timeout := 30000; maxRetries := 0;
              lastRateLimit := None |} in
  let config := {| cfg_timeout := None; cfg_retries := None;
                   responseType := None |} in
  result (request c config (fun _ => inr response)) =
    inl (ThrowRaw syntaxError).
Proof.
  intros syntaxError response c config.
  refine (proj1 (proj2
    (request_unreadable_body_on_last_attempt c config
       (fun _ => inr response) response syntaxError _ _ _ _ _)) _ _).
  - simpl; lia.
  - intros j Hj. simpl in Hj. lia.
  - reflexivity.
  - reflexivity.
  - reflexivity.
  - reflexivity.
  - discriminate.
Defined.

End TransportMore.

Section TransportShape.
Import JS Errors Transport RequestBuild.




(** X10. After a 429 response whose body is not the JSON value [null] the
    wait is the server's: [retryAfter] seconds, which is the [Retry-After]
    header read by [parseInt], or 60 without the header; the backoff is not
    used, and the value of the next attempt is returned.  When the body is
    [null] the [TypeError] of [fromResponse] sends the attempt through the
    [catch] block instead, and the wait is the backoff of attempt 1. *)
Theorem request_waits_retry_after {T : Type}
    (c : HttpClient) (config : RequestConfig) (transport : Z -> Outcome T)
    (limited response : Response T) (v : T) :
  let rt := nullish (responseType config) json in
  1 <= nullish (cfg_retries config) (maxRetries c) ->
  transport 1 = inr limited ->
  resp_status limited = 429 ->
  transport 2 = inr response ->
  ok response = true ->
  read response rt = inr v ->
  let r := request c config transport in
  result r = inr v /\
  events r =
    [Fetch 1;
     match safeParseJson limited with
     | JsonValue _ =>
         SleepRetryAfter
           match get (headers limited) "Retry-After" with
           | Some after => parseInt after
           | None => Int 60
           end
     | JsonNull => SleepBackoff 1
     end;
     Fetch 2].
Proof.
  intros rt Hbudget H1 H429 H2 Hok Hread r. unfold r, request. fold rt.
  set (maxAttempts := nullish (cfg_retries config) (maxRetries c) + 1).
  destruct (Z.to_nat maxAttempts) as [|[|fuel]] eqn:Hfuel; try lia.
  cbn [attempts].
  replace (1 <=? maxAttempts) with true by (symmetry; apply Z.leb_le; lia).
  replace (1 <? maxAttempts) with true by (symmetry; apply Z.ltb_lt; lia).
  cbn [negb]. rewrite H1.
  replace (ok limited) with false by (unfold ok; rewrite H429; reflexivity).
  cbn [negb].
  replace (1 + 1 <=? maxAttempts) with true
    by (symmetry; apply Z.leb_le; lia).
  cbn [negb]. change (1 + 1) with 2.
  destruct (safeParseJson limited) as [|body]; cbn [fromResponseUnchecked].
  - rewrite H2, Hok. cbn [negb]. rewrite Hread. cbn [result events].
    split; reflexivity.
  - rewrite instanceOf_fromResponse_RateLimitError, H429.
    cbn [Z.leb Z.ltb Z.eqb Z.compare Pos.compare Pos.compare_cont Pos.eqb
           negb andb].
    rewrite H2, Hok. cbn [negb].
    rewrite Hread. cbn [result events]. split; [reflexivity |].
    unfold fromResponse.
    cbn [Z.eqb Pos.eqb new_RateLimitError retryAfter nullish].
    cbn [List.app]. do 2 f_equal.
    destruct (get (headers limited) "Retry-After"); reflexivity.
Qed.

Lemma request_waits_retry_after_witness :
  let limited : Response nat :=
    {| resp_status := 429; statusText := "";
       headers := [("retry-after", "30")];
       errorJson := None; read := fun _ => inr 0%nat |} in
  let response : Response nat :=
    {| resp_status := 200; statusText := "OK"; headers := [];
       errorJson := None; read := fun _ => inr 7%nat |} in
  let c := {| apiKey := "k"; timeout := 30000; maxRetries := 3;
              lastRateLimit := None |} in
  let config := {| cfg_timeout := None; cfg_retries := None;
                   responseType := None |} in
  let r :=
    request c config (fun j => if j =? 1 then inr limited else inr response)
  in
  result r = inr 7%nat /\
  events r = [Fetch 1; SleepRetryAfter (Int 30); Fetch 2].
Proof.
  intros limited response c config.
  apply (request_waits_retry_after c config
           (fun j => if j =? 1 then inr limited else inr response)
           limited response 7%nat).
  - simpl; lia.
  - reflexivity.
  - reflexivity.
  - reflexivity.
  - reflexivity.
  - reflexivity.
Defined.

(** X11. The base delay of the backoff after attempt [a] is 1000 ms doubled
    [a - 1] times up to attempt 5 and 30000 ms from attempt 6 on; it lies
    between 1000 and 30000 and never decreases with the attempt. *)
Theorem baseDelay_bounds (a : Z) :
  1 <= a ->
  1000 <= baseDelay a <= 30000 /\
  (a <= 5 -> baseDelay a = 1000 * 2 ^ (a - 1)) /\
  (6 <= a -> baseDelay a = 30000) /\
  (forall b, a <= b -> baseDelay a <= baseDelay b).
Proof.
  intros Ha. unfold baseDelay.
  assert (Hpow : forall x, 1 <= x -> 1 <= 2 ^ (x - 1)).
  { intros x Hx. pose proof (Z.pow_pos_nonneg 2 (x - 1)). lia. }
  pose proof (Hpow a Ha) as Hp.
  split; [| split; [| split]].
  - apply Z.min_case_strong; lia.
  - intros H5.
    assert (2 ^ (a - 1) <= 2 ^ 4) by (apply Z.pow_le_mono_r; lia).
    change (2 ^ 4) with 16 in *. lia.
  - intros H6.
    assert (2 ^ 5 <= 2 ^ (a - 1)) by (apply Z.pow_le_mono_r; lia).
    change (2 ^ 5) with 32 in *. lia.
  - intros b Hb.
    assert (2 ^ (a - 1) <= 2 ^ (b - 1)) by (apply Z.pow_le_mono_r; lia).
    lia.
Qed.

Lemma baseDelay_bounds_witness :
  baseDelay 3 = 1000 * 2 ^ (3 - 1).
Proof.
  exact (proj1 (proj2 (baseDelay_bounds 3 ltac:(lia))) ltac:(lia)).
Defined.

End TransportShape.

(** ** Error taxonomy and request construction *)

Section ErrorsMore.
Import JS Errors Transport RequestBuild.

(** X12. [hasFieldError(f)] holds exactly when some detail names the field
    [f], and [getFieldErrors(f)] holds exactly the messages of these
    details; an error without details has no field errors. *)
Theorem field_errors_characterised (e : HisabError) (f : string) :
  (hasFieldError e f = true <->
   exists d, In d (nullish (details e) []) /\ field d = Some f) /\
  (forall m, In m (getFieldErrors e f) <->
   exists d, In d (nullish (details e) []) /\ field d = Some f /\
             detail_message d = m) /\
  (details e = None -> getFieldErrors e f = []).
Proof.
  assert (Hmatch : forall d : ErrorDetail,
    match field d with Some g => String.eqb g f | None => false end = true
    <-> field d = Some f).
  { intros d. destruct (field d) as [g|]; [| split; discriminate].
    rewrite String.eqb_eq. split; congruence. }
  assert (Hin : forall m, In m (getFieldErrors e f) <->
    exists d, In d (nullish (details e) []) /\ field d = Some f /\
              detail_message d = m).
  { intros m. unfold getFieldErrors. rewrite in_map_iff. split.
    - intros (d & Hm & Hd). apply filter_In in Hd as [Hd Hf].
      exists d. rewrite Hmatch in Hf. auto.
    - intros (d & Hd & Hf & Hm). exists d. split; [exact Hm |].
      apply filter_In. rewrite Hmatch. auto. }
  split; [| split; [exact Hin |]].
  - assert (Hne : forall l : list string,
      (0 < List.length l)%nat <-> exists m, In m l).
    { intros [|m l]; cbn [List.length In]; split.
      - lia.
      - intros (m & []).
      - intros _. exists m. left. reflexivity.
      - lia. }
    unfold hasFieldError. rewrite Nat.ltb_lt, Hne. split.
    + intros (m & Hm). apply Hin in Hm as (d & Hd & Hf & _).
      exists d. auto.
    + intros (d & Hd & Hf). exists (detail_message d).
      apply Hin. exists d. auto.
  - intros Hnone. unfold getFieldErrors. rewrite Hnone. reflexivity.
Qed.

(** X13. What the factory keeps of the body: the raw body always, the code
    of the body or [UNKNOWN_ERROR], and the field-level details only for a
    ValidationError and a generic HisabError; the details of a 401, 403, 404
    or 429 body are dropped. *)
Theorem fromResponse_keeps (st : Z) (body : ErrorBody)
    (h : option Headers) :
  let e := fromResponse st body h in
  response e = Some body /\
  code e = nullish (optChain body info_code) "UNKNOWN_ERROR" /\
  details e =
    if ((st =? 401) || (st =? 403) || (st =? 404) || (st =? 429))%bool
    then None else optChain body info_details.
Proof.
  cbv zeta. unfold fromResponse.
  destruct (Z.eqb_spec st 400) as [-> | ?]; [repeat split |].
  destruct (Z.eqb_spec st 401) as [-> | ?]; [repeat split |].
  destruct (Z.eqb_spec st 403) as [-> | ?]; [repeat split |].
  destruct (Z.eqb_spec st 404) as [-> | ?]; [repeat split |].
  destruct (Z.eqb_spec st 429) as [-> | ?]; repeat split.
Qed.

Lemma wellFormed_fromResponse (st : Z) (body : ErrorBody)
    (h : option Headers) :
  wellFormed (fromResponse st body h).
Proof.
  unfold fromResponse, wellFormed.
  repeat match goal with
         | |- context [Z.eqb st ?k] =>
             destruct (Z.eqb_spec st k);
             [subst; cbn; repeat split; intros; congruence |]
         end.
  cbn. repeat split; intros; congruence.
Qed.

Lemma wellFormed_transformError (requestTimeout : Z) (cause : JS.Error)
    (e : HisabError) :
  transformError requestTimeout cause = ThrowHisab e -> wellFormed e.
Proof.
  unfold transformError.
  destruct (_ && _)%bool;
    [| destruct (String.eqb _ _); [| discriminate]];
    intros [= <-]; unfold wellFormed; cbn;
    repeat split; intros; congruence.
Qed.

Lemma attempts_wellFormed {T : Type} (transport : Z -> Outcome T)
    (maxAttempts requestTimeout : Z) (rt : ResponseType) :
  forall (fuel : nat) (attempt : Z) (lastError : option Thrown)
         (c : HttpClient) (log : list Event) (e : HisabError),
    (forall e', lastError = Some (ThrowHisab e') -> wellFormed e') ->
    result (attempts transport maxAttempts requestTimeout rt fuel attempt
              lastError c log) = inl (ThrowHisab e) ->
    wellFormed e.
Proof.
  assert (Hafter : forall (lastError : option Thrown) (e : HisabError),
    (forall e', lastError = Some (ThrowHisab e') -> wellFormed e') ->
    nullish lastError
      (ThrowHisab
         (new_NetworkError (Some "Request failed after all retries") None))
    = ThrowHisab e -> wellFormed e).
  { intros [th|] e Hle; cbn [nullish].
    - intros ->. apply Hle. reflexivity.
    - intros [= <-]. unfold wellFormed. cbn.
      repeat split; intros; congruence. }
  induction fuel as [|fuel IH]; intros attempt lastError c log e Hle;
    cbn [attempts].
  - cbn [result]. intros [= H]. exact (Hafter _ _ Hle H).
  - destruct (negb (attempt <=? maxAttempts));
      [cbn [result]; intros [= H]; exact (Hafter _ _ Hle H) |].
    assert (Hraw : forall cause : JS.Error,
      forall e', Some (ThrowRaw cause) = Some (ThrowHisab e') ->
                 wellFormed e') by (intros; discriminate).
    assert (Hfrom : forall st body h e',
      Some (ThrowHisab (fromResponse st body h)) = Some (ThrowHisab e') ->
      wellFormed e').
    { intros st body h e' [= <-]. apply wellFormed_fromResponse. }
    destruct (transport attempt) as [cause | response].
    + destruct (attempt <? maxAttempts).
      * apply IH. apply Hraw.
      * cbn [result]. intros [= H].
        exact (wellFormed_transformError _ _ _ H).
    + destruct (safeParseJson response); cbn [fromResponseUnchecked];
        repeat match goal with
               | |- context [if ?b then _ else _] => destruct b
               | |- context [match read ?x ?y with _ => _ end] =>
                   destruct (read x y)
               end;
        try (cbn [result]; intros [= H];
             first [ rewrite <- H; apply wellFormed_fromResponse
                   | exact (wellFormed_transformError _ _ _ H) ]);
        try (apply IH; first [exact Hle | apply Hraw | apply Hfrom]).
Qed.

(** X14. Every error of the hierarchy that [request] throws is one the
    constructors could have made: its name and status are those of its
    class (400, 401, 403, 404, 429, and 0 for NetworkError and
    TimeoutError), a generic HisabError never carries one of these five
    statuses, and only a RateLimitError has a [retryAfter]. *)
Theorem request_throws_wellFormed {T : Type}
    (c : HttpClient) (config : RequestConfig) (transport : Z -> Outcome T)
    (e : HisabError) :
  result (request c config transport) = inl (ThrowHisab e) ->
  wellFormed e.
Proof.
  unfold request. apply attempts_wellFormed. intros e' H. discriminate H.
Qed.

Lemma request_throws_wellFormed_witness :
  let response : Response unit :=
    {| resp_status := 403; statusText := "Forbidden"; headers := [];
       errorJson := None; read := fun _ => inr tt |} in
  let c := {| apiKey := "k"; timeout := 30000; maxRetries := 3;
              lastRateLimit := None |} in
  let config := {| cfg_timeout := None; cfg_retries := None;
                   responseType := None |} in
  wellFormed
    (fromResponse 403
       {| error := Some {| info_code := None;
                           info_message := Some "Forbidden";
                           info_details := None |} |} (Some [])).
Proof.
  intros response c config.
  apply (request_throws_wellFormed c config (fun _ => inr response)).
  reflexivity.
Defined.

Lemma getProp_cons (k k1 v1 : string) (o : JsObject) :
  getProp k ((k1, v1) :: o) =
  if String.eqb k1 k then Some v1 else getProp k o.
Proof.
  unfold getProp. cbn [find fst snd].
  destruct (String.eqb k1 k); reflexivity.
Qed.

Lemma getProp_setProp (k k' v : string) (o : JsObject) :
  getProp k (setProp k' v o) =
  if String.eqb k' k then Some v else getProp k o.
Proof.
  unfold getProp.
  induction o as [|[k1 v1] rest IH]; cbn [setProp find fst snd].
  - destruct (String.eqb k' k); reflexivity.
  - destruct (String.eqb_spec k1 k') as [-> | Hne]; cbn [find fst snd].
    + destruct (String.eqb k' k); reflexivity.
    + destruct (String.eqb_spec k1 k) as [-> | Hne'].
      * destruct (String.eqb_spec k' k); [congruence | reflexivity].
      * exact IH.
Qed.

Lemma getProp_not_key (k : string) (o : JsObject) :
  ~ In k (map fst o) -> getProp k o = None.
Proof.
  unfold getProp. induction o as [|[k1 v1] rest IH]; intros Hn;
    [reflexivity |].
  cbn [find fst snd]. cbn [map fst In] in Hn.
  destruct (String.eqb_spec k1 k); [tauto |]. apply IH. tauto.
Qed.

(** A spread object wins on its own keys and leaves the others alone. *)
Lemma getProp_spread (k : string) (ext : JsObject) :
  NoDup (map fst ext) ->
  forall o : JsObject,
    getProp k (spread o ext) =
    match getProp k ext with
    | Some v => Some v
    | None => getProp k o
    end.
Proof.
  unfold spread.
  induction ext as [|[k1 v1] ext IH]; intros Hnd o; [reflexivity |].
  cbn [fold_left fst snd]. inversion Hnd as [|? ? Hnotin Hnd']; subst.
  rewrite (IH Hnd'), getProp_setProp, getProp_cons.
  destruct (String.eqb_spec k1 k) as [-> | Hne].
  - rewrite (getProp_not_key k ext Hnotin). reflexivity.
  - reflexivity.
Qed.

(** X15. The headers of a request: a header of the call wins over a header
    of the client, which wins over the three built-in ones; names are
    compared exactly, so [Authorization] is the bearer token unless the
    client or the call sets a header of that very name. *)
Theorem requestHeaders_precedence (apiKey : string) (rt : ResponseType)
    (customHeaders headers : JsObject) (k : string) :
  NoDup (map fst customHeaders) ->
  NoDup (map fst headers) ->
  getProp k (requestHeaders apiKey rt customHeaders (Some headers)) =
    match getProp k headers with
    | Some v => Some v
    | None =>
        match getProp k customHeaders with
        | Some v => Some v
        | None =>
            getProp k (requestHeaders apiKey rt [] None)
        end
    end /\
  getProp "Authorization" (requestHeaders apiKey rt [] None) =
    Some ("Bearer " ++ apiKey).
Proof.
  intros Hc Hh. split; [| reflexivity].
  unfold requestHeaders. cbn [nullish].
  rewrite (getProp_spread k headers Hh), (getProp_spread k customHeaders Hc).
  reflexivity.
Qed.

Lemma requestHeaders_precedence_witness :
  getProp "Accept"
    (requestHeaders "key" json [("Accept", "text/csv"); ("X-App", "a")]
       (Some [("X-App", "b")])) = Some "text/csv" /\
  getProp "X-App"
    (requestHeaders "key" json [("Accept", "text/csv"); ("X-App", "a")]
       (Some [("X-App", "b")])) = Some "b".
Proof.
  assert (Hc : NoDup (map fst [("Accept", "text/csv"); ("X-App", "a")])).
  { repeat constructor; simpl; intuition discriminate. }
  assert (Hh : NoDup (map fst [("X-App", "b")])).
  { repeat constructor; simpl; intuition. }
  split.
  - exact (proj1 (requestHeaders_precedence "key" json _ _ "Accept" Hc Hh)).
  - exact (proj1 (requestHeaders_precedence "key" json _ _ "X-App" Hc Hh)).
Defined.

Lemma stripTrailingSlash_app_slash (b : string) :
  stripTrailingSlash (b ++ "/") = b.
Proof.
  induction b as [|c r IH]; [reflexivity |].
  cbn [append stripTrailingSlash].
  destruct (r ++ "/") eqn:E.
  - destruct r; discriminate.
  - rewrite IH. reflexivity.
Qed.

(** X16. A slash at the end of the base URL and a slash at the start of the
    path do not matter: for a base that does not end in a slash and a path
    that does not start with one, the four ways of writing them give the
    same URL, base, slash, path. *)
Theorem fullUrl_slashes (baseUrl path : string) :
  stripTrailingSlash baseUrl = baseUrl ->
  prefix "/" path = false ->
  fullUrl baseUrl path = baseUrl ++ "/" ++ path /\
  fullUrl (baseUrl ++ "/") path = baseUrl ++ "/" ++ path /\
  fullUrl baseUrl ("/" ++ path) = baseUrl ++ "/" ++ path /\
  fullUrl (baseUrl ++ "/") ("/" ++ path) = baseUrl ++ "/" ++ path.
Proof.
  intros Hb Hp. unfold fullUrl, normalizedPath.
  rewrite stripTrailingSlash_app_slash, Hb, Hp.
  assert (Hs : prefix "/" ("/" ++ path) = true).
  { cbn. destruct path; reflexivity. }
  rewrite Hs. repeat split.
Qed.

Lemma fullUrl_slashes_witness :
  fullUrl "https://hisab.ma/api/v1/" "/invoices" =
  "https://hisab.ma/api/v1/invoices".
Proof.
  exact (proj2 (proj2 (proj2
    (fullUrl_slashes "https://hisab.ma/api/v1" "invoices"
       eq_refl eq_refl)))).
Defined.

End ErrorsMore.

(** ** Pagination iterator: what a traversal does for every client *)

Section TraversalFacts.
Import JS Errors Transport Pagination Derived.
Context {T : Type}.
Variable get : Z -> Z -> Thrown + Answer T.

(** The value of [itemsYielded] once a generator in state [gen] has been
    resumed. *)
Local Abbreviation resumed gen w :=
  (match gen with
   | Fresh => 0
   | Suspended _ => itemsYielded (iter w) + 1
   | Finished => itemsYielded (iter w)
   end).

(** The error [e] comes from the request for page [p] with page size [q]:
    the request threw it, or it is the [TypeError] the traversal raises on
    an answer without [meta.pagination] or without an iterable [data]. *)
Local Abbreviation raisedOn p q e :=
  (get p q = inl e \/
   (exists message,
      get p q = inr (Unreadable message) /\
      e = ThrowRaw (typeError (message "total_pages"))) \/
   (exists pg message,
      get p q = inr (NotIterable pg message) /\
      e = ThrowRaw (typeError message))).

(** What the head of the [while] loop leaves behind: the count of yielded
    items is not touched, requests are only added, a yield suspends the
    generator, and a throw comes from the request sent last. *)
Lemma whileLoop_trace (fuel : nat) :
  forall (w w' : World) (s : Step) (g : Generator),
    whileLoop get fuel w = Some (s, g, w') ->
    itemsYielded (iter w') = itemsYielded (iter w) /\
    (exists more, requests w' = (requests w ++ more)%list) /\
    (forall item, s = Yield item -> exists rest, g = Suspended rest) /\
    (forall e, s = Throws e ->
       exists rq p q,
         requests w' = (rq ++ [(p, q)])%list /\ raisedOn p q e).
Proof.
  induction fuel as [|fuel IH]; intros w w' s g; [discriminate |].
  cbn [whileLoop].
  destruct (capReached w).
  { intros [= <- <- <-]. repeat split; try discriminate.
    exists []. symmetry. apply app_nil_r. }
  destruct (get (currentPage (iter (logRequest w _ _))) _)
    as [e | [message | pg message | response]] eqn:Hget.
  { intros [= <- <- <-]. repeat split; try discriminate.
    - eexists. reflexivity.
    - intros e' [= <-]. eexists _, _, _.
      split; [reflexivity | left; exact Hget]. }
  { intros [= <- <- <-]. repeat split; try discriminate.
    - eexists. reflexivity.
    - intros e' [= <-]. eexists _, _, _.
      split; [reflexivity | right; left; eauto]. }
  { intros [= <- <- <-]. repeat split; try discriminate.
    - eexists. reflexivity.
    - intros e' [= <-]. eexists _, _, _.
      split; [reflexivity | right; right; eauto]. }
  assert (Hafter : forall w1 : World,
    itemsYielded (iter w1) = itemsYielded (iter w) ->
    (exists more, requests w1 = (requests w ++ more)%list) ->
    afterPage (whileLoop get fuel) w1 = Some (s, g, w') ->
    itemsYielded (iter w') = itemsYielded (iter w) /\
    (exists more, requests w' = (requests w ++ more)%list) /\
    (forall item, s = Yield item -> exists rest, g = Suspended rest) /\
    (forall e, s = Throws e ->
       exists rq p q,
         requests w' = (rq ++ [(p, q)])%list /\ raisedOn p q e)).
  { intros w1 Hiy (more & Hrq). unfold afterPage.
    destruct (_ >=? _).
    - intros [= <- <- <-]. repeat split; try discriminate; eauto.
    - intros H. apply IH in H. destruct H as (H1 & (more' & H2) & H3 & H4).
      repeat split; [| | exact H3 | exact H4].
      + rewrite H1. exact Hiy.
      + exists (more ++ more')%list. rewrite H2. cbn [setCursor requests].
        rewrite Hrq, app_assoc. reflexivity. }
  unfold forLoop.
  destruct (data response) as [|item rest].
  - apply Hafter; [reflexivity | eexists; reflexivity].
  - destruct (capReached _).
    + apply Hafter; [reflexivity | eexists; reflexivity].
    + intros [= <- <- <-]. repeat split; try discriminate.
      * eexists. reflexivity.
      * intros _ _. eexists. reflexivity.
Qed.

Lemma next_trace (fuel : nat) (gen : Generator) (w w' : World) (s : Step)
    (g : Generator) :
  next get fuel gen w = Some (s, g, w') ->
  itemsYielded (iter w') = resumed gen w /\
  (exists more, requests w' = (requests w ++ more)%list) /\
  (forall item, s = Yield item -> exists rest, g = Suspended rest) /\
  (forall e, s = Throws e ->
     exists rq p q,
       requests w' = (rq ++ [(p, q)])%list /\ raisedOn p q e).
Proof.
  destruct gen as [|rest|]; cbn [next].
  - intros H. apply whileLoop_trace in H. exact H.
  - assert (Hafter : forall w1 : World,
      itemsYielded (iter w1) = itemsYielded (iter w) + 1 ->
      requests w1 = requests w ->
      afterPage (whileLoop get fuel) w1 = Some (s, g, w') ->
      itemsYielded (iter w') = itemsYielded (iter w) + 1 /\
      (exists more, requests w' = (requests w ++ more)%list) /\
      (forall item, s = Yield item -> exists rest, g = Suspended rest) /\
      (forall e, s = Throws e ->
         exists rq p q,
           requests w' = (rq ++ [(p, q)])%list /\ raisedOn p q e)).
    { intros w1 Hiy Hrq. unfold afterPage.
      destruct (_ >=? _).
      - intros [= <- <- <-]. repeat split; try discriminate; [exact Hiy |].
        exists []. rewrite Hrq. symmetry. apply app_nil_r.
      - intros H. apply whileLoop_trace in H.
        destruct H as (H1 & (more' & H2) & H3 & H4).
        repeat split; [| | exact H3 | exact H4].
        + rewrite H1. exact Hiy.
        + exists more'. rewrite H2. cbn [setCursor requests].
          rewrite Hrq. reflexivity. }
    unfold forLoop. destruct rest as [|item rest].
    + apply Hafter; reflexivity.
    + destruct (capReached _).
      * apply Hafter; reflexivity.
      * intros [= <- <- <-]. repeat split; try discriminate.
        -- exists []. symmetry. apply app_nil_r.
        -- intros _ _. eexists. reflexivity.
  - intros [= <- <- <-]. repeat split; try discriminate.
    exists []. symmetry. apply app_nil_r.
Qed.

(** The items pushed so far only sit in front of the result. *)
Lemma toArrayLoop_acc (fuel n : nat) :
  forall (gen : Generator) (w : World) (acc : list T),
    toArrayLoop get n fuel gen w acc =
    match toArrayLoop get n fuel gen w [] with
    | None => None
    | Some (inl e, w') => Some (inl e, w')
    | Some (inr items, w') => Some (inr (acc ++ items)%list, w')
    end.
Proof.
  induction n as [|n IH]; intros gen w acc; [reflexivity |].
  cbn [toArrayLoop].
  destruct (next get fuel gen w) as [[[s g] w1] |]; [| reflexivity].
  destruct s as [item | | e]; [| rewrite app_nil_r; reflexivity
                               | reflexivity].
  rewrite (IH g w1 (acc ++ [item])%list), (IH g w1 ([] ++ [item])%list).
  destruct (toArrayLoop get n fuel g w1 []) as [[[e | items] w'] |];
    try reflexivity.
  rewrite <- app_assoc. reflexivity.
Qed.

Lemma toArrayLoop_trace (fuel n : nat) :
  forall (gen : Generator) (w w' : World) (acc : list T)
         (r : Thrown + list T),
    toArrayLoop get n fuel gen w acc = Some (r, w') ->
    (exists more, requests w' = (requests w ++ more)%list) /\
    (forall e, r = inl e ->
       exists rq p q,
         requests w' = (rq ++ [(p, q)])%list /\ raisedOn p q e).
Proof.
  induction n as [|n IH]; intros gen w w' acc r; [discriminate |].
  cbn [toArrayLoop].
  destruct (next get fuel gen w) as [[[s g] w1] |] eqn:Hnext;
    [| discriminate].
  apply next_trace in Hnext. destruct Hnext as (_ & (more & Hrq) & _ & Hthrow).
  destruct s as [item | | e].
  - intros H. apply IH in H. destruct H as ((more' & Hrq') & Hthrow').
    split; [| exact Hthrow'].
    exists (more ++ more')%list. rewrite Hrq', Hrq, app_assoc. reflexivity.
  - intros [= <- <-]. split; [eauto | discriminate].
  - intros [= <- <-]. split; [eauto |].
    intros e' [= <-]. apply Hthrow. reflexivity.
Qed.

(** X17. When [toArray()] rejects, the error comes from the page request
    sent last, and no request follows it: it is what that request threw,
    or the [TypeError] the traversal raises on its answer, when the answer
    has no [meta.pagination] to read [total_pages] from or no [data] that
    can be iterated. *)
Theorem toArray_error_is_last_request (n fuel : nat) (w w' : World)
    (e : Thrown) :
  toArray get n fuel w = Some (inl e, w') ->
  exists (rq : list (Z * Z)) (p q : Z),
    requests w' = (rq ++ [(p, q)])%list /\
    (get p q = inl e \/
     (exists message,
        get p q = inr (Unreadable message) /\
        e = ThrowRaw (typeError (message "total_pages"))) \/
     (exists pg message,
        get p q = inr (NotIterable pg message) /\
        e = ThrowRaw (typeError message))).
Proof.
  intros H. apply toArrayLoop_trace in H. destruct H as (_ & H).
  apply H. reflexivity.
Qed.

Lemma filter_body (predicate : T -> bool) (fuel : nat) :
  forall (m c q Q : nat) (gen : Generator) (w : World) (acc : list T)
         (r : Thrown + list T) (w' : World),
    (m <= S c)%nat -> (m <= q)%nat -> (m <= Q)%nat ->
    toArrayLoop get m fuel gen w [] = Some (r, w') ->
    match filterNext get predicate q fuel gen w with
    | None => None
    | Some (Yield item, g', w1) =>
        collect (filterNext get predicate Q fuel) c g' w1
          (acc ++ [item])%list
    | Some (Done, _, w1) => Some (inr acc, w1)
    | Some (Throws e, _, w1) => Some (inl e, w1)
    end =
    Some (match r with
          | inl e => inl e
          | inr items => inr (acc ++ filter predicate items)%list
          end, w').
Proof.
  induction m as [|m IH]; intros c q Q gen w acc r w' Hc Hq HQ;
    [discriminate |].
  destruct q as [|q]; [lia |].
  cbn [toArrayLoop filterNext].
  destruct (next get fuel gen w) as [[[s g] w1] |]; [| discriminate].
  destruct s as [item | | e].
  - rewrite toArrayLoop_acc.
    destruct (toArrayLoop get m fuel g w1 []) as [[r0 w0] |] eqn:Hrest;
      [| discriminate].
    assert (Hm : (1 <= m)%nat) by (destruct m; [discriminate Hrest | lia]).
    intros Hr.
    assert (Hr' : r = match r0 with
                      | inl e => inl e
                      | inr items => inr (item :: items)
                      end /\ w' = w0).
    { destruct r0; injection Hr as <- <-; split; reflexivity. }
    destruct Hr' as [-> ->]. clear Hr.
    destruct (predicate item) eqn:Hp.
    + destruct c as [|c]; [lia |]. cbn [collect].
      rewrite (IH c Q Q g w1 (acc ++ [item])%list r0 w0)
        by (lia || exact Hrest).
      destruct r0 as [e | items]; [reflexivity |].
      cbn [filter]. rewrite Hp, <- app_assoc. reflexivity.
    + rewrite (IH c q Q g w1 acc r0 w0) by (lia || exact Hrest).
      destruct r0 as [e | items]; [reflexivity |].
      cbn [filter]. rewrite Hp. reflexivity.
  - intros [= <- <-]. cbn [filter]. rewrite app_nil_r. reflexivity.
  - intros [= <- <-]. reflexivity.
Qed.

(** X18. Draining the generator of [filter(predicate)] gives the items of
    [toArray()] that pass the predicate, in their order, with the same
    requests and the same final state of the iterator; it rejects when
    [toArray()] rejects, with the same error. *)
Theorem filter_collects_filter_of_toArray (predicate : T -> bool)
    (n fuel : nat) (w w' : World) (r : Thrown + list T) :
  toArray get n fuel w = Some (r, w') ->
  collect (filterNext get predicate n fuel) n Fresh w [] =
  Some (match r with
        | inl e => inl e
        | inr items => inr (filter predicate items)
        end, w').
Proof.
  intros H. destruct n as [|n]; [discriminate |]. cbn [collect].
  exact (filter_body predicate fuel (S n) n (S n) (S n) Fresh w [] r w'
           (le_n _) (le_n _) (le_n _) H).
Qed.

Lemma forEachLoop_fold {St : Type} (callback : St -> T -> Thrown + St)
    (fuel n : nat) :
  forall (gen : Generator) (w w' : World) (s : St) (items : list T),
    toArrayLoop get n fuel gen w [] = Some (inr items, w') ->
    exists w'' : World,
      forEachLoop get callback n fuel gen w s =
      Some (foldCallback callback s items, w'') /\
      (forall s', foldCallback callback s items = inr s' -> w'' = w').
Proof.
  induction n as [|n IH]; intros gen w w' s items; [discriminate |].
  cbn [toArrayLoop forEachLoop].
  destruct (next get fuel gen w) as [[[st g] w1] |]; [| discriminate].
  destruct st as [item | | e].
  - rewrite toArrayLoop_acc.
    destruct (toArrayLoop get n fuel g w1 []) as [[[e | items0] w0] |]
      eqn:Hrest; try discriminate.
    intros [= <- <-]. cbn [List.app foldCallback].
    destruct (callback s item) as [e | s1].
    + exists w1. split; [reflexivity | discriminate].
    + apply (IH g w1 w0 s1 items0 Hrest).
  - intros [= <- <-]. exists w1. split; [reflexivity |]. reflexivity.
  - discriminate.
Qed.

(** X19. [forEach(callback)] is a fold of the callback over the items of
    [toArray()], stopped at the first call that throws; when no call
    throws it has sent the requests of [toArray()] and leaves the iterator
    in the same state. *)
Theorem forEach_folds_toArray {St : Type}
    (callback : St -> T -> Thrown + St) (n fuel : nat) (w w' : World)
    (s : St) (items : list T) :
  toArray get n fuel w = Some (inr items, w') ->
  exists w'' : World,
    forEach get callback n fuel w s =
    Some (foldCallback callback s items, w'') /\
    (forall s', foldCallback callback s items = inr s' -> w'' = w').
Proof.
  intros H. exact (forEachLoop_fold callback fuel n Fresh w w' s items H).
Qed.

End TraversalFacts.

Section MappingFacts.
Import JS Errors Transport Pagination Derived.
Context {T U : Type}.
Variable get : Z -> Z -> Thrown + Answer T.

Lemma map_body (mapper : T -> U) (fuel n : nat) :
  forall (gen : Generator) (w w' : World) (acc : list U)
         (r : Thrown + list T),
    toArrayLoop get n fuel gen w [] = Some (r, w') ->
    collect (mapNext get mapper fuel) n gen w acc =
    Some (match r with
          | inl e => inl e
          | inr items => inr (acc ++ map mapper items)%list
          end, w').
Proof.
  induction n as [|n IH]; intros gen w w' acc r; [discriminate |].
  cbn [toArrayLoop collect]. unfold mapNext at 1.
  destruct (next get fuel gen w) as [[[s g] w1] |]; [| discriminate].
  destruct s as [item | | e].
  - rewrite (toArrayLoop_acc get).
    destruct (toArrayLoop get n fuel g w1 []) as [[r0 w0] |] eqn:Hrest;
      [| discriminate].
    intros Hr. rewrite (IH g w1 w0 (acc ++ [mapper item])%list r0 Hrest).
    destruct r0 as [e | items]; injection Hr as <- <-; [reflexivity |].
    cbn [List.app map]. rewrite <- app_assoc. reflexivity.
  - intros [= <- <-]. cbn [map]. rewrite app_nil_r. reflexivity.
  - intros [= <- <-]. reflexivity.
Qed.

(** X20. Draining the generator of [map(mapper)] gives the mapper applied
    to each item of [toArray()], in order, with the same requests and the
    same final state of the iterator; it rejects when [toArray()] rejects,
    with the same error. *)
Theorem map_collects_map_of_toArray (mapper : T -> U) (n fuel : nat)
    (w w' : World) (r : Thrown + list T) :
  toArray get n fuel w = Some (r, w') ->
  collect (mapNext get mapper fuel) n Fresh w [] =
  Some (match r with
        | inl e => inl e
        | inr items => inr (map mapper items)
        end, w').
Proof.
  intros H. exact (map_body mapper fuel n Fresh w w' [] r H).
Qed.

End MappingFacts.

(** ** Pagination iterator: the cap *)

Section CappedFacts.
Import JS Errors Transport Pagination Derived.
Context {T : Type}.
Variable get : Z -> Z -> Thrown + Answer T.
Variable m : Z.
Hypothesis m_pos : 0 < m.

Local Abbreviation resumed gen w :=
  (match gen with
   | Fresh => 0
   | Suspended _ => itemsYielded (iter w) + 1
   | Finished => itemsYielded (iter w)
   end).

Local Abbreviation capped :=
  (fun sgw : Step * Generator * World =>
     (fst sgw, withMaxItems (Some m) (snd sgw))).

Lemma capReached_below (w : World) :
  itemsYielded (iter w) < m ->
  capReached (withMaxItems (Some m) w) = false.
Proof.
  intros H. unfold capReached.
  cbn [withMaxItems iter options maxItems itemsYielded].
  apply andb_false_iff. right. rewrite Z.geb_leb. apply Z.leb_gt. exact H.
Qed.

Lemma capReached_at (w : World) :
  m <= itemsYielded (iter w) ->
  capReached (withMaxItems (Some m) w) = true.
Proof.
  intros H. unfold capReached.
  cbn [withMaxItems iter options maxItems itemsYielded].
  apply andb_true_iff. split.
  - apply negb_true_iff. apply Z.eqb_neq. lia.
  - rewrite Z.geb_leb. apply Z.leb_le. exact H.
Qed.

(** Below the cap the [for] loop over a page takes the steps it takes
    without a cap. *)
Lemma forLoop_below_cap
    (k kc : World -> option (Step * Generator * World))
    (items : list T) (w : World) :
  itemsYielded (iter w) < m ->
  (forall w1 : World,
     itemsYielded (iter w1) = itemsYielded (iter w) ->
     kc (withMaxItems (Some m) w1) =
     option_map capped (k (withMaxItems None w1))) ->
  forLoop kc items (withMaxItems (Some m) w) =
  option_map capped (forLoop k items (withMaxItems None w)).
Proof.
  intros Hiy Hk. unfold forLoop. rewrite (capReached_below w Hiy).
  replace (capReached (withMaxItems None w)) with false by reflexivity.
  assert (Hafter :
    afterPage kc (withMaxItems (Some m) w) =
    option_map capped (afterPage k (withMaxItems None w))).
  { unfold afterPage. cbn [withMaxItems iter currentPage totalPages].
    destruct (_ >=? _); [reflexivity |].
    apply (Hk (setCursor w (currentPage (iter w) + 1) (totalPages (iter w))
                 (itemsYielded (iter w)))).
    reflexivity. }
  destruct items as [|item rest]; [exact Hafter | reflexivity].
Qed.

Lemma whileLoop_below_cap (fuel : nat) :
  forall w : World,
    itemsYielded (iter w) < m ->
    whileLoop get fuel (withMaxItems (Some m) w) =
    option_map capped (whileLoop get fuel (withMaxItems None w)).
Proof.
  induction fuel as [|fuel IH]; intros w Hiy; [reflexivity |].
  cbn [whileLoop]. rewrite (capReached_below w Hiy).
  replace (capReached (withMaxItems None w)) with false by reflexivity.
  cbn [withMaxItems logRequest iter currentPage perPage].
  destruct (get (currentPage (iter w)) (perPage (iter w)))
    as [e | [message | pg message | response]]; [reflexivity .. |].
  apply (forLoop_below_cap (whileLoop get fuel) (whileLoop get fuel)
           (data response)
           (setCursor (logRequest w (currentPage (iter w)) (perPage (iter w)))
              (currentPage (iter w))
              (Some (total_pages (pagination response)))
              (itemsYielded (iter w)))).
  - exact Hiy.
  - intros w1 Hw1. apply IH. rewrite Hw1. exact Hiy.
Qed.

Lemma next_below_cap (fuel : nat) (gen : Generator) (w : World) :
  resumed gen w < m ->
  next get fuel gen (withMaxItems (Some m) w) =
  option_map capped (next get fuel gen (withMaxItems None w)).
Proof.
  intros Hiy. destruct gen as [|rest|]; cbn [next].
  - apply (whileLoop_below_cap fuel
             (setCursor w (nullish (opt_page (options (iter w))) 1) None 0)).
    exact m_pos.
  - apply (forLoop_below_cap (whileLoop get fuel) (whileLoop get fuel) rest
             (setCursor w (currentPage (iter w)) (totalPages (iter w))
                (itemsYielded (iter w) + 1))).
    + exact Hiy.
    + intros w1 Hw1. apply whileLoop_below_cap. rewrite Hw1. exact Hiy.
  - reflexivity.
Qed.

(** At the cap the generator finishes without a request. *)
Lemma next_at_cap (fuel : nat) (gen : Generator) (w : World) :
  (0 < fuel)%nat ->
  m <= resumed gen w ->
  exists wc : World,
    next get fuel gen (withMaxItems (Some m) w) =
    Some (Done, Finished, wc) /\
    requests wc = requests w.
Proof.
  intros Hfuel Hiy. destruct gen as [|rest|]; cbn [next].
  - lia.
  - set (w1 := setCursor w (currentPage (iter w)) (totalPages (iter w))
                 (itemsYielded (iter w) + 1)).
    assert (Hafter : exists wc : World,
      afterPage (whileLoop get fuel) (withMaxItems (Some m) w1) =
      Some (Done, Finished, wc) /\ requests wc = requests w).
    { unfold afterPage. destruct (_ >=? _).
      - eexists. split; reflexivity.
      - destruct fuel as [|fuel]; [lia |]. cbn [whileLoop].
        replace (capReached _) with true
          by (symmetry;
              exact (capReached_at
                       (setCursor w1 (currentPage (iter w1) + 1)
                          (totalPages (iter w1)) (itemsYielded (iter w1)))
                       Hiy)).
        eexists. split; reflexivity. }
    unfold forLoop.
    replace (capReached _) with true
      by (symmetry; exact (capReached_at w1 Hiy)).
    destruct rest; exact Hafter.
  - eexists. split; reflexivity.
Qed.

Lemma uncapped_world (w : World) :
  maxItems (options (iter w)) = None -> withMaxItems None w = w.
Proof.
  intros H. rewrite <- H. destruct w as [[[op opp mi] pp cp tp iy] rq].
  reflexivity.
Qed.

Lemma toArrayLoop_capped (fuel n : nat) :
  (0 < fuel)%nat ->
  forall (gen : Generator) (w w' : World) (items : list T),
    maxItems (options (iter w)) = None ->
    resumed gen w <= m ->
    toArrayLoop get n fuel gen w [] = Some (inr items, w') ->
    exists wc : World,
      toArrayLoop get n fuel gen (withMaxItems (Some m) w) [] =
      Some (inr (firstn (Z.to_nat (m - resumed gen w)) items), wc) /\
      exists later, requests w' = (requests wc ++ later)%list.
Proof.
  intros Hfuel.
  induction n as [|n IH]; intros gen w w' items Hw Hiy; [discriminate |].
  destruct (Z.eq_dec (resumed gen w) m) as [Hat | Hbelow].
  - intros H. apply (toArrayLoop_trace get) in H.
    destruct H as ((later & Hlater) & _).
    destruct (next_at_cap fuel gen w Hfuel) as (wc & Hnext & Hrq); [lia |].
    exists wc. cbn [toArrayLoop]. rewrite Hnext. split.
    + rewrite Hat, Z.sub_diag. reflexivity.
    + exists later. rewrite Hrq. exact Hlater.
  - cbn [toArrayLoop].
    rewrite next_below_cap by lia. rewrite (uncapped_world w Hw).
    destruct (next get fuel gen w) as [[[s g] w1] |] eqn:Hnext;
      [| discriminate].
    pose proof (next_options get fuel gen w w1 s g Hnext) as Hopt.
    apply (next_trace get) in Hnext.
    destruct Hnext as (Hiy1 & _ & Hsusp & _).
    cbn [option_map fst snd].
    destruct s as [item | | e]; [| | discriminate].
    + destruct (Hsusp item eq_refl) as (rest & ->).
      rewrite (toArrayLoop_acc get).
      destruct (toArrayLoop get n fuel (Suspended rest) w1 [])
        as [[[e | items0] w0] |] eqn:Hrest; try discriminate.
      intros [= <- <-].
      destruct (IH (Suspended rest) w1 w0 items0) as (wc & Hc & Hlater);
        [rewrite Hopt; exact Hw | rewrite Hiy1; lia | exact Hrest |].
      exists wc. split; [| exact Hlater].
      rewrite (toArrayLoop_acc get), Hc. cbn [List.app].
      rewrite Hiy1.
      replace (Z.to_nat (m - resumed gen w))
        with (S (Z.to_nat (m - (resumed gen w + 1)))) by lia.
      reflexivity.
    + intros [= <- <-]. exists (withMaxItems (Some m) w1). split.
      * rewrite firstn_nil. reflexivity.
      * exists []. symmetry. apply app_nil_r.
Qed.

(** Two clients that answer every page request alike drive the same
    traversal. *)
Lemma whileLoop_ext (other : Z -> Z -> Thrown + Answer T) (fuel : nat) :
  (forall p q, other p q = get p q) ->
  forall w : World, whileLoop other fuel w = whileLoop get fuel w.
Proof.
  intros Hsame. induction fuel as [|fuel IH]; intros w; [reflexivity |].
  cbn [whileLoop]. rewrite Hsame.
  destruct (capReached w); [reflexivity |].
  destruct (get _ _) as [e | [message | pg message | response]];
    try reflexivity.
  unfold forLoop, afterPage.
  destruct (data response) as [|item rest];
    [| destruct (capReached _); [| reflexivity]];
    (destruct (_ >=? _); [reflexivity | apply IH]).
Qed.

Lemma toArrayLoop_ext (other : Z -> Z -> Thrown + Answer T)
    (n fuel : nat) :
  (forall p q, other p q = get p q) ->
  forall (gen : Generator) (w : World) (acc : list T),
    toArrayLoop other n fuel gen w acc = toArrayLoop get n fuel gen w acc.
Proof.
  intros Hsame. induction n as [|n IH]; intros gen w acc; [reflexivity |].
  cbn [toArrayLoop].
  assert (Hnext : next other fuel gen w = next get fuel gen w).
  { destruct gen as [|rest|]; cbn [next].
    - apply whileLoop_ext. exact Hsame.
    - unfold forLoop, afterPage.
      destruct rest as [|item rest];
        [| destruct (capReached _); [| reflexivity]];
        (destruct (_ >=? _);
         [reflexivity | apply whileLoop_ext; exact Hsame]).
    - reflexivity. }
  rewrite Hnext.
  destruct (next get fuel gen w) as [[[s g] w1] |]; [| reflexivity].
  destruct s; try reflexivity. apply IH.
Qed.

(** X21. A cap [maxItems = m], [m > 0], for every service that answers the
    page requests of the capped iterator as it answers those of the
    uncapped one (the queries differ in their [maxItems] entry): when the
    traversal without the cap collects [items], the traversal with the cap
    collects the first [m] of them, and the pages it requests, with their
    page sizes, are the first ones requested without the cap.  [get] is the
    client of the uncapped iterator, [capped] that of the capped one. *)
Theorem maxItems_caps_toArray (capped : Z -> Z -> Thrown + Answer T)
    (n fuel : nat) (w w' : World) (items : list T) :
  (forall p q, capped p q = get p q) ->
  (0 < fuel)%nat ->
  maxItems (options (iter w)) = None ->
  toArray get n fuel w = Some (inr items, w') ->
  exists wc : World,
    toArray capped n fuel (withMaxItems (Some m) w) =
    Some (inr (firstn (Z.to_nat m) items), wc) /\
    exists later, requests w' = (requests wc ++ later)%list.
Proof.
  intros Hsame Hfuel Hw H.
  destruct (toArrayLoop_capped fuel n Hfuel Fresh w w' items Hw
              (Z.lt_le_incl 0 m m_pos) H) as (wc & Hc & Hlater).
  exists wc. rewrite Z.sub_0_r in Hc. split; [| exact Hlater].
  unfold toArray. rewrite (toArrayLoop_ext capped n fuel Hsame). exact Hc.
Qed.

End CappedFacts.

(** ** Pagination iterator: the cap over a served data set *)

Section CappedServed.
Import JS Errors Transport Pagination Derived.
Context {T : Type}.
Variable items : list T.
Variable pp m : Z.
Hypothesis pp_pos : 0 < pp.
Hypothesis m_pos : 0 < m.
Variable o : AutoPaginateOptions.
Hypothesis o_capped : maxItems o = Some m.

Local Abbreviation W o pp cp tp iy rq :=
  {| iter := {| options := o; perPage := pp; currentPage := cp;
                totalPages := tp; itemsYielded := iy |};
     requests := rq |}.

Local Abbreviation L := (Z.of_nat (List.length items)).
Local Abbreviation P := ((Z.of_nat (List.length items) + pp - 1) / pp).

Lemma capReached_capped (cp : Z) (tp : option Z) (iy : Z)
    (rq : list (Z * Z)) :
  capReached (W o pp cp tp iy rq) = (iy >=? m).
Proof.
  unfold capReached. cbn [iter options itemsYielded]. rewrite o_capped.
  destruct (Z.eqb_spec m 0); [lia | reflexivity].
Qed.

(** Items of a page that fit under the cap: one [next()] each, no
    request. *)
Lemma drain_under_cap (get : Z -> Z -> Thrown + Answer T)
    (pre : list T) :
  forall (post : list T) (n fuel : nat) (cp : Z) (tp : option Z) (iy : Z)
         (rq : list (Z * Z)) (acc : list T),
    iy + 1 + Z.of_nat (List.length pre) <= m ->
    toArrayLoop get (List.length pre + n) fuel (Suspended (pre ++ post))
      (W o pp cp tp iy rq) acc =
    toArrayLoop get n fuel (Suspended post)
      (W o pp cp tp (iy + Z.of_nat (List.length pre)) rq)
      (acc ++ pre)%list.
Proof.
  induction pre as [|x pre IH]; intros post n fuel cp tp iy rq acc Hfit.
  - cbn [List.length Nat.add List.app]. rewrite Z.add_0_r, app_nil_r.
    reflexivity.
  - cbn [List.length] in Hfit.
    cbn [List.length Nat.add List.app toArrayLoop next forLoop iter
           options perPage currentPage totalPages itemsYielded].
    rewrite setCursor_world, capReached_capped.
    replace (iy + 1 >=? m) with false
      by (symmetry; rewrite Z.geb_leb; apply Z.leb_gt; lia).
    rewrite IH by lia. rewrite <- app_assoc. cbn [List.app].
    replace (iy + 1 + Z.of_nat (List.length pre))
      with (iy + Z.of_nat (S (List.length pre))) by lia.
    reflexivity.
Qed.

(** With the cap reached the next [next()] finishes the generator and
    sends nothing, wherever in the page it stands. *)
Lemma stop_at_cap (get : Z -> Z -> Thrown + Answer T)
    (post : list T) (n fuel : nat) (cp : Z) (tp : option Z)
    (rq : list (Z * Z)) (acc : list T) :
  (0 < fuel)%nat ->
  exists w' : World,
    toArrayLoop get (S n) fuel (Suspended post)
      (W o pp cp tp (m - 1) rq) acc = Some (inr acc, w') /\
    requests w' = rq.
Proof.
  intros Hfuel. destruct fuel as [|fuel]; [lia |].
  cbn [toArrayLoop next iter options perPage currentPage totalPages
         itemsYielded].
  rewrite setCursor_world.
  assert (Hcap : forall cp', capReached (W o pp cp' tp (m - 1 + 1) rq) = true).
  { intros cp'. rewrite capReached_capped, Z.geb_leb. apply Z.leb_le. lia. }
  assert (Hafter : exists w' : World,
    match afterPage (whileLoop get (S fuel)) (W o pp cp tp (m - 1 + 1) rq)
    with
    | Some (Yield item, g', w') =>
        toArrayLoop get n (S fuel) g' w' (acc ++ [item])%list
    | Some (Done, _, w') => Some (inr acc, w')
    | Some (Throws e, _, w') => Some (inl e, w')
    | None => None
    end = Some (inr acc, w') /\ requests w' = rq).
  { unfold afterPage. cbn [iter currentPage totalPages itemsYielded].
    destruct (_ >=? _).
    - eexists. split; reflexivity.
    - rewrite setCursor_world. cbn [whileLoop]. rewrite Hcap.
      eexists. split; reflexivity. }
  unfold forLoop. rewrite Hcap. destruct post; exact Hafter.
Qed.

Lemma full_page_before_last (q : Z) :
  0 <= q -> q + 1 < P ->
  List.length (firstn (Z.to_nat pp) (skipn (Z.to_nat (q * pp)) items)) =
  Z.to_nat pp.
Proof.
  intros Hq Hlast. rewrite length_firstn, length_skipn.
  pose proof (Z.div_mod (L + pp - 1) pp ltac:(lia)).
  pose proof (Z.mod_pos_bound (L + pp - 1) pp pp_pos). nia.
Qed.

Lemma nonempty_page_up_to_last (q : Z) :
  0 <= q -> q < P ->
  (0 < List.length (firstn (Z.to_nat pp) (skipn (Z.to_nat (q * pp)) items)))%nat.
Proof.
  intros Hq Hlast. rewrite length_firstn, length_skipn.
  pose proof (Z.div_mod (L + pp - 1) pp ltac:(lia)).
  pose proof (Z.mod_pos_bound (L + pp - 1) pp pp_pos). nia.
Qed.

Lemma nothing_after_last_page :
  skipn (Z.to_nat (P * pp)) items = [].
Proof.
  apply skipn_all2.
  pose proof (Z.div_mod (L + pp - 1) pp ltac:(lia)).
  pose proof (Z.mod_pos_bound (L + pp - 1) pp pp_pos). nia.
Qed.

Lemma pages_for_nothing (c : Z) :
  c <= 0 -> - pp < c -> (c + pp - 1) / pp <= 0.
Proof.
  intros Hc Hlow.
  pose proof (Z.div_mod (c + pp - 1) pp ltac:(lia)).
  pose proof (Z.mod_pos_bound (c + pp - 1) pp pp_pos). nia.
Qed.

Lemma pages_for_one_more_page (c : Z) :
  (c - pp + pp - 1) / pp = (c + pp - 1) / pp - 1.
Proof.
  replace (c + pp - 1) with (c - pp + pp - 1 + 1 * pp) by lia.
  rewrite Z.div_add by lia. lia.
Qed.

Lemma pages_for_something (c : Z) :
  1 <= c -> 1 <= (c + pp - 1) / pp.
Proof.
  intros Hc.
  pose proof (Z.div_mod (c + pp - 1) pp ltac:(lia)).
  pose proof (Z.mod_pos_bound (c + pp - 1) pp pp_pos). nia.
Qed.

(** From the first item of page [q] on, [j] pages before the last: the
    items that fit under the cap, and a request for each further page that
    holds one of them. *)
Lemma capped_from_page (j : nat) :
  forall (q y : Z) (rq : list (Z * Z)) (acc : list T) (n fuel : nat)
         (x : T) (rest : list T),
    1 <= q ->
    P - q = Z.of_nat j ->
    0 <= y < m ->
    firstn (Z.to_nat pp) (skipn (Z.to_nat ((q - 1) * pp)) items) =
      x :: rest ->
    (List.length rest +
     List.length (skipn (Z.to_nat (q * pp)) items) < n)%nat ->
    (0 < fuel)%nat ->
    exists w' : World,
      toArrayLoop (servePage items) n fuel (Suspended rest)
        (W o pp q (Some P) y rq) acc =
      Some (inr (acc ++
                 firstn (Z.to_nat (m - y - 1))
                   (rest ++ skipn (Z.to_nat (q * pp)) items))%list, w') /\
      requests w' =
      (rq ++ pagesFrom (q + 1)
               (Z.to_nat
                  (Z.min (Z.of_nat j)
                     ((m - y - 1 - Z.of_nat (List.length rest) + pp - 1)
                      / pp))) pp)%list.
Proof.
  induction j as [|j IH];
    intros q y rq acc n fuel x rest Hq Hj Hy Hpage Hn Hfuel.
  all: assert (Hlen : (S (List.length rest) <= Z.to_nat pp)%nat)
         by (apply (f_equal (@List.length T)) in Hpage;
             rewrite length_firstn in Hpage; cbn [List.length] in Hpage;
             lia).
  all: destruct (Z_lt_le_dec (m - y - 1) (Z.of_nat (List.length rest)))
         as [Hinside | Hwhole].
  (* the cap falls inside page [q] *)
  1, 3:
    assert (Hpre : List.length (firstn (Z.to_nat (m - y - 1)) rest) =
                   Z.to_nat (m - y - 1))
      by (rewrite length_firstn; lia);
    pose proof (drain_under_cap (servePage items)
                  (firstn (Z.to_nat (m - y - 1)) rest)
                  (skipn (Z.to_nat (m - y - 1)) rest)
                  (S (n - Z.to_nat (m - y - 1) - 1)) fuel q (Some P) y rq
                  acc ltac:(lia)) as Hdrain;
    rewrite firstn_skipn, Hpre in Hdrain;
    replace (Z.to_nat (m - y - 1) + S (n - Z.to_nat (m - y - 1) - 1))%nat
      with n in Hdrain by lia;
    replace (y + Z.of_nat (Z.to_nat (m - y - 1))) with (m - 1) in Hdrain
      by lia;
    rewrite Hdrain;
    destruct (stop_at_cap (servePage items)
                (skipn (Z.to_nat (m - y - 1)) rest)
                (n - Z.to_nat (m - y - 1) - 1) fuel q (Some P) rq
                (acc ++ firstn (Z.to_nat (m - y - 1)) rest)%list Hfuel)
      as (w' & Hrun & Hrq);
    exists w'; split;
    [ rewrite Hrun, firstn_app;
      replace (Z.to_nat (m - y - 1) - List.length rest)%nat with 0%nat
        by lia;
      cbn [firstn]; rewrite app_nil_r; reflexivity
    | rewrite Hrq;
      pose proof (pages_for_nothing
                    (m - y - 1 - Z.of_nat (List.length rest))
                    ltac:(lia) ltac:(lia));
      replace (Z.to_nat _) with 0%nat by lia;
      cbn [pagesFrom seq map]; rewrite app_nil_r; reflexivity ].
  (* page [q] is the last one and fits under the cap *)
  - assert (q = P) by lia. subst q.
    rewrite nothing_after_last_page in *. rewrite app_nil_r in *.
    pose proof (drain_under_cap (servePage items) rest []
                  (S (n - List.length rest - 1)) fuel P (Some P) y rq acc
                  ltac:(lia)) as Hdrain.
    rewrite app_nil_r in Hdrain.
    replace (List.length rest + S (n - List.length rest - 1))%nat
      with n in Hdrain by lia.
    rewrite Hdrain.
    cbn [toArrayLoop next forLoop iter currentPage totalPages
           itemsYielded].
    rewrite setCursor_world. unfold afterPage.
    cbn [iter currentPage totalPages itemsYielded nullish].
    replace (P >=? P) with true
      by (symmetry; rewrite Z.geb_leb; apply Z.leb_refl).
    eexists. split.
    + rewrite firstn_all2 by lia. reflexivity.
    + cbn [requests]. replace (Z.to_nat _) with 0%nat by lia.
      cbn [pagesFrom seq map]. rewrite app_nil_r. reflexivity.
  (* page [q] fits under the cap and is not the last one *)
  - pose proof (drain_under_cap (servePage items) rest []
                  (S (n - List.length rest - 1)) fuel q (Some P) y rq acc
                  ltac:(lia)) as Hdrain.
    rewrite app_nil_r in Hdrain.
    replace (List.length rest + S (n - List.length rest - 1))%nat
      with n in Hdrain by lia.
    rewrite Hdrain.
    destruct fuel as [|fuel]; [lia |].
    cbn [toArrayLoop next forLoop iter currentPage totalPages
           itemsYielded].
    rewrite setCursor_world. unfold afterPage.
    cbn [iter currentPage totalPages itemsYielded nullish].
    replace (q >=? P) with false
      by (symmetry; rewrite Z.geb_leb; apply Z.leb_gt; lia).
    rewrite setCursor_world. cbn [whileLoop].
    rewrite capReached_capped.
    destruct (Z.eq_dec (m - y - 1) (Z.of_nat (List.length rest)))
      as [Hexact | Hmore].
    + (* the cap falls on the end of page [q] *)
      replace (y + Z.of_nat (List.length rest) + 1 >=? m) with true
        by (symmetry; rewrite Z.geb_leb; apply Z.leb_le; lia).
      eexists. split.
      * rewrite firstn_app.
        replace (Z.to_nat (m - y - 1) - List.length rest)%nat with 0%nat
          by lia.
        rewrite firstn_all2 by lia. cbn [firstn]. rewrite app_nil_r.
        reflexivity.
      * cbn [requests].
        replace ((m - y - 1 - Z.of_nat (List.length rest) + pp - 1) / pp)
          with 0 by (rewrite Hexact, Z.sub_diag; symmetry;
                     apply Z.div_small; lia).
        replace (Z.to_nat _) with 0%nat by lia.
        cbn [pagesFrom seq map]. rewrite app_nil_r. reflexivity.
    + replace (y + Z.of_nat (List.length rest) + 1 >=? m) with false
        by (symmetry; rewrite Z.geb_leb; apply Z.leb_gt; lia).
      rewrite logRequest_world. cbn [iter currentPage perPage].
      unfold servePage at 1. cbn [data pagination total_pages].
      rewrite setCursor_world. cbn [itemsYielded].
      replace (q + 1 - 1) with q by lia.
      pose proof (nonempty_page_up_to_last q ltac:(lia) ltac:(lia))
        as Hnonempty.
      pose proof (firstn_skipn (Z.to_nat pp)
                    (skipn (Z.to_nat (q * pp)) items)) as Hsplit.
      rewrite skipn_skipn in Hsplit.
      replace (Z.to_nat pp + Z.to_nat (q * pp))%nat
        with (Z.to_nat ((q + 1) * pp)) in Hsplit by nia.
      destruct (firstn (Z.to_nat pp) (skipn (Z.to_nat (q * pp)) items))
        as [|x2 rest2] eqn:Hpage2; [cbn [List.length] in Hnonempty; lia |].
      cbn [forLoop]. rewrite capReached_capped.
      replace (y + Z.of_nat (List.length rest) + 1 >=? m) with false
        by (symmetry; rewrite Z.geb_leb; apply Z.leb_gt; lia).
      assert (Htail : List.length (skipn (Z.to_nat (q * pp)) items) =
                      (S (List.length rest2) +
                       List.length
                         (skipn (Z.to_nat ((q + 1) * pp)) items))%nat).
      { rewrite <- Hsplit at 1. rewrite length_app. reflexivity. }
      assert (Hfull : q + 1 < P -> S (List.length rest2) = Z.to_nat pp).
      { intros Hlast.
        pose proof (full_page_before_last q ltac:(lia) Hlast) as Hf.
        rewrite Hpage2 in Hf. exact Hf. }
      assert (Hlen2 : (S (List.length rest2) <= Z.to_nat pp)%nat).
      { apply (f_equal (@List.length T)) in Hpage2.
        rewrite length_firstn in Hpage2. cbn [List.length] in Hpage2. lia. }
      destruct (IH (q + 1) (y + Z.of_nat (List.length rest) + 1)
                  (rq ++ [(q + 1, pp)])%list
                  ((acc ++ rest) ++ [x2])%list
                  (n - List.length rest - 1)%nat (S fuel) x2 rest2)
        as (w' & Hrun & Hrq);
        [ lia | lia | lia
        | replace (q + 1 - 1) with q by lia; exact Hpage2
        | lia | lia |].
      exists w'. split.
      * rewrite Hrun. do 2 f_equal.
        rewrite <- Hsplit, <- !app_assoc. f_equal.
        rewrite (firstn_app (Z.to_nat (m - y - 1)) rest).
        rewrite (firstn_all2 (n := Z.to_nat (m - y - 1)) rest) by lia.
        f_equal.
        replace (Z.to_nat (m - y - 1) - List.length rest)%nat
          with (S (Z.to_nat
                     (m - (y + Z.of_nat (List.length rest) + 1) - 1)))
          by lia.
        reflexivity.
      * rewrite Hrq, <- app_assoc. f_equal.
        set (c := m - y - 1 - Z.of_nat (List.length rest)) in *.
        replace (m - (y + Z.of_nat (List.length rest) + 1) - 1
                 - Z.of_nat (List.length rest2) + pp - 1)
          with (c - Z.of_nat (S (List.length rest2)) + pp - 1) by lia.
        pose proof (pages_for_something c ltac:(lia)) as Hsome.
        destruct (Z_lt_le_dec (q + 1) P) as [Hlast | Hlast].
        -- rewrite (Hfull Hlast), Z2Nat.id by lia.
           rewrite pages_for_one_more_page.
           replace (Z.to_nat (Z.min (Z.of_nat (S j)) ((c + pp - 1) / pp)))
             with (S (Z.to_nat (Z.min (Z.of_nat j)
                                  ((c + pp - 1) / pp - 1)))) by lia.
           rewrite pagesFrom_cons. reflexivity.
        -- assert (j = 0%nat) by lia. subst j.
           replace (Z.to_nat (Z.min (Z.of_nat 0) _)) with 0%nat by lia.
           replace (Z.to_nat (Z.min (Z.of_nat 1) ((c + pp - 1) / pp)))
             with 1%nat by lia.
           rewrite pagesFrom_cons. reflexivity.
Qed.

(** X22. A cap [maxItems = m], [m > 0], over a served data set: [toArray()]
    returns the first [m] items, and requests the pages that hold them
    and no other, in order: as many as the cap needs, at most as many as
    there are, and one when there are none.  A cap that ends on the last
    item of a page does not request the next page. *)
Theorem toArray_capped_served (cp : Z) (tp : option Z) (iy : Z)
    (rq : list (Z * Z)) (n fuel : nat) :
  opt_page o = None ->
  (List.length items < n)%nat ->
  (0 < fuel)%nat ->
  exists w' : World,
    toArray (servePage items) n fuel (W o pp cp tp iy rq) =
    Some (inr (firstn (Z.to_nat m) items), w') /\
    requests w' =
    (rq ++ pagesFrom 1
             (Z.to_nat (Z.min (Z.max 1 P) ((m + pp - 1) / pp))) pp)%list.
Proof.
  intros Hstart Hn Hfuel.
  destruct n as [|n]; [lia |]. destruct fuel as [|fuel]; [lia |].
  unfold toArray. cbn [toArrayLoop next iter options].
  rewrite Hstart. cbn [nullish]. rewrite setCursor_world.
  cbn [whileLoop]. rewrite capReached_capped.
  replace (0 >=? m) with false
    by (symmetry; rewrite Z.geb_leb; apply Z.leb_gt; lia).
  rewrite logRequest_world. cbn [iter currentPage perPage].
  unfold servePage at 1. cbn [data pagination total_pages].
  rewrite setCursor_world. cbn [itemsYielded].
  replace (Z.to_nat ((1 - 1) * pp)) with 0%nat by lia. cbn [skipn].
  pose proof (pages_for_something m ltac:(lia)) as Hsome.
  pose proof (firstn_skipn (Z.to_nat pp) items) as Hsplit.
  destruct (firstn (Z.to_nat pp) items) as [|x rest] eqn:Hpage.
  - assert (Hempty : items = []).
    { destruct items as [|x l]; [reflexivity |].
      destruct (Z.to_nat pp) eqn:E; [lia | discriminate Hpage]. }
    rewrite Hempty. cbn [forLoop]. unfold afterPage.
    cbn [iter currentPage totalPages itemsYielded nullish List.length].
    replace ((Z.of_nat 0 + pp - 1) / pp) with 0
      by (symmetry; apply Z.div_small; lia).
    cbn [Z.geb Z.compare]. eexists. split.
    + rewrite firstn_nil. reflexivity.
    + cbn [requests].
      replace (Z.to_nat (Z.min (Z.max 1 0) ((m + pp - 1) / pp)))
        with 1%nat by lia.
      reflexivity.
  - cbn [forLoop]. rewrite capReached_capped.
    replace (0 >=? m) with false
      by (symmetry; rewrite Z.geb_leb; apply Z.leb_gt; lia).
    assert (Hlen : (S (List.length rest) <= Z.to_nat pp)%nat).
    { apply (f_equal (@List.length T)) in Hpage.
      rewrite length_firstn in Hpage. cbn [List.length] in Hpage. lia. }
    assert (Hitems : List.length items =
                     (S (List.length rest) +
                      List.length (skipn (Z.to_nat pp) items))%nat).
    { rewrite <- Hsplit at 1. rewrite length_app. reflexivity. }
    assert (HP : 1 <= P).
    { pose proof (Z.div_mod (L + pp - 1) pp ltac:(lia)).
      pose proof (Z.mod_pos_bound (L + pp - 1) pp pp_pos). nia. }
    destruct (capped_from_page (Z.to_nat (P - 1)) 1 0
                (rq ++ [(1, pp)])%list ([] ++ [x])%list n (S fuel) x rest)
      as (w' & Hrun & Hrq);
      [ lia | lia | lia
      | replace (Z.to_nat ((1 - 1) * pp)) with 0%nat by lia; exact Hpage
      | rewrite Z.mul_1_l; lia | lia |].
    exists w'. split.
    + rewrite Hrun. do 3 f_equal. rewrite Z.mul_1_l.
      replace (Z.to_nat m) with (S (Z.to_nat (m - 0 - 1))) by lia.
      transitivity
        (firstn (S (Z.to_nat (m - 0 - 1)))
           ((x :: rest) ++ skipn (Z.to_nat pp) items)%list);
        [reflexivity | rewrite Hsplit; reflexivity].
    + rewrite Hrq, <- app_assoc. f_equal.
      set (c := m - 0 - 1 - Z.of_nat (List.length rest) + pp - 1).
      destruct (Z_lt_le_dec 1 P) as [Hlast | Hlast].
      * pose proof (full_page_before_last 0 ltac:(lia) ltac:(lia)) as Hf.
        replace (Z.to_nat (0 * pp)) with 0%nat in Hf by lia.
        cbn [skipn] in Hf. rewrite Hpage in Hf. cbn [List.length] in Hf.
        replace c with (m - pp + pp - 1) by (unfold c; lia).
        rewrite pages_for_one_more_page.
        replace (Z.to_nat (Z.min (Z.max 1 P) ((m + pp - 1) / pp)))
          with (S (Z.to_nat (Z.min (Z.of_nat (Z.to_nat (P - 1)))
                               ((m + pp - 1) / pp - 1)))) by lia.
        rewrite pagesFrom_cons. reflexivity.
      * replace (Z.to_nat (Z.min (Z.of_nat (Z.to_nat (P - 1))) (c / pp)))
          with 0%nat by lia.
        replace (Z.to_nat (Z.min (Z.max 1 P) ((m + pp - 1) / pp)))
          with 1%nat by lia.
        rewrite pagesFrom_cons. reflexivity.
Qed.

End CappedServed.

(** ** Pagination iterator: [first], [count] and [exists] over a served
    data set, and instances of the facts above *)

Section ServedOperations.
Import JS Errors Transport Pagination Derived.

Local Abbreviation W o pp cp tp iy rq :=
  {| iter := {| options := o; perPage := pp; currentPage := cp;
                totalPages := tp; itemsYielded := iy |};
     requests := rq |}.

Lemma hd_error_skipn {T : Type} (l : list T) :
  forall k : nat, hd_error (skipn k l) = nth_error l k.
Proof.
  induction l as [|x l IH]; intros [|k]; try reflexivity.
  cbn [skipn nth_error]. apply IH.
Qed.

(** X23. [first()] over a served data set sends one request, for the start
    page, and returns the first item of that page, or [null] when the page
    is empty; a cap does not matter unless it is negative.  The cursor
    fields are left as the abandoned traversal set them. *)
Theorem first_served {T : Type} (items : list T) (pp : Z)
    (o : AutoPaginateOptions) (cp : Z) (tp : option Z) (iy : Z)
    (rq : list (Z * Z)) (fuel : nat) :
  let start := nullish (opt_page o) 1 in
  0 < pp ->
  1 <= start ->
  (forall c, maxItems o = Some c -> 0 <= c) ->
  (0 < fuel)%nat ->
  first (servePage items) fuel (W o pp cp tp iy rq) =
  Some (inr (nth_error items (Z.to_nat ((start - 1) * pp))),
        W o pp start
          (Some ((Z.of_nat (List.length items) + pp - 1) / pp)) 0
          (rq ++ [(start, pp)])%list).
Proof.
  intros start Hpp Hstart Hcap Hfuel.
  destruct fuel as [|fuel]; [lia |].
  unfold first. cbn [next iter options]. fold start.
  rewrite setCursor_world. cbn [whileLoop].
  assert (Hnocap : forall cp' tp' rq',
    capReached (W o pp cp' tp' 0 rq') = false).
  { intros cp' tp' rq'. unfold capReached. cbn [iter options itemsYielded].
    destruct (maxItems o) as [c |] eqn:Hc; [| reflexivity].
    specialize (Hcap c eq_refl).
    destruct (Z.eqb_spec c 0); [reflexivity |].
    cbn [negb andb]. rewrite Z.geb_leb. apply Z.leb_gt. lia. }
  rewrite Hnocap. rewrite logRequest_world. cbn [iter currentPage perPage].
  unfold servePage at 1. cbn [data pagination total_pages].
  rewrite setCursor_world. cbn [itemsYielded].
  rewrite <- hd_error_skipn.
  set (page := skipn (Z.to_nat ((start - 1) * pp)) items).
  assert (Hlen : (List.length page =
                  List.length items - Z.to_nat ((start - 1) * pp))%nat)
    by apply length_skipn.
  destruct page as [|x rest] eqn:Hpage.
  - rewrite firstn_nil. cbn [forLoop]. unfold afterPage.
    cbn [iter currentPage totalPages nullish hd_error].
    replace (start >=? _) with true; [reflexivity |].
    symmetry. rewrite Z.geb_leb. apply Z.leb_le. cbn [List.length] in Hlen.
    pose proof (Z.div_mod (Z.of_nat (List.length items) + pp - 1) pp
                  ltac:(lia)).
    pose proof (Z.mod_pos_bound (Z.of_nat (List.length items) + pp - 1) pp
                  Hpp).
    nia.
  - destruct (Z.to_nat pp) as [|k] eqn:Hk; [lia |].
    cbn [firstn forLoop]. rewrite Hnocap. reflexivity.
Qed.

Lemma first_served_witness :
  first (servePage (seq 0 7)) 1
    (W {| opt_page := Some 2; opt_per_page := Some 3; maxItems := Some 5 |}
       3 9 (Some 4) 6 []) =
  Some (inr (Some 3%nat),
        W {| opt_page := Some 2; opt_per_page := Some 3; maxItems := Some 5 |}
          3 2 (Some 3) 0 [(2, 3)]).
Proof.
  apply (first_served (seq 0 7) 3
           {| opt_page := Some 2; opt_per_page := Some 3;
              maxItems := Some 5 |} 9 (Some 4) 6 [] 1%nat).
  - lia.
  - cbn. lia.
  - intros c [= <-]. lia.
  - lia.
Defined.

(** X24. [count()] and [exists()] over a served data set, for an iterator
    that starts at page 1 without an effective cap: one request, for page 1
    with a page size of 1, the cursor fields untouched; the count is the
    number of items the [toArray()] that follows collects, and [exists()]
    tells whether there is any. *)
Theorem count_agrees_with_toArray {T : Type} (items : list T) (pp : Z)
    (o : AutoPaginateOptions) (cp : Z) (tp : option Z) (iy : Z)
    (rq : list (Z * Z)) (n fuel : nat) :
  0 < pp ->
  maxItems o = None \/ maxItems o = Some 0 ->
  opt_page o = None ->
  (List.length items < n)%nat ->
  (0 < fuel)%nat ->
  let w1 := W o pp cp tp iy (rq ++ [(1, 1)])%list in
  exists (all : list T) (w2 : World),
    toArray (servePage items) n fuel w1 = Some (inr all, w2) /\
    count (servePage items) (W o pp cp tp iy rq) =
      (inr (Z.of_nat (List.length all)), w1) /\
    exists_ (servePage items) (W o pp cp tp iy rq) =
      (inr (negb (Nat.eqb (List.length all) 0)), w1).
Proof.
  intros Hpp Hcap Hstart Hn Hfuel w1.
  exists items. eexists. split.
  - apply (toArray_served items pp Hpp o Hcap cp tp iy
             (rq ++ [(1, 1)])%list n fuel Hstart Hn Hfuel).
  - unfold exists_, count, servePage.
    cbn [pagination total logRequest iter requests]. split; [reflexivity |].
    do 2 f_equal. destruct items; reflexivity.
Qed.

Lemma count_agrees_with_toArray_witness :
  exists (all : list nat) (w2 : World),
    toArray (servePage (seq 0 7)) 8 1
      (W {| opt_page := None; opt_per_page := Some 3; maxItems := None |}
         3 1 None 0 [(1, 1)]) = Some (inr all, w2) /\
    count (servePage (seq 0 7))
      (W {| opt_page := None; opt_per_page := Some 3; maxItems := None |}
         3 1 None 0 []) =
      (inr (Z.of_nat (List.length all)),
       W {| opt_page := None; opt_per_page := Some 3; maxItems := None |}
         3 1 None 0 [(1, 1)]) /\
    exists_ (servePage (seq 0 7))
      (W {| opt_page := None; opt_per_page := Some 3; maxItems := None |}
         3 1 None 0 []) =
      (inr (negb (Nat.eqb (List.length all) 0)),
       W {| opt_page := None; opt_per_page := Some 3; maxItems := None |}
         3 1 None 0 [(1, 1)]).
Proof.
  apply (count_agrees_with_toArray (seq 0 7) 3
           {| opt_page := None; opt_per_page := Some 3; maxItems := None |}
           1 None 0 [] 8%nat 1%nat).
  - lia.
  - left. reflexivity.
  - reflexivity.
  - simpl. lia.
  - lia.
Defined.

Lemma toArray_error_is_last_request_witness :
  let get := fun p q : Z =>
    if p =? 2
    then inr (Unreadable
                (fun _ => "Cannot read properties of null (reading 'meta')"))
    else servePage (seq 0 7) p q in
  let e :=
    ThrowRaw (typeError "Cannot read properties of null (reading 'meta')") in
  exists (rq : list (Z * Z)) (p q : Z),
    [(1, 3); (2, 3)] = (rq ++ [(p, q)])%list /\
    (get p q = inl e \/
     (exists message,
        get p q = inr (Unreadable message) /\
        e = ThrowRaw (typeError (message "total_pages"))) \/
     (exists pg message,
        get p q = inr (NotIterable pg message) /\
        e = ThrowRaw (typeError message))).
Proof.
  intros get e.
  apply (toArray_error_is_last_request get 8 1
           (W {| opt_page := None; opt_per_page := Some 3;
                 maxItems := None |} 3 1 None 0 [])
           (W {| opt_page := None; opt_per_page := Some 3;
                 maxItems := None |} 3 2 (Some 3) 3 [(1, 3); (2, 3)])
           e).
  reflexivity.
Defined.

Lemma filter_collects_filter_of_toArray_witness :
  collect (filterNext (servePage (seq 0 7)) Nat.even 8 1) 8 Fresh
    (W {| opt_page := None; opt_per_page := Some 3; maxItems := None |}
       3 1 None 0 []) [] =
  Some (inr [0; 2; 4; 6]%nat,
        W {| opt_page := None; opt_per_page := Some 3; maxItems := None |}
          3 3 (Some 3) 7 [(1, 3); (2, 3); (3, 3)]).
Proof.
  apply (filter_collects_filter_of_toArray (servePage (seq 0 7)) Nat.even
           8 1
           (W {| opt_page := None; opt_per_page := Some 3;
                 maxItems := None |} 3 1 None 0 [])
           (W {| opt_page := None; opt_per_page := Some 3;
                 maxItems := None |} 3 3 (Some 3) 7
              [(1, 3); (2, 3); (3, 3)])
           (inr (seq 0 7))).
  reflexivity.
Defined.

Lemma map_collects_map_of_toArray_witness :
  collect (mapNext (servePage (seq 0 7)) S 1) 8 Fresh
    (W {| opt_page := None; opt_per_page := Some 3; maxItems := None |}
       3 1 None 0 []) [] =
  Some (inr (seq 1 7),
        W {| opt_page := None; opt_per_page := Some 3; maxItems := None |}
          3 3 (Some 3) 7 [(1, 3); (2, 3); (3, 3)]).
Proof.
  apply (map_collects_map_of_toArray (servePage (seq 0 7)) S 8 1
           (W {| opt_page := None; opt_per_page := Some 3;
                 maxItems := None |} 3 1 None 0 [])
           (W {| opt_page := None; opt_per_page := Some 3;
                 maxItems := None |} 3 3 (Some 3) 7
              [(1, 3); (2, 3); (3, 3)])
           (inr (seq 0 7))).
  reflexivity.
Defined.

Lemma forEach_folds_toArray_witness :
  exists w'' : World,
    forEach (servePage (seq 0 7))
      (fun (s : nat) (item : nat) => inr (s + item)%nat)
      8 1
      (W {| opt_page := None; opt_per_page := Some 3; maxItems := None |}
         3 1 None 0 []) 0%nat =
    Some (inr 21%nat, w'') /\
    (forall s' : nat,
       @inr Thrown nat 21%nat = inr s' ->
       w'' = W {| opt_page := None; opt_per_page := Some 3;
                  maxItems := None |} 3 3 (Some 3) 7
               [(1, 3); (2, 3); (3, 3)]).
Proof.
  apply (forEach_folds_toArray (servePage (seq 0 7))
           (fun (s : nat) (item : nat) => inr (s + item)%nat)
           8 1
           (W {| opt_page := None; opt_per_page := Some 3;
                 maxItems := None |} 3 1 None 0 [])
           (W {| opt_page := None; opt_per_page := Some 3;
                 maxItems := None |} 3 3 (Some 3) 7
              [(1, 3); (2, 3); (3, 3)])
           0%nat (seq 0 7)).
  reflexivity.
Defined.

Lemma maxItems_caps_toArray_witness :
  exists wc : World,
    toArray (servePage (seq 0 7)) 8 1
      (W {| opt_page := None; opt_per_page := Some 3; maxItems := Some 3 |}
         3 1 None 0 []) = Some (inr [0; 1; 2]%nat, wc) /\
    exists later, [(1, 3); (2, 3); (3, 3)] = (requests wc ++ later)%list.
Proof.
  apply (maxItems_caps_toArray (servePage (seq 0 7)) 3 ltac:(lia)
           (servePage (seq 0 7)) 8 1
           (W {| opt_page := None; opt_per_page := Some 3;
                 maxItems := None |} 3 1 None 0 [])
           (W {| opt_page := None; opt_per_page := Some 3;
                 maxItems := None |} 3 3 (Some 3) 7
              [(1, 3); (2, 3); (3, 3)])
           (seq 0 7)).
  - reflexivity.
  - lia.
  - reflexivity.
  - reflexivity.
Defined.

Lemma toArray_capped_served_witness :
  exists w' : World,
    toArray (servePage (seq 0 250)) 251 1
      (W {| opt_page := None; opt_per_page := Some 100;
            maxItems := Some 100 |} 100 1 None 0 []) =
    Some (inr (seq 0 100), w') /\
    requests w' = [(1, 100)].
Proof.
  apply (toArray_capped_served (seq 0 250) 100 100 ltac:(lia) ltac:(lia)
           {| opt_page := None; opt_per_page := Some 100;
              maxItems := Some 100 |} eq_refl 1 None 0 [] 251%nat 1%nat).
  - reflexivity.
  - simpl. lia.
  - lia.
Defined.

End ServedOperations.
